(** * Video Object Identifier: detection client, frame extractor, annotator

    A shallow embedding of
      - [src/services/geminiService.ts]  (the detection client, [identifyObjectsInVideo]),
      - the application component        ([extractFrameFromVideo], [drawBoundingBoxOnImage],
                                          [handleIdentifyClick], [handleFileChange]),
      - [src/components/VideoUpload.tsx] (the upload zone),
    the properties the specification states about them (Parts VI to IX) and
    further properties of the code (Parts X to XIV).

    Conventions.
      - A JavaScript string is the list of its UTF-16 code units.
      - A JavaScript number is an IEEE 754 binary64 value: Rocq's primitive
        [float], whose operations are specified by [SpecFloat].
      - Whatever the platform decides (the remote model, [JSON.parse], the
        media decoder, the JPEG encoder) is a parameter of the definitions.
      - Effects (remote calls, timers, console output) are recorded in a trace
        that is threaded through the code. *)

From Stdlib Require Import ZArith NArith List Bool Lia String Ascii Floats.
From stdpp Require Import list.

#[local] Set Warnings "-inexact-float".
#[local] Open Scope Z_scope.

(* ===================================================================== *)
(** * Part I. The platform: strings and numbers                          *)
(* ===================================================================== *)

Module JS.

(** ** Strings *)

Definition js_string := list N.

(** The string denoted by an ASCII literal. *)
Definition lit (s : string) : js_string :=
  List.map N_of_ascii (list_ascii_of_string s).

(** ECMAScript [WhiteSpace] and [LineTerminator] code points: what
    [String.prototype.trim] strips. *)
Definition is_white_space (c : N) : bool :=
  (N.leb 9 c && N.leb c 13            (* TAB, LF, VT, FF, CR *)
   || N.eqb c 32                      (* SPACE *)
   || N.eqb c 160                     (* NO-BREAK SPACE *)
   || N.eqb c 5760                    (* OGHAM SPACE MARK *)
   || N.leb 8192 c && N.leb c 8202    (* EN QUAD .. HAIR SPACE *)
   || N.eqb c 8232 || N.eqb c 8233    (* LINE / PARAGRAPH SEPARATOR *)
   || N.eqb c 8239 || N.eqb c 8287    (* NARROW NBSP, MEDIUM MATH SPACE *)
   || N.eqb c 12288                   (* IDEOGRAPHIC SPACE *)
   || N.eqb c 65279)%bool.            (* ZERO WIDTH NO-BREAK SPACE *)

Fixpoint trimStart (s : js_string) : js_string :=
  match s with
  | c :: s' => if is_white_space c then trimStart s' else s
  | [] => []
  end.

Definition trimEnd (s : js_string) : js_string :=
  rev (trimStart (rev s)).

Definition trim (s : js_string) : js_string := trimEnd (trimStart s).

Fixpoint startsWith (s p : js_string) : bool :=
  match p, s with
  | [], _ => true
  | a :: p', b :: s' => N.eqb a b && startsWith s' p'
  | _ :: _, [] => false
  end.

(** [s.includes(sub)] *)
Fixpoint includes (s sub : js_string) : bool :=
  startsWith s sub ||
  match s with
  | [] => false
  | _ :: s' => includes s' sub
  end.

(** [s.split(sep)] for a separator of one code unit. *)
Fixpoint split (sep : N) (s : js_string) : list js_string :=
  match s with
  | [] => [[]]
  | c :: s' =>
      if N.eqb c sep then [] :: split sep s'
      else match split sep s' with
           | w :: ws => (c :: w) :: ws
           | [] => [[c]]
           end
  end.

(** [l.join(sep)] *)
Fixpoint join (sep : js_string) (l : list js_string) : js_string :=
  match l with
  | [] => []
  | s :: rest =>
      match rest with
      | [] => s
      | _ :: _ => s ++ sep ++ join sep rest
      end
  end.

(** ** Errors and promises *)

(** A thrown value, as far as the code inspects it. [mkError] is any
    value other than [null] and [undefined]: whether it is an instance of
    [Error], and its [message], a string or missing. [Nullish] is [null]
    or [undefined]: reading a property of it raises a [TypeError], whose
    message (the engine's) it carries. Values whose [message] is neither
    missing nor a string are not modelled. *)
Inductive Error :=
| mkError (instanceOfError : bool) (message : option js_string)
| Nullish (typeError : js_string).

Definition message (error : Error) : option js_string :=
  match error with
  | mkError _ message => message
  | Nullish _ => None
  end.

(** [new Error(msg)], and every error the engine raises itself. *)
Definition new_Error (msg : js_string) : Error := mkError true (Some msg).

(** How an awaited promise ends. [Pending] is a promise that never
    settles. *)
Inductive Promise (A : Type) :=
| Fulfilled (a : A)
| Rejected (e : Error)
| Pending.
Arguments Fulfilled {A} a.
Arguments Rejected {A} e.
Arguments Pending {A}.

End JS.

Import JS.

(* ===================================================================== *)
(** * Part II. The detection client ([src/services/geminiService.ts])     *)
(* ===================================================================== *)

Module GeminiService.

(** Development toggle of the source. *)
Definition USE_MOCK_DATA : bool := false.

Record BoundingBox := mkBox
  { x_min : float; y_min : float; x_max : float; y_max : float }.

Record VideoObject := mkVideoObject
  { name : js_string;
    description : js_string;
    timestamp : float;
    boundingBox : BoundingBox;
    price : js_string }.

Record IdentifyResult := mkResult
  { objects : list VideoObject; rawJson : js_string }.

(** A [File]: its MIME type and what [FileReader.readAsDataURL] yields
    for it ([None]: the reader fires [onerror]). *)
Record File := mkFile
  { file_type : js_string; file_dataURL : option js_string }.

(** [result.split(',')[1]], or the reader's error event (an event, not an
    [Error], and without message). *)
Definition fileToBase64 (file : File) : Promise (option js_string) :=
  match file_dataURL file with
  | Some result => Fulfilled (split 44 result !! 1%nat)
  | None => Rejected (mkError false None)
  end.

(** What one call of [ai.models.generateContent] is given (the prompt is
    fixed text around the joined target names) and how it ends. *)
Record Request := mkRequest
  { req_targets : list js_string;
    req_mimeType : js_string;
    req_data : option js_string }.

Inductive ApiOutcome :=
| ApiRejects (e : Error)            (* the awaited call, or reading the
                                       response's text, throws [e] *)
| ApiResponds (text : js_string).   (* [response.text] *)

(** [JSON.parse]: a [SyntaxError] with an engine-defined message, or the
    value, taken at its declared type [VideoObject[]]. A text that parses
    to a value of another shape (an object, a number, [null]) has no
    counterpart here: what is proved below about parsed results is about
    arrays of such objects. *)
Inductive ParseOutcome :=
| SyntaxError (msg : js_string)
| Parsed (objs : list VideoObject).

Inductive Effect :=
| GenerateContent (request : Request)
| SetTimeout (ms : Z)
| ConsoleWarn (delay : Z) (attempt : Z)   (* the retry notice *)
| ConsoleWarnMock                         (* the notice of [getMockData] *)
| ConsoleError.

Definition maxRetries : Z := 3.

Definition api_key_msg : js_string :=
  lit "API_KEY environment variable is not set.".
Definition failed_msg : js_string :=
  lit "Failed to identify objects in the video. The model may have returned an error or invalid data after multiple retries.".
Definition exhausted_msg : js_string :=
  lit "Exhausted all retries to the Gemini API.".

(** [error.message?.includes('503') || error.message?.includes('UNAVAILABLE')
     || error.message?.includes('overloaded')], as a condition. On [null]
    and [undefined] its evaluation throws instead (see [retry_loop]). *)
Definition isServiceUnavailable (error : Error) : bool :=
  match message error with
  | Some m =>
      includes m (lit "503") || includes m (lit "UNAVAILABLE")
      || includes m (lit "overloaded")
  | None => false
  end.

Section Client.

(** [process.env.API_KEY] *)
Variable API_KEY : option js_string.
(** The remote model: how the call made in iteration [i] ends. *)
Variable generateContent : Request -> Z -> ApiOutcome.
Variable JSON_parse : js_string -> ParseOutcome.
Variable JSON_stringify : list VideoObject -> js_string.

Definition getMockData (targetObjects : list js_string)
  : IdentifyResult :=
  let mockObjects :=
    [ mkVideoObject (lit "Mock Glock 17")
        (lit "A standard issue mock handgun.") 2.5
        (mkBox 0.25 0.4 0.45 0.6) (lit "$500 - $600");
      mkVideoObject (lit "Mock AR-15")
        (lit "A mock semi-automatic rifle with a scope.") 5.1
        (mkBox 0.1 0.3 0.8 0.5) (lit "$800 - $1200");
      mkVideoObject (lit "Mock Shotgun")
        (lit "A mock pump-action shotgun.") 8.9
        (mkBox 0.3 0.6 0.9 0.8) (lit "$300 - $500");
      mkVideoObject
        (lit "Mock " ++
           match targetObjects with
           | t :: _ => if bool_decide (t = []) then lit "Object" else t
           | [] => lit "Object"
           end)
        (lit "A generic mock item based on your query.") 11.2
        (mkBox 0.6 0.1 0.8 0.3) (lit "$100 - $200") ] in
  mkResult mockObjects (JSON_stringify mockObjects).

(** The [try] block of one iteration: the result it returns, or the
    value it throws. *)
Definition attempt (request : Request) (i : Z) : IdentifyResult + Error :=
  match generateContent request i with
  | ApiRejects e => inr e
  | ApiResponds response_text =>
      let text := trim response_text in
      if bool_decide (text = []) then inl (mkResult [] (lit "[]"))
      else match JSON_parse text with
           | Parsed objs => inl (mkResult objs text)
           | SyntaxError msg => inr (new_Error msg)
           end
  end.

(** [for (let i = 0; i < maxRetries; i++) { try ... catch ... }] followed
    by the final [throw]. [fuel] is [maxRetries - i], the iterations
    left, so [fuel = 0] is the loop test failing. When the value caught
    is [null] or [undefined], the first statement of the [catch] block
    throws a [TypeError] on reading [error.message]; nothing catches it,
    so it is what the function rejects with, nothing being logged. *)
Fixpoint retry_loop (request : Request) (fuel : nat) (i delay : Z)
    (trace : list Effect) : Promise IdentifyResult * list Effect :=
  match fuel with
  | O => (Rejected (new_Error exhausted_msg), trace)
  | S fuel' =>
      let trace := trace ++ [GenerateContent request] in
      match attempt request i with
      | inl result => (Fulfilled result, trace)
      | inr (Nullish typeError) => (Rejected (new_Error typeError), trace)
      | inr (mkError _ _ as error) =>
          if isServiceUnavailable error && (i <? maxRetries - 1) then
            retry_loop request fuel' (i + 1) (delay * 2)
              (trace ++ [ConsoleWarn delay (i + 1); SetTimeout delay])
          else
            (Rejected (new_Error failed_msg), trace ++ [ConsoleError])
      end
  end.

Definition identifyObjectsInVideo (videoFile : File)
    (targetObjects : list js_string)
  : Promise IdentifyResult * list Effect :=
  if USE_MOCK_DATA then
    (Fulfilled (getMockData targetObjects), [ConsoleWarnMock])
  else
    match API_KEY with
    | None | Some [] => (Rejected (new_Error api_key_msg), [])
    | Some (_ :: _) =>
        match fileToBase64 videoFile with
        | Fulfilled base64Video =>
            retry_loop
              (mkRequest targetObjects (file_type videoFile) base64Video)
              (Z.to_nat maxRetries) 0 1000 []
        | Rejected e => (Rejected e, [])
        | Pending => (Pending, [])
        end
    end.

End Client.

(** [targetObjects.join(', ')]: how the prompt names the targets. *)
Definition promptTargets (targetObjects : list js_string) : js_string :=
  join (lit ", ") targetObjects.

(** The remote calls and the timer waits of a trace. *)
Definition calls (trace : list Effect) : nat :=
  List.length
    (List.filter (fun e => match e with GenerateContent _ => true | _ => false end)
       trace).

Fixpoint waits (trace : list Effect) : list Z :=
  match trace with
  | SetTimeout ms :: t => ms :: waits t
  | _ :: t => waits t
  | [] => []
  end.

End GeminiService.

(* ===================================================================== *)
(** * Part III. Numbers: the [Math] functions the application calls       *)
(* ===================================================================== *)

Module Math.

Definition is_pos_zero (x : float) : bool := PrimFloat.Leibniz.eqb x zero.
Definition is_neg_zero (x : float) : bool := PrimFloat.Leibniz.eqb x neg_zero.

(** [Math.max(...args)], step by step as ECMAScript defines it: NaN is
    contagious, [+0] counts as larger than [-0]. *)
Fixpoint max_from (highest : float) (args : list float) : float :=
  match args with
  | [] => highest
  | number :: rest =>
      if is_nan number then nan
      else
        let highest :=
          if is_pos_zero number && is_neg_zero highest then zero
          else highest in
        let highest := if (highest <? number)%float then number else highest in
        max_from highest rest
  end.

Definition max (args : list float) : float := max_from neg_infinity args.

(** [Math.min(...args)]: the mirror image, [-0] counts as smaller. *)
Fixpoint min_from (lowest : float) (args : list float) : float :=
  match args with
  | [] => lowest
  | number :: rest =>
      if is_nan number then nan
      else
        let lowest :=
          if is_neg_zero number && is_pos_zero lowest then neg_zero
          else lowest in
        let lowest := if (number <? lowest)%float then number else lowest in
        min_from lowest rest
  end.

Definition min (args : list float) : float := min_from infinity args.

(** [Math.round] on the specification level: the nearest integer, ties
    towards [+Infinity]; integers, zeros, infinities and NaN are fixed. *)
Definition SFround (x : spec_float) : spec_float :=
  match x with
  | S754_finite s m (Zneg n) =>
      let q := Zpos m / 2 ^ Zpos n in
      let r := Zpos m mod 2 ^ Zpos n in
      let half := 2 ^ (Zpos n - 1) in
      let k := if s then (if half <? r then q + 1 else q)
               else (if half <=? r then q + 1 else q) in
      binary_normalize prec emax (cond_Zopp s k) 0 s
  | _ => x
  end.

Definition round (x : float) : float := SF2Prim (SFround (Prim2SF x)).

(** The Number value of an unsigned integer (a DOM [unsigned long]). *)
Definition of_N (n : N) : float :=
  SF2Prim (binary_normalize prec emax (Z.of_N n) 0 false).

End Math.

(* ===================================================================== *)
(** * Part IV. The application component                                   *)
(* ===================================================================== *)

Module App.

Import GeminiService.

Record IdentifiedObject := mkIdentified
  { name : js_string;
    imageUrl : option js_string;
    price : js_string;
    timestamp : float }.

(** ** Canvases, described by what was drawn on them *)

Inductive Source :=
| ImageOf (url : js_string)                     (* the decoded [Image] *)
| VideoFrame (file : File) (currentTime : float).

Record StrokeStyle := mkStyle
  { strokeStyle : js_string;
    lineWidth : float;
    shadowColor : js_string;
    shadowBlur : float }.

Inductive DrawOp :=
| DrawImage (src : Source)                      (* at (0,0), full size *)
| StrokeRect (style : StrokeStyle) (x y w h : float).

Record Canvas := mkCanvas
  { canvas_width : N; canvas_height : N; drawn : list DrawOp }.

(** ** The browser, as far as the two helpers observe it *)

Inductive VideoLoad :=
| LoadedMetadata (duration : float) (videoWidth videoHeight : N)
| VideoError (msg : option js_string).

Inductive SeekOutcome :=
| Seeked
| SeekError (msg : option js_string).

Record Browser := mkBrowser
  { getContext2d : bool;        (* [canvas.getContext('2d')] is not null *)
    loadVideo : File -> VideoLoad;
    seek : File -> float -> SeekOutcome;
    loadImage : js_string -> option (N * N);   (* [onload] with the size, or [onerror] *)
    toDataURL : Canvas -> js_string -> option float -> js_string }.

Definition video_error (msg : option js_string) : Error :=
  new_Error (lit "Video error during frame extraction: " ++
             match msg with Some m => m | None => lit "undefined" end).

(** [Math.min(Math.max(0, timeInSeconds), video.duration)] *)
Definition seekTarget (timeInSeconds duration : float) : float :=
  Math.min [Math.max [0%float; timeInSeconds]; duration].

(** Assigning a non-finite value to [currentTime] throws inside the
    [loadedmetadata] handler; the promise is then never settled. *)
Definition extractFrameFromVideo (b : Browser) (videoFile : File)
    (timeInSeconds : float) : Promise js_string :=
  if negb (getContext2d b) then
    Rejected (new_Error (lit "Could not get canvas context."))
  else
    match loadVideo b videoFile with
    | VideoError msg => Rejected (video_error msg)
    | LoadedMetadata duration videoWidth videoHeight =>
        let currentTime := seekTarget timeInSeconds duration in
        if is_finite currentTime then
          match seek b videoFile currentTime with
          | Seeked =>
              Fulfilled
                (toDataURL b
                   (mkCanvas videoWidth videoHeight
                      [DrawImage (VideoFrame videoFile currentTime)])
                   (lit "image/jpeg") (Some 0.9%float))
          | SeekError msg => Rejected (video_error msg)
          end
        else Pending
    end.

(** The rectangle of [drawBoundingBoxOnImage]: clamped corners and the
    size between them. *)
Record Rect := mkRect { x1 : float; y1 : float; x2 : float; y2 : float }.

Definition clampBox (img_width img_height : float) (box : BoundingBox)
  : Rect :=
  mkRect (Math.max [0; x_min box * img_width]%float)
         (Math.max [0; y_min box * img_height]%float)
         (Math.min [img_width; x_max box * img_width]%float)
         (Math.min [img_height; y_max box * img_height]%float).

Definition rect_width (r : Rect) : float := (x2 r - x1 r)%float.
Definition rect_height (r : Rect) : float := (y2 r - y1 r)%float.

Definition boxStyle (img_width img_height : float) : StrokeStyle :=
  let lineWidth :=
    Math.max [2; Math.round (Math.min [img_width; img_height] / 250)]%float in
  mkStyle (lit "yellow") lineWidth (lit "rgba(0, 0, 0, 0.8)")
          (lineWidth * 2)%float.

(** What is drawn over the image: the rectangle, if it has a positive
    size, and nothing otherwise. *)
Definition overlay (img_width img_height : float) (box : BoundingBox)
  : list DrawOp :=
  let r := clampBox img_width img_height box in
  let width := rect_width r in
  let height := rect_height r in
  if (0 <? width)%float && (0 <? height)%float then
    [StrokeRect (boxStyle img_width img_height) (x1 r) (y1 r) width height]
  else [].

Definition drawBoundingBoxOnImage (b : Browser) (imageUrl : js_string)
    (box : BoundingBox) : Promise js_string :=
  match loadImage b imageUrl with
  | None =>
      Rejected (new_Error (lit "Failed to load image for drawing bounding box."))
  | Some (w, h) =>
      if negb (getContext2d b) then Rejected (mkError false None)
      else
        Fulfilled
          (toDataURL b
             (mkCanvas w h
                (DrawImage (ImageOf imageUrl)
                 :: overlay (Math.of_N w) (Math.of_N h) box))
             (lit "image/jpeg") None)
  end.

(** ** The component state and [handleIdentifyClick] *)

Record State := mkState
  { videoFile : option File;
    query : js_string;
    identifiedObjects : list IdentifiedObject;
    rawJsonOutput : option js_string;
    isLoading : bool;
    error : option js_string }.

Definition set_identifiedObjects (f : list IdentifiedObject -> list IdentifiedObject)
    (st : State) : State :=
  mkState (videoFile st) (query st) (f (identifiedObjects st))
          (rawJsonOutput st) (isLoading st) (error st).

(** [query.split(',').map(s => s.trim()).filter(Boolean)] *)
Definition targetObjectsOf (query : js_string) : list js_string :=
  List.filter (fun s => negb (bool_decide (s = [])))
    (trim <$> split 44 query).

(** Up to the [await]: validation, then the reset; the second component
    is the detection call that is started, if any. *)
Definition handleIdentifyClick_begin (st : State)
  : State * option (File * list js_string) :=
  match videoFile st with
  | None =>
      (mkState (videoFile st) (query st) (identifiedObjects st)
         (rawJsonOutput st) (isLoading st)
         (Some (lit "Please upload a video file first.")), None)
  | Some file =>
      if bool_decide (trim (query st) = []) then
        (mkState (videoFile st) (query st) (identifiedObjects st)
           (rawJsonOutput st) (isLoading st)
           (Some (lit "Please specify what objects to identify.")), None)
      else
        (mkState (videoFile st) (query st) [] None true None,
         Some (file, targetObjectsOf (query st)))
  end.

Definition initialObject (obj : VideoObject) : IdentifiedObject :=
  mkIdentified (GeminiService.name obj) None (GeminiService.price obj)
               (GeminiService.timestamp obj).

(** A per-object pipeline started by [forEach]: its index and object. *)
Definition Job : Type := nat * VideoObject.

Definition jobsOf (objectsWithData : list VideoObject) : list Job :=
  imap (fun index obj => (index, obj)) objectsWithData.

(** After the [await]: the state once the handler has run to its end,
    and the pipelines it has started. The [catch] block is entered by a
    rejected call; on a result of the declared type nothing else in the
    [try] block throws. *)
Definition handleIdentifyClick_resume (outcome : Promise IdentifyResult)
    (st : State) : State * list Job :=
  match outcome with
  | Fulfilled (mkResult objectsWithData rawJson) =>
      match objectsWithData with
      | [] =>
          (mkState (videoFile st) (query st) [] (Some rawJson) false
             (Some (lit "No matching objects were found in the video.")), [])
      | _ :: _ =>
          (mkState (videoFile st) (query st)
             (initialObject <$> objectsWithData) (Some rawJson) false
             (error st),
           jobsOf objectsWithData)
      end
  | Rejected err =>
      (mkState (videoFile st) (query st) (identifiedObjects st)
         (rawJsonOutput st) false
         match err with
         | mkError true message => message
         | mkError false _ | Nullish _ =>
             Some (lit "An unknown error occurred during object identification.")
         end, [])
  | Pending => (st, [])
  end.

(** One pipeline: extract, then annotate. *)
Definition pipeline (b : Browser) (file : File) (obj : VideoObject)
  : Promise js_string :=
  match extractFrameFromVideo b file (GeminiService.timestamp obj) with
  | Fulfilled rawFrame =>
      drawBoundingBoxOnImage b rawFrame (boundingBox obj)
  | Rejected e => Rejected e
  | Pending => Pending
  end.

(** The updater passed to [setIdentifiedObjects] when a pipeline is done. *)
Definition withFrame (index : nat) (obj : VideoObject)
    (frameWithBox : js_string) (prev : list IdentifiedObject)
  : list IdentifiedObject :=
  match prev !! index with
  | Some current =>
      if bool_decide (name current = GeminiService.name obj) then
        <[index := mkIdentified (name current) (Some frameWithBox)
                     (price current) (timestamp current)]> prev
      else prev
  | None => prev
  end.

(** A pipeline settles: the guarded update, or (in the [catch]) only a
    console message. *)
Definition settle (job : Job) (outcome : Promise js_string) (st : State)
  : State :=
  match outcome with
  | Fulfilled frameWithBox =>
      set_identifiedObjects (withFrame (fst job) (snd job) frameWithBox) st
  | Rejected _ | Pending => st
  end.

(** Pipelines settling one after the other, in the given order. *)
Definition settle_all (done : list (Job * Promise js_string)) (st : State)
  : State :=
  fold_left (fun st d => settle (fst d) (snd d) st) done st.

(** ** The whole handler, the file handler and what is rendered *)

(** [handleIdentifyClick] from the click to the end of its [finally]
    block, with the detection call it awaits: the state it leaves, the
    pipelines it starts, and the effects of the call and of the [catch]
    block ([console.error(err)]). *)
Definition handleIdentifyClick
    (identifyObjectsInVideo :
       File -> list js_string -> Promise IdentifyResult * list Effect)
    (st : State) : (State * list Job) * list Effect :=
  match handleIdentifyClick_begin st with
  | (st1, Some (file, targetObjects)) =>
      let (outcome, trace) := identifyObjectsInVideo file targetObjects in
      (handleIdentifyClick_resume outcome st1,
       trace ++ match outcome with
                | Rejected _ => [ConsoleError]
                | Fulfilled _ | Pending => []
                end)
  | (st1, None) => ((st1, []), [])
  end.

(** The [disabled] attribute of the Identify button:
    [!videoFile || isLoading || !query.trim()]. *)
Definition identifyDisabled (st : State) : bool :=
  match videoFile st with None => true | Some _ => false end
  || isLoading st
  || bool_decide (trim (query st) = []).

Inductive UrlEffect :=
| RevokeObjectURL (url : js_string)
| CreateObjectURL (file : File).

(** [handleFileChange]: [videoUrl] is the preview URL held in state
    (an empty string counts as none), [createObjectURL] the URL the
    browser hands out for a file. *)
Definition handleFileChange (createObjectURL : File -> js_string)
    (file : option File) (videoUrl : option js_string) (st : State)
  : (State * option js_string) * list UrlEffect :=
  let revoked :=
    match videoUrl with
    | Some (c :: url) => [RevokeObjectURL (c :: url)]
    | Some [] | None => []
    end in
  let st' := mkState file (query st) [] None (isLoading st) None in
  match file with
  | Some f => ((st', Some (createObjectURL f)), revoked ++ [CreateObjectURL f])
  | None => ((st', None), revoked)
  end.

(** File changes reported one after the other. *)
Fixpoint handleFileChanges (createObjectURL : File -> js_string)
    (files : list (option File)) (videoUrl : option js_string) (st : State)
  : (State * option js_string) * list UrlEffect :=
  match files with
  | [] => ((st, videoUrl), [])
  | file :: rest =>
      let '((st', videoUrl'), effects) :=
        handleFileChange createObjectURL file videoUrl st in
      let '(final, effects') :=
        handleFileChanges createObjectURL rest videoUrl' st' in
      (final, effects ++ effects')
  end.

(** The raw JSON panel: rendered when [rawJsonOutput && !isLoading], as
    [JSON.stringify(JSON.parse(rawJsonOutput), null, 2)]; a text that does
    not parse makes rendering throw. *)
Inductive Panel :=
| Hidden
| Shown (text : js_string)
| Throws (msg : js_string).

Definition rawJsonPanel (JSON_parse : js_string -> ParseOutcome)
    (JSON_stringify : list VideoObject -> js_string) (st : State) : Panel :=
  match rawJsonOutput st with
  | Some (c :: raw) =>
      if isLoading st then Hidden
      else match JSON_parse (c :: raw) with
           | Parsed objs => Shown (JSON_stringify objs)
           | SyntaxError msg => Throws msg
           end
  | Some [] | None => Hidden
  end.

End App.

(* ===================================================================== *)
(** * The upload zone ([src/components/VideoUpload.tsx])                  *)
(* ===================================================================== *)

Module VideoUpload.

Import GeminiService.

(** The component state is [isDragging]; its props are [disabled] and the
    callback [onFileChange], whose calls the handlers below return.
    [files] is a [FileList], which may be missing. *)
Definition handleDragEnter (disabled : bool) (isDragging : bool) : bool :=
  if negb disabled then true else isDragging.

Definition handleDragLeave (isDragging : bool) : bool := false.

Definition handleDragOver (isDragging : bool) : bool := isDragging.

Definition handleDrop (disabled : bool) (files : option (list File))
    (isDragging : bool) : bool * list (option File) :=
  (false,
   if negb disabled then
     match files with
     | Some (file :: _) => [Some file]
     | Some [] | None => []
     end
   else []).

Definition handleFileSelect (files : option (list File))
  : list (option File) :=
  match files with
  | Some (file :: _) => [Some file]
  | Some [] | None => [None]
  end.

(** The drag events of the drop zone, and a run of them: the zone's
    state afterwards and the calls of [onFileChange], in order. *)
Inductive DragEvent :=
| DragEnter
| DragLeave
| DragOver
| Drop (files : option (list File)).

Definition onDragEvent (disabled : bool) (ev : DragEvent) (isDragging : bool)
  : bool * list (option File) :=
  match ev with
  | DragEnter => (handleDragEnter disabled isDragging, [])
  | DragLeave => (handleDragLeave isDragging, [])
  | DragOver => (handleDragOver isDragging, [])
  | Drop files => handleDrop disabled files isDragging
  end.

Fixpoint onDragEvents (disabled : bool) (evs : list DragEvent)
    (isDragging : bool) : bool * list (option File) :=
  match evs with
  | [] => (isDragging, [])
  | ev :: evs' =>
      let (isDragging', calls) := onDragEvent disabled ev isDragging in
      let (isDragging'', calls') := onDragEvents disabled evs' isDragging' in
      (isDragging'', calls ++ calls')
  end.

End VideoUpload.

(* ===================================================================== *)
(** * Part V. Vocabulary of the statements                                *)
(* ===================================================================== *)

(** ** What the statements say about attempts, pipelines and runs *)

Module Vocabulary.

Import GeminiService App.

(** A failed attempt that the [catch] block classifies as transient. *)
Definition transient_failure (o : IdentifyResult + Error) : bool :=
  match o with
  | inr e => isServiceUnavailable e
  | inl _ => false
  end.

(** The image a settled pipeline leaves behind. *)
Definition settled_image (o : Promise js_string) : option js_string :=
  match o with
  | Fulfilled frameWithBox => Some frameWithBox
  | Rejected _ | Pending => None
  end.

(** The pipelines of [order] settle, in that order, each with the outcome
    [outcome] gives for its index. *)
Definition afterPipelines (order : list Job)
    (outcome : nat -> Promise js_string) (st : State) : State :=
  settle_all ((fun job => (job, outcome (fst job))) <$> order) st.

(** The card of [obj] with the image [img]. *)
Definition card (obj : VideoObject) (img : option js_string)
  : IdentifiedObject :=
  mkIdentified (GeminiService.name obj) img (GeminiService.price obj)
               (GeminiService.timestamp obj).

(** [l] shows the objects [objs], slot by slot, with the images [img]. *)
Definition shows (objs : list VideoObject) (img : nat -> option js_string)
    (l : list IdentifiedObject) : Prop :=
  forall i, l !! i = (fun obj => card obj (img i)) <$> (objs !! i).

(** Which run started a pipeline. *)
Inductive Run := FirstRun | SecondRun.

(** A pipeline settling, tagged with the run that started it. *)
Definition Completion : Type := Run * (Job * Promise js_string).

Definition is_fresh (c : Completion) : bool :=
  match fst c with SecondRun => true | FirstRun => false end.

(** The pipelines of the second run alone. *)
Definition fresh_only (done : list Completion) : list Completion :=
  List.filter is_fresh done.

Definition batch (objs1 objs2 : list VideoObject) (r : Run)
  : list VideoObject :=
  match r with FirstRun => objs1 | SecondRun => objs2 end.

(** A target name as the handler passes it on: not empty, trimmed, and
    without a comma. *)
Definition clean (t : js_string) : Prop :=
  t <> [] /\ trim t = t /\ (44%N ∉ t).

(** The raw JSON held in state can be rendered: it is missing, empty, or
    a text that [JSON.parse] accepts. *)
Definition parsable (JSON_parse : js_string -> ParseOutcome) (st : State)
  : Prop :=
  forall raw, rawJsonOutput st = Some raw -> raw <> [] ->
              exists objs, JSON_parse raw = Parsed objs.

(** The URLs a trace creates (as the browser names them) and revokes. *)
Fixpoint created (createObjectURL : File -> js_string)
    (trace : list UrlEffect) : list js_string :=
  match trace with
  | CreateObjectURL file :: t => createObjectURL file :: created createObjectURL t
  | RevokeObjectURL _ :: t => created createObjectURL t
  | [] => []
  end.

Fixpoint revoked (trace : list UrlEffect) : list js_string :=
  match trace with
  | RevokeObjectURL url :: t => url :: revoked t
  | CreateObjectURL _ :: t => revoked t
  | [] => []
  end.

End Vocabulary.

(** ** Sample platforms and inputs, for closed examples *)

Module Samples.

Import GeminiService App.

(** A string literal of JSON: the text between quotation marks. *)
Definition quoted (s : string) : js_string := [34%N] ++ lit s ++ [34%N].

Definition chair : VideoObject :=
  mkVideoObject (lit "chair") (lit "a wooden chair") 2.5
    (mkBox 0.25 0.4 0.45 0.6) (lit "$40 - $60").

(** The JSON text of the array that holds [chair] alone. *)
Definition chair_json : js_string :=
  lit "[{" ++ quoted "name" ++ lit ":" ++ quoted "chair" ++ lit "," ++
  quoted "description" ++ lit ":" ++ quoted "a wooden chair" ++ lit "," ++
  quoted "timestamp" ++ lit ":2.5," ++
  quoted "boundingBox" ++ lit ":{" ++
  quoted "x_min" ++ lit ":0.25," ++ quoted "y_min" ++ lit ":0.4," ++
  quoted "x_max" ++ lit ":0.45," ++ quoted "y_max" ++ lit ":0.6}," ++
  quoted "price" ++ lit ":" ++ quoted "$40 - $60" ++ lit "}]".

(** Sample platform pieces: a parser that agrees with [JSON.parse] on the
    texts [[]] and [chair_json] and rejects every other text with a fixed
    message; a parser whose syntax errors quote the rejected text, as those
    of V8 do; a serializer; an API key; a model that is always overloaded
    and one that always responds with the same text. *)
Definition sample_parse (s : js_string) : ParseOutcome :=
  if bool_decide (s = lit "[]") then Parsed []
  else if bool_decide (s = chair_json) then Parsed [chair]
  else SyntaxError (lit "Unexpected token").

Definition quoting_parse (s : js_string) : ParseOutcome :=
  match sample_parse s with
  | Parsed objs => Parsed objs
  | SyntaxError _ =>
      SyntaxError (lit "Unexpected token, " ++ [34%N] ++ s ++ [34%N] ++
                   lit " is not valid JSON")
  end.

Definition sample_stringify (objs : list VideoObject) : js_string :=
  match objs with [] => lit "[]" | _ => lit "[...]" end.

Definition sample_key : option js_string := Some (lit "key").

Definition overloaded_model (_ : Request) (_ : Z) : ApiOutcome :=
  ApiRejects (new_Error (lit "503 Service Unavailable: the model is overloaded")).

Definition responds (text : js_string) (_ : Request) (_ : Z) : ApiOutcome :=
  ApiResponds text.

(** A model whose call throws [null]; the text is the one V8 gives the
    [TypeError] of reading a property of [null]. *)
Definition null_message_msg : js_string :=
  lit "Cannot read properties of null (reading 'message')".

Definition throws_null (_ : Request) (_ : Z) : ApiOutcome :=
  ApiRejects (Nullish null_message_msg).

(** A video file that can be read. *)
Definition sample_video : File :=
  mkFile (lit "video/mp4") (Some (lit "data:video/mp4;base64,AAAA")).

(** Sample browsers, for closed examples: one that decodes every video
    (12.5 s long, 400 by 400) and every image, and one whose decoder
    fails. The sample encoder names the MIME type and the number of
    drawing operations, and whether a quality was asked for. *)
Definition sample_toDataURL (c : Canvas) (type : js_string)
    (quality : option float) : js_string :=
  lit "data:" ++ type ++
  match quality with Some _ => lit ";q=set" | None => lit ";q=default" end ++
  lit ";base64," ++ repeat 65%N (length (drawn c)).

Definition sample_browser : Browser :=
  mkBrowser true (fun _ => LoadedMetadata 12.5 400 400) (fun _ _ => Seeked)
    (fun _ => Some (400%N, 400%N)) sample_toDataURL.

Definition broken_browser : Browser :=
  mkBrowser true (fun _ => VideoError (Some (lit "DEMUXER_ERROR_COULD_NOT_OPEN")))
    (fun _ _ => Seeked) (fun _ => Some (400%N, 400%N)) sample_toDataURL.

(** The frame the extractor makes of the sample video at 2.5 s. *)
Definition sample_frame : js_string := lit "data:image/jpeg;q=set;base64,A".

Definition sofa : VideoObject :=
  mkVideoObject (lit "sofa") (lit "a grey sofa") 5.1
    (mkBox 0.1 0.3 0.8 0.5) (lit "$400 - $600").

(** The same chair as a later run reports it. *)
Definition chair_again : VideoObject :=
  mkVideoObject (lit "chair") (lit "a wooden chair") 7.25
    (mkBox 0.3 0.6 0.9 0.8) (lit "$45 - $65").

Definition idle : State :=
  mkState (Some sample_video) (lit "chair, sofa") [] None false None.

(** A model that is overloaded twice and then answers with the chair. *)
Definition flaky_model (_ : Request) (i : Z) : ApiOutcome :=
  if i <? 2 then ApiRejects (new_Error (lit "503 Service Unavailable"))
  else ApiResponds ([10%N] ++ chair_json).

(** A video file that the file reader fails to read. *)
Definition unreadable_video : File := mkFile (lit "video/mp4") None.

Definition sample_createObjectURL (file : File) : js_string :=
  lit "blob:" ++ file_type file.

End Samples.

(** ** Binary64 on the specification level

    [SpecFloat] specifies the primitive operations; the definitions below
    mirror [Math.max], [Math.min] and the clamping of a seek time on that
    level, and give valid numbers their value as an integer multiple of
    [2^-1074], with rounding to nearest (ties to even) as integer
    arithmetic. *)

Module Binary64.

(** The tests and folds of [Math.max] and [Math.min] on [spec_float]. *)
Definition SFis_nan (x : spec_float) : bool :=
  match x with S754_nan => true | _ => false end.

Definition SFis_pos_zero (x : spec_float) : bool :=
  match x with S754_zero false => true | _ => false end.

Definition SFis_neg_zero (x : spec_float) : bool :=
  match x with S754_zero true => true | _ => false end.

Definition SFis_finite (x : spec_float) : bool :=
  match x with S754_nan | S754_infinity _ => false | _ => true end.

Fixpoint SFmax_from (highest : spec_float) (args : list spec_float)
  : spec_float :=
  match args with
  | [] => highest
  | number :: rest =>
      if SFis_nan number then S754_nan
      else
        let highest :=
          if SFis_pos_zero number && SFis_neg_zero highest
          then S754_zero false else highest in
        let highest := if SFltb highest number then number else highest in
        SFmax_from highest rest
  end.

Fixpoint SFmin_from (lowest : spec_float) (args : list spec_float)
  : spec_float :=
  match args with
  | [] => lowest
  | number :: rest =>
      if SFis_nan number then S754_nan
      else
        let lowest :=
          if SFis_neg_zero number && SFis_pos_zero lowest
          then S754_zero true else lowest in
        let lowest := if SFltb number lowest then number else lowest in
        SFmin_from lowest rest
  end.

Definition SFmax (args : list spec_float) : spec_float :=
  SFmax_from (S754_infinity true) args.

Definition SFmin (args : list spec_float) : spec_float :=
  SFmin_from (S754_infinity false) args.

(** [Math.min(Math.max(0, t), d)] on the specification level. *)
Definition SFclamp (t d : spec_float) : spec_float :=
  SFmin [SFmax [S754_zero false; t]; d].

(** The numbers that are not negative: zeros, positive finite numbers
    and [+Infinity]. *)
Definition SFnonneg (x : spec_float) : bool :=
  match x with
  | S754_zero _ | S754_finite false _ _ | S754_infinity false => true
  | _ => false
  end.

(** The numbers that are not positive: zeros, negative finite numbers
    and [-Infinity]. *)
Definition SFnonpos (x : spec_float) : bool :=
  match x with
  | S754_zero _ | S754_finite true _ _ | S754_infinity true => true
  | _ => false
  end.

Definition SFsign (x : spec_float) : bool :=
  match x with
  | S754_zero s | S754_infinity s | S754_finite s _ _ => s
  | S754_nan => false
  end.

(** The value of a number that is not negative, in units of [2^-1074];
    [+Infinity] counts as [2^1024]. *)
Definition SFval (x : spec_float) : Z :=
  match x with
  | S754_finite _ m e => Zpos m * 2 ^ (e + 1074)
  | S754_infinity _ => 2 ^ 2098
  | _ => 0
  end.

Definition SFone : spec_float := S754_finite false 4503599627370496 (-52).

(** [m / 2^n] rounded to the nearest integer, ties to even. *)
Definition rne (m n : Z) : Z :=
  let q := m / 2 ^ n in
  match 2 * (m mod 2 ^ n) ?= 2 ^ n with
  | Lt => q
  | Gt => q + 1
  | Eq => if Z.even q then q else q + 1
  end.

Definition digits (m : positive) : Z := Zpos (digits2_pos m).

(** The exponent binary64 gives to the value [m * 2^e]. *)
Definition texp (m : positive) (e : Z) : Z := fexp prec emax (digits m + e).

(** What is made of the rounded mantissa [q] at exponent [t]. *)
Definition round_result (s : bool) (q t : Z) : spec_float :=
  if q =? 0 then S754_zero s
  else if q <? 2 ^ 53 then
    if t <=? 971 then S754_finite s (Z.to_pos q) t else S754_infinity s
  else
    if t + 1 <=? 971 then S754_finite s (Z.to_pos (2 ^ 52)) (t + 1)
    else S754_infinity s.

(** The value [m * 2^e] rounded to binary64, in units of [2^-1074]
    (before overflow is cut off). *)
Definition gval (m : positive) (e : Z) : Z :=
  rne (Zpos m) (texp m e - e) * 2 ^ (texp m e + 1074).

(** The value [m * 2^e] itself, in units of [2^-2148]. *)
Definition scaled (m : positive) (e : Z) : Z := Zpos m * 2 ^ (e + 2148).

End Binary64.


(* ===================================================================== *)
(** * Part VI. Properties of the detection client                         *)
(* ===================================================================== *)

Module ClientProperties.

Import GeminiService Samples Vocabulary.

Section Loop.

Variable API_KEY : option js_string.
Variable generateContent : Request -> Z -> ApiOutcome.
Variable JSON_parse : js_string -> ParseOutcome.
Variable JSON_stringify : list VideoObject -> js_string.

Local Abbreviation try_block := (attempt generateContent JSON_parse).
Local Abbreviation loop := (retry_loop generateContent JSON_parse).
Local Abbreviation identify :=
  (identifyObjectsInVideo API_KEY generateContent JSON_parse JSON_stringify).

(** With a key and a readable file the function is its retry loop. *)
Lemma identify_is_loop (videoFile : File) (targetObjects : list js_string)
    (c : N) (k : js_string) (base64 : option js_string) :
  API_KEY = Some (c :: k) ->
  fileToBase64 videoFile = Fulfilled base64 ->
  identify videoFile targetObjects =
  loop (mkRequest targetObjects (file_type videoFile) base64) 3%nat 0 1000 [].
Proof.
  intros Hkey Hfile. unfold identifyObjectsInVideo.
  change USE_MOCK_DATA with false. cbv iota. rewrite Hkey, Hfile. reflexivity.
Qed.

(** One iteration that fails transiently with budget left: warn, wait,
    double the delay, go on. *)
Lemma retry_loop_transient (req : Request) (fuel : nat) (i delay : Z)
    (trace : list Effect) :
  transient_failure (try_block req i) = true ->
  i < maxRetries - 1 ->
  loop req (S fuel) i delay trace =
  loop req fuel (i + 1) (delay * 2)
    (trace ++ [GenerateContent req; ConsoleWarn delay (i + 1); SetTimeout delay]).
Proof.
  intros Ht Hi. cbn [retry_loop].
  destruct (try_block req i) as [r|[inst m|typeError]]; try discriminate.
  cbn [transient_failure] in Ht. rewrite Ht. apply Z.ltb_lt in Hi. rewrite Hi.
  cbn [andb]. rewrite <- app_assoc. reflexivity.
Qed.

(** One iteration that fails for good: either the failure is not
    transient, or the budget is used up. *)
Lemma retry_loop_terminal (req : Request) (fuel : nat) (i delay : Z)
    (trace : list Effect) (inst : bool) (m : option js_string) :
  try_block req i = inr (mkError inst m) ->
  isServiceUnavailable (mkError inst m) = false \/ maxRetries - 1 <= i ->
  loop req (S fuel) i delay trace =
  (Rejected (new_Error failed_msg),
   trace ++ [GenerateContent req; ConsoleError]).
Proof.
  intros Ha Hc. cbn [retry_loop]. rewrite Ha.
  assert (isServiceUnavailable (mkError inst m) && (i <? maxRetries - 1) = false)
    as ->.
  { destruct Hc as [->|Hi]; [reflexivity|].
    apply Z.ltb_ge in Hi. rewrite Hi. apply andb_false_r. }
  rewrite <- app_assoc. reflexivity.
Qed.

(** One iteration in which [null] or [undefined] is caught: the [catch]
    block throws, and the loop is left with its [TypeError]. *)
Lemma retry_loop_nullish (req : Request) (fuel : nat) (i delay : Z)
    (trace : list Effect) (typeError : js_string) :
  try_block req i = inr (Nullish typeError) ->
  loop req (S fuel) i delay trace =
  (Rejected (new_Error typeError), trace ++ [GenerateContent req]).
Proof.
  intros Ha. cbn [retry_loop]. rewrite Ha. reflexivity.
Qed.

(** One iteration that succeeds. *)
Lemma retry_loop_success (req : Request) (fuel : nat) (i delay : Z)
    (trace : list Effect) (r : IdentifyResult) :
  try_block req i = inl r ->
  loop req (S fuel) i delay trace =
  (Fulfilled r, trace ++ [GenerateContent req]).
Proof.
  intros Ha. cbn [retry_loop]. rewrite Ha. reflexivity.
Qed.

(** The [try] block on a response: blank text is the empty result, other
    text is parsed after trimming. *)
Lemma attempt_blank (req : Request) (i : Z) (text : js_string) :
  generateContent req i = ApiResponds text ->
  trim text = [] ->
  try_block req i = inl (mkResult [] (lit "[]")).
Proof.
  intros Hg Ht. unfold attempt. rewrite Hg, Ht. reflexivity.
Qed.

Lemma attempt_parsed (req : Request) (i : Z) (text : js_string)
    (objs : list VideoObject) :
  generateContent req i = ApiResponds text ->
  trim text <> [] ->
  JSON_parse (trim text) = Parsed objs ->
  try_block req i = inl (mkResult objs (trim text)).
Proof.
  intros Hg Ht Hp. unfold attempt. rewrite Hg.
  rewrite bool_decide_eq_false_2 by exact Ht. rewrite Hp. reflexivity.
Qed.

Lemma attempt_malformed (req : Request) (i : Z) (text msg : js_string) :
  generateContent req i = ApiResponds text ->
  trim text <> [] ->
  JSON_parse (trim text) = SyntaxError msg ->
  try_block req i = inr (new_Error msg).
Proof.
  intros Hg Ht Hp. unfold attempt. rewrite Hg.
  rewrite bool_decide_eq_false_2 by exact Ht. rewrite Hp. reflexivity.
Qed.

(** Whatever a successful [try] block returns comes from a response. *)
Lemma attempt_inl_inv (req : Request) (i : Z) (r : IdentifyResult) :
  try_block req i = inl r ->
  exists text,
    generateContent req i = ApiResponds text /\
    (trim text = [] /\ r = mkResult [] (lit "[]") \/
     trim text <> [] /\ JSON_parse (trim text) = Parsed (objects r) /\
     rawJson r = trim text).
Proof.
  unfold attempt. destruct (generateContent req i) as [e|text]; [discriminate|].
  intros H. exists text. split; [reflexivity|].
  case_bool_decide as Hb.
  - left. split; [exact Hb|]. congruence.
  - right. split; [exact Hb|].
    destruct (JSON_parse (trim text)) as [msg|objs]; [discriminate|].
    injection H as <-. split; reflexivity.
Qed.

(** Whatever the loop fulfils with was returned by the [try] block of one
    of its iterations. *)
Lemma retry_loop_fulfilled (req : Request) (fuel : nat) :
  forall (i delay : Z) (trace trace' : list Effect) (r : IdentifyResult),
  loop req fuel i delay trace = (Fulfilled r, trace') ->
  exists j, i <= j < i + Z.of_nat fuel /\ try_block req j = inl r.
Proof.
  induction fuel as [|fuel IH]; intros i delay trace trace' r H.
  - discriminate.
  - cbn [retry_loop] in H.
    destruct (try_block req i) as [r0|[inst m|typeError]] eqn:Ha.
    + exists i. split; [lia|]. congruence.
    + destruct (isServiceUnavailable (mkError inst m) && (i <? maxRetries - 1)).
      * apply IH in H as (j & Hj & Hr). exists j. split; [lia|exact Hr].
      * discriminate.
    + discriminate.
Qed.

Lemma calls_app (t1 t2 : list Effect) :
  calls (t1 ++ t2) = (calls t1 + calls t2)%nat.
Proof. unfold calls. rewrite List.filter_app, length_app. reflexivity. Qed.

(** The iteration that fulfils is the first that does not fail as
    service-unavailable, and its request is the last one sent. *)
Lemma retry_loop_fulfilled_at (req : Request) (fuel : nat) :
  forall (i delay : Z) (trace trace' : list Effect) (r : IdentifyResult),
  loop req fuel i delay trace = (Fulfilled r, trace') ->
  exists j,
    i <= j < i + Z.of_nat fuel /\
    try_block req j = inl r /\
    (forall k, i <= k < j -> transient_failure (try_block req k) = true) /\
    calls trace' = (calls trace + Z.to_nat (j - i) + 1)%nat /\
    last trace' = Some (GenerateContent req).
Proof.
  induction fuel as [|fuel IH]; intros i delay trace trace' r H.
  - discriminate.
  - cbn [retry_loop] in H.
    destruct (try_block req i) as [r0|[inst m|typeError]] eqn:Ha.
    + injection H as <- <-. exists i. split; [lia|]. split; [exact Ha|].
      split; [intros k Hk; lia|]. split; [|apply last_snoc].
      rewrite calls_app, Z.sub_diag.
      change (calls [GenerateContent req]) with 1%nat. cbn. lia.
    + destruct (isServiceUnavailable (mkError inst m)) eqn:Hs; [|discriminate].
      destruct (i <? maxRetries - 1); [|discriminate]. cbn [andb] in H.
      apply IH in H as (j & Hj & Hr & Hbefore & Hcalls & Hlast).
      exists j. split; [lia|]. split; [exact Hr|]. split; [|split; [|exact Hlast]].
      * intros k Hk. destruct (Z.eq_dec k i) as [->|Hne].
        -- rewrite Ha. exact Hs.
        -- apply Hbefore. lia.
      * rewrite Hcalls, !calls_app. cbn [calls].
        change (calls [GenerateContent req]) with 1%nat.
        change (calls [ConsoleWarn delay (i + 1); SetTimeout delay]) with 0%nat.
        replace (Z.to_nat (j - i)) with (S (Z.to_nat (j - (i + 1)))) by lia. lia.
    + discriminate.
Qed.

(** C1. Three transient failures in a row: exactly three calls, a wait of
    1000 ms after the first and of 2000 ms after the second, and after the
    third call the terminal failure (no fourth call, no third wait). *)
Theorem three_transient_failures (videoFile : File)
    (targetObjects : list js_string) (c : N) (k : js_string)
    (base64 : option js_string) :
  API_KEY = Some (c :: k) ->
  fileToBase64 videoFile = Fulfilled base64 ->
  (forall i, 0 <= i < 3 ->
     transient_failure
       (try_block (mkRequest targetObjects (file_type videoFile) base64) i)
     = true) ->
  identify videoFile targetObjects =
    (Rejected (new_Error failed_msg),
     [GenerateContent (mkRequest targetObjects (file_type videoFile) base64);
      ConsoleWarn 1000 1; SetTimeout 1000;
      GenerateContent (mkRequest targetObjects (file_type videoFile) base64);
      ConsoleWarn 2000 2; SetTimeout 2000;
      GenerateContent (mkRequest targetObjects (file_type videoFile) base64);
      ConsoleError]) /\
  calls (snd (identify videoFile targetObjects)) = 3%nat /\
  waits (snd (identify videoFile targetObjects)) = [1000; 2000].
Proof.
  intros Hkey Hfile Hfail.
  set (req := mkRequest targetObjects (file_type videoFile) base64) in *.
  assert (identify videoFile targetObjects =
          (Rejected (new_Error failed_msg),
           [GenerateContent req; ConsoleWarn 1000 1; SetTimeout 1000;
            GenerateContent req; ConsoleWarn 2000 2; SetTimeout 2000;
            GenerateContent req; ConsoleError])) as Heq.
  { rewrite (identify_is_loop _ _ _ _ _ Hkey Hfile). fold req.
    rewrite retry_loop_transient by (try apply Hfail; unfold maxRetries; lia).
    rewrite retry_loop_transient by (try apply Hfail; unfold maxRetries; lia).
    pose proof (Hfail 2 ltac:(lia)) as H2.
    destruct (try_block req 2) as [r|[inst m|typeError]] eqn:Ha;
      try discriminate.
    change (0 + 1 + 1) with 2.
    rewrite (retry_loop_terminal _ _ _ _ _ inst m Ha)
      by (right; unfold maxRetries; lia).
    reflexivity. }
  rewrite Heq. split; [reflexivity|]. split; reflexivity.
Qed.

(** C5 as the code has it. A failure that the [catch] block does not
    classify as service-unavailable ends the function at once, at the first
    call or after retried transient failures: the failing call is the last
    one, no wait follows it and no result is returned. If the value thrown
    is not [null] or [undefined] (its message is missing, or a string free
    of the three markers), the error is logged and the generic failure is
    raised; if it is [null] or [undefined], the [catch] block itself throws
    and its [TypeError] is raised, nothing being logged. A response body
    that does not parse is classified by the message of the syntax error
    that [JSON.parse] raises, so it is a failure of this kind only if that
    message has none of the markers. *)
Theorem non_transient_failure_is_terminal (videoFile : File)
    (targetObjects : list js_string) (c : N) (k : js_string)
    (base64 : option js_string) (n : nat) (e : Error) :
  API_KEY = Some (c :: k) ->
  fileToBase64 videoFile = Fulfilled base64 ->
  (n < 3)%nat ->
  (forall j, 0 <= j < Z.of_nat n ->
     transient_failure
       (try_block (mkRequest targetObjects (file_type videoFile) base64) j)
     = true) ->
  try_block (mkRequest targetObjects (file_type videoFile) base64) (Z.of_nat n)
    = inr e ->
  isServiceUnavailable e = false ->
  (exists before,
     calls before = n /\
     List.length (waits before) = n /\
     identify videoFile targetObjects =
       match e with
       | mkError _ _ =>
           (Rejected (new_Error failed_msg),
            before ++
            [GenerateContent (mkRequest targetObjects (file_type videoFile) base64);
             ConsoleError])
       | Nullish typeError =>
           (Rejected (new_Error typeError),
            before ++
            [GenerateContent (mkRequest targetObjects (file_type videoFile) base64)])
       end) /\
  (forall text,
     generateContent (mkRequest targetObjects (file_type videoFile) base64)
       (Z.of_nat n) = ApiResponds text ->
     exists msg, JSON_parse (trim text) = SyntaxError msg /\ e = new_Error msg).
Proof.
  intros Hkey Hfile Hn Hbefore Ha He.
  set (req := mkRequest targetObjects (file_type videoFile) base64) in *.
  split.
  - rewrite (identify_is_loop _ _ _ _ _ Hkey Hfile). fold req.
    assert (forall fuel i delay trace,
              i = Z.of_nat n ->
              loop req (S fuel) i delay trace =
              match e with
              | mkError _ _ =>
                  (Rejected (new_Error failed_msg),
                   trace ++ [GenerateContent req; ConsoleError])
              | Nullish typeError =>
                  (Rejected (new_Error typeError), trace ++ [GenerateContent req])
              end) as Hlast.
    { intros fuel i delay trace ->. destruct e as [inst m|typeError].
      - apply (retry_loop_terminal _ _ _ _ _ inst m Ha). left. exact He.
      - apply (retry_loop_nullish _ _ _ _ _ typeError Ha). }
    destruct n as [|[|[|n]]]; [| | |lia].
    + exists []. split; [reflexivity|]. split; [reflexivity|].
      apply Hlast. reflexivity.
    + rewrite retry_loop_transient
        by (try (apply Hbefore; lia); unfold maxRetries; lia).
      eexists. split; [|split; [|apply Hlast; reflexivity]]; reflexivity.
    + rewrite retry_loop_transient
        by (try (apply Hbefore; lia); unfold maxRetries; lia).
      rewrite retry_loop_transient
        by (try (apply Hbefore; lia); unfold maxRetries; lia).
      eexists. split; [|split; [|apply Hlast; reflexivity]]; reflexivity.
  - intros text Hg. unfold attempt in Ha. rewrite Hg in Ha.
    destruct (bool_decide (trim text = [])); [discriminate|].
    destruct (JSON_parse (trim text)) as [msg|objs]; [|discriminate].
    injection Ha as <-. exists msg. split; reflexivity.
Qed.

(** C6. A response that is blank, or that is the text [[]] (which
    [JSON.parse] reads as the empty array), possibly surrounded by white
    space: the call succeeds with no objects and [rawJson] exactly [[]],
    after a single request. *)
Theorem empty_response_is_empty_result (videoFile : File)
    (targetObjects : list js_string) (c : N) (k : js_string)
    (base64 : option js_string) (text : js_string) :
  API_KEY = Some (c :: k) ->
  fileToBase64 videoFile = Fulfilled base64 ->
  generateContent (mkRequest targetObjects (file_type videoFile) base64) 0
    = ApiResponds text ->
  trim text = [] \/
  (trim text = lit "[]" /\ JSON_parse (lit "[]") = Parsed []) ->
  identify videoFile targetObjects =
    (Fulfilled (mkResult [] (lit "[]")),
     [GenerateContent (mkRequest targetObjects (file_type videoFile) base64)]).
Proof.
  intros Hkey Hfile Hg Ht.
  rewrite (identify_is_loop _ _ _ _ _ Hkey Hfile).
  rewrite (retry_loop_success _ _ _ _ _ (mkResult [] (lit "[]")));
    [reflexivity|].
  destruct Ht as [Ht|[Ht Hp]].
  - exact (attempt_blank _ _ _ Hg Ht).
  - rewrite <- Ht in Hp. rewrite (attempt_parsed _ _ _ [] Hg).
    + rewrite Ht. reflexivity.
    + rewrite Ht. discriminate.
    + exact Hp.
Qed.

(** C9, as the code has it. Whenever the function succeeds, the video was
    read, and there is one attempt [i] (among the three) of the request
    built from this video and these targets such that: every earlier
    attempt failed transiently; attempt [i] is the last call made, the
    [i+1]-th; its response is a text; [rawJson] is that text with leading
    and trailing white space removed, and the objects are what [JSON.parse]
    makes of the trimmed text; for a blank response [rawJson] is the text
    [[]] and there are no objects. *)
Theorem rawJson_is_trimmed_response (videoFile : File)
    (targetObjects : list js_string) (r : IdentifyResult)
    (trace : list Effect) :
  identify videoFile targetObjects = (Fulfilled r, trace) ->
  exists base64 i text,
    fileToBase64 videoFile = Fulfilled base64 /\
    0 <= i < maxRetries /\
    (forall j, 0 <= j < i ->
       transient_failure
         (try_block (mkRequest targetObjects (file_type videoFile) base64) j)
       = true) /\
    generateContent (mkRequest targetObjects (file_type videoFile) base64) i
      = ApiResponds text /\
    calls trace = Z.to_nat (i + 1) /\
    last trace =
      Some (GenerateContent (mkRequest targetObjects (file_type videoFile) base64)) /\
    rawJson r = (if bool_decide (trim text = []) then lit "[]" else trim text) /\
    (trim text = [] -> objects r = []) /\
    (trim text <> [] -> JSON_parse (trim text) = Parsed (objects r)).
Proof.
  unfold identifyObjectsInVideo. change USE_MOCK_DATA with false. cbv iota.
  destruct API_KEY as [[|c k]|]; try discriminate.
  destruct (fileToBase64 videoFile) as [base64|e|]; try discriminate.
  intros H.
  apply retry_loop_fulfilled_at in H as (j & Hj & Ha & Hbefore & Hcalls & Hlast).
  apply attempt_inl_inv in Ha as (text & Hg & Hcases).
  exists base64, j, text. split; [reflexivity|].
  split; [unfold maxRetries in *; lia|]. split; [exact Hbefore|].
  split; [exact Hg|].
  split; [rewrite Hcalls; change (calls []) with 0%nat; lia|]. split; [exact Hlast|].
  destruct Hcases as [[Ht ->]|(Ht & Hp & Hr)].
  - rewrite bool_decide_eq_true_2 by exact Ht. split; [reflexivity|].
    split; [reflexivity|]. intros Hne. contradiction.
  - rewrite bool_decide_eq_false_2 by exact Ht. split; [exact Hr|].
    split; [intros He; contradiction|]. intros _. exact Hp.
Qed.

End Loop.

(** C1, on the model that is always overloaded. *)
Lemma three_transient_failures_witness :
  identifyObjectsInVideo sample_key overloaded_model sample_parse
    sample_stringify sample_video [lit "chair"] =
    (Rejected (new_Error failed_msg),
     [GenerateContent (mkRequest [lit "chair"] (lit "video/mp4") (Some (lit "AAAA")));
      ConsoleWarn 1000 1; SetTimeout 1000;
      GenerateContent (mkRequest [lit "chair"] (lit "video/mp4") (Some (lit "AAAA")));
      ConsoleWarn 2000 2; SetTimeout 2000;
      GenerateContent (mkRequest [lit "chair"] (lit "video/mp4") (Some (lit "AAAA")));
      ConsoleError]) /\
  calls (snd (identifyObjectsInVideo sample_key overloaded_model sample_parse
                sample_stringify sample_video [lit "chair"])) = 3%nat /\
  waits (snd (identifyObjectsInVideo sample_key overloaded_model sample_parse
                sample_stringify sample_video [lit "chair"])) = [1000; 2000].
Proof.
  apply (three_transient_failures sample_key overloaded_model sample_parse
           sample_stringify sample_video [lit "chair"] 107%N (lit "ey")
           (Some (lit "AAAA")));
    [reflexivity | reflexivity | intros i Hi; reflexivity].
Defined.

(** C5, on a response body that is not JSON, at the first call. *)
Lemma non_transient_failure_is_terminal_witness :
  (exists before,
     calls before = 0%nat /\
     List.length (waits before) = 0%nat /\
     identifyObjectsInVideo sample_key (responds (lit "Sorry, I cannot."))
       sample_parse sample_stringify sample_video [lit "chair"] =
       (Rejected (new_Error failed_msg),
        before ++
        [GenerateContent (mkRequest [lit "chair"] (lit "video/mp4") (Some (lit "AAAA")));
         ConsoleError])) /\
  (forall text,
     responds (lit "Sorry, I cannot.")
       (mkRequest [lit "chair"] (lit "video/mp4") (Some (lit "AAAA"))) 0
       = ApiResponds text ->
     exists msg,
       sample_parse (trim text) = SyntaxError msg /\
       new_Error (lit "Unexpected token") = new_Error msg).
Proof.
  apply (non_transient_failure_is_terminal sample_key
           (responds (lit "Sorry, I cannot.")) sample_parse sample_stringify
           sample_video [lit "chair"] 107%N (lit "ey") (Some (lit "AAAA")) 0%nat
           (new_Error (lit "Unexpected token")));
    [reflexivity | reflexivity | lia | intros j Hj; lia
    | reflexivity | reflexivity].
Defined.

(** C5, on a call that throws [null]: the [catch] block's own [TypeError]
    is what the function raises, after one call and with nothing logged. *)
Example thrown_null_is_a_type_error :
  identifyObjectsInVideo sample_key throws_null sample_parse sample_stringify
    sample_video [lit "chair"] =
    (Rejected (new_Error null_message_msg),
     [GenerateContent (mkRequest [lit "chair"] (lit "video/mp4") (Some (lit "AAAA")))]).
Proof. reflexivity. Qed.

(** C5 as stated fails for a malformed body whose syntax error names a
    marker. With a parser whose messages quote the rejected text, as those
    of V8 do, the response body [UNAVAILABLE] is not JSON, and the message
    of its syntax error is classified as service-unavailable: the call is
    made three times, with both waits, before the failure is raised. *)
Example malformed_body_quoting_a_marker :
  quoting_parse (trim (lit "UNAVAILABLE")) =
    SyntaxError (lit "Unexpected token, " ++ [34%N] ++ lit "UNAVAILABLE" ++
                 [34%N] ++ lit " is not valid JSON") /\
  transient_failure
    (attempt (responds (lit "UNAVAILABLE")) quoting_parse
       (mkRequest [lit "chair"] (lit "video/mp4") (Some (lit "AAAA"))) 0)
    = true /\
  identifyObjectsInVideo sample_key (responds (lit "UNAVAILABLE"))
    quoting_parse sample_stringify sample_video [lit "chair"] =
    (Rejected (new_Error failed_msg),
     [GenerateContent (mkRequest [lit "chair"] (lit "video/mp4") (Some (lit "AAAA")));
      ConsoleWarn 1000 1; SetTimeout 1000;
      GenerateContent (mkRequest [lit "chair"] (lit "video/mp4") (Some (lit "AAAA")));
      ConsoleWarn 2000 2; SetTimeout 2000;
      GenerateContent (mkRequest [lit "chair"] (lit "video/mp4") (Some (lit "AAAA")));
      ConsoleError]).
Proof. repeat split. Qed.

(** C6, on the response [[]] followed by a line feed. *)
Lemma empty_response_is_empty_result_witness :
  identifyObjectsInVideo sample_key (responds (lit "[]" ++ [10%N]))
    sample_parse sample_stringify sample_video [lit "chair"] =
    (Fulfilled (mkResult [] (lit "[]")),
     [GenerateContent (mkRequest [lit "chair"] (lit "video/mp4") (Some (lit "AAAA")))]).
Proof.
  apply (empty_response_is_empty_result sample_key
           (responds (lit "[]" ++ [10%N])) sample_parse sample_stringify
           sample_video [lit "chair"] 107%N (lit "ey") (Some (lit "AAAA"))
           (lit "[]" ++ [10%N]));
    [reflexivity | reflexivity | reflexivity
    | right; split; reflexivity].
Defined.

(** C9 as stated fails: the response is the JSON text of one chair between
    two line feeds; the call succeeds with that chair, and [rawJson] is the
    text without the line feeds, which is not the text returned. *)
Lemma rawJson_is_not_the_exact_text :
  fst (identifyObjectsInVideo sample_key
         (responds ([10%N] ++ chair_json ++ [10%N]))
         sample_parse sample_stringify sample_video [lit "chair"])
    = Fulfilled (mkResult [chair] chair_json) /\
  rawJson (mkResult [chair] chair_json) <> [10%N] ++ chair_json ++ [10%N].
Proof.
  split; [reflexivity|]. discriminate.
Qed.

(** C9 as the code has it, on the same response. *)
Lemma rawJson_is_trimmed_response_witness :
  exists base64 i text,
    fileToBase64 sample_video = Fulfilled base64 /\
    0 <= i < maxRetries /\
    (forall j, 0 <= j < i ->
       transient_failure
         (attempt (responds ([10%N] ++ chair_json ++ [10%N])) sample_parse
            (mkRequest [lit "chair"] (file_type sample_video) base64) j)
       = true) /\
    responds ([10%N] ++ chair_json ++ [10%N])
      (mkRequest [lit "chair"] (file_type sample_video) base64) i
      = ApiResponds text /\
    calls [GenerateContent (mkRequest [lit "chair"] (lit "video/mp4") (Some (lit "AAAA")))]
      = Z.to_nat (i + 1) /\
    last [GenerateContent (mkRequest [lit "chair"] (lit "video/mp4") (Some (lit "AAAA")))]
      = Some (GenerateContent (mkRequest [lit "chair"] (file_type sample_video) base64)) /\
    rawJson (mkResult [chair] chair_json) =
      (if bool_decide (trim text = []) then lit "[]" else trim text) /\
    (trim text = [] -> objects (mkResult [chair] chair_json) = []) /\
    (trim text <> [] ->
     sample_parse (trim text) = Parsed (objects (mkResult [chair] chair_json))).
Proof.
  apply (rawJson_is_trimmed_response sample_key
           (responds ([10%N] ++ chair_json ++ [10%N])) sample_parse
           sample_stringify sample_video [lit "chair"]
           (mkResult [chair] chair_json)
           [GenerateContent (mkRequest [lit "chair"] (lit "video/mp4") (Some (lit "AAAA")))]).
  reflexivity.
Defined.

End ClientProperties.

(* ===================================================================== *)
(** * Part VII. Properties of the result list                            *)
(* ===================================================================== *)

Module ListProperties.

Import GeminiService App Samples Vocabulary.

Lemma shows_initial (objs : list VideoObject) :
  shows objs (fun _ => None) (initialObject <$> objs).
Proof. intros i. rewrite list_lookup_fmap. reflexivity. Qed.

Lemma shows_length objs img l : shows objs img l -> length l = length objs.
Proof.
  intros H. destruct (Nat.lt_trichotomy (length l) (length objs)) as [Hlt|[?|Hlt]];
    [exfalso | assumption | exfalso].
  - destruct (lookup_lt_is_Some_2 objs (length l) Hlt) as [o Ho].
    specialize (H (length l)). rewrite Ho in H. cbn in H.
    apply lookup_lt_Some in H. lia.
  - destruct (lookup_lt_is_Some_2 l (length objs) Hlt) as [o Ho].
    specialize (H (length objs)). rewrite Ho in H.
    rewrite (lookup_ge_None_2 objs) in H by lia. discriminate.
Qed.

(** The guarded update, slot by slot. *)
Lemma withFrame_lookup (index : nat) (obj : VideoObject) (f : js_string)
    (prev : list IdentifiedObject) (k : nat) :
  withFrame index obj f prev !! k =
  match prev !! k with
  | Some current =>
      if bool_decide (k = index) &&
         bool_decide (name current = GeminiService.name obj)
      then Some (mkIdentified (name current) (Some f) (price current)
                   (timestamp current))
      else Some current
  | None => None
  end.
Proof.
  unfold withFrame. destruct (decide (k = index)) as [->|Hne].
  - rewrite bool_decide_eq_true_2 by reflexivity.
    destruct (prev !! index) as [cur|] eqn:Hcur; [|exact Hcur].
    cbn [andb]. case_bool_decide.
    + apply list_lookup_insert_eq. eapply lookup_lt_Some, Hcur.
    + exact Hcur.
  - rewrite (bool_decide_eq_false_2 (k = index)) by exact Hne. cbn [andb].
    destruct (prev !! index) as [cur|].
    + case_bool_decide.
      * rewrite list_lookup_insert_ne by congruence.
        destruct (prev !! k); reflexivity.
      * destruct (prev !! k); reflexivity.
    + destruct (prev !! k); reflexivity.
Qed.

(** An update that finds no slot, or a slot of another name, is dropped. *)
Lemma withFrame_dropped (index : nat) (obj : VideoObject) (f : js_string)
    (prev : list IdentifiedObject) :
  (forall current, prev !! index = Some current ->
                   name current <> GeminiService.name obj) ->
  withFrame index obj f prev = prev.
Proof.
  intros H. unfold withFrame. destruct (prev !! index) as [cur|]; [|reflexivity].
  rewrite bool_decide_eq_false_2; [reflexivity|]. apply H. reflexivity.
Qed.

(** A pipeline of the batch that is shown: its own slot takes the image,
    every other slot stays. *)
Lemma withFrame_shows objs img l index obj f :
  shows objs img l ->
  objs !! index = Some obj ->
  shows objs (fun i => if bool_decide (i = index) then Some f else img i)
        (withFrame index obj f l).
Proof.
  intros Hl Hobj i. rewrite withFrame_lookup, Hl.
  destruct (objs !! i) as [o|] eqn:Ho; [|reflexivity]. cbn.
  case_bool_decide as Hi; [|reflexivity]. subst i.
  rewrite Ho in Hobj. injection Hobj as ->.
  rewrite bool_decide_eq_true_2 by reflexivity. reflexivity.
Qed.

Lemma settle_fields job o st :
  videoFile (settle job o st) = videoFile st /\
  query (settle job o st) = query st /\
  rawJsonOutput (settle job o st) = rawJsonOutput st /\
  isLoading (settle job o st) = isLoading st /\
  error (settle job o st) = error st.
Proof. destruct o; repeat split. Qed.

Lemma settle_all_fields done : forall st,
  videoFile (settle_all done st) = videoFile st /\
  query (settle_all done st) = query st /\
  rawJsonOutput (settle_all done st) = rawJsonOutput st /\
  isLoading (settle_all done st) = isLoading st /\
  error (settle_all done st) = error st.
Proof.
  induction done as [|[job o] done IH]; intros st; [repeat split|].
  change (settle_all ((job, o) :: done) st)
    with (settle_all done (settle job o st)).
  destruct (IH (settle job o st)) as (-> & -> & -> & -> & ->).
  apply settle_fields.
Qed.

Lemma afterPipelines_cons job order outcome st :
  afterPipelines (job :: order) outcome st =
  afterPipelines order outcome (settle job (outcome (fst job)) st).
Proof. reflexivity. Qed.

(** One pipeline of the batch settles. *)
Lemma settle_shows objs img st j obj (o : Promise js_string) :
  shows objs img (identifiedObjects st) ->
  objs !! j = Some obj ->
  shows objs
    (fun i => if bool_decide (i = j)
              then match settled_image o with
                   | Some f => Some f
                   | None => img i
                   end
              else img i)
    (identifiedObjects (settle (j, obj) o st)).
Proof.
  intros Hst Hj. destruct o as [f|e|]; cbn [settle settled_image fst snd].
  - destruct st; cbn in *. apply withFrame_shows; assumption.
  - intros i. rewrite Hst. destruct (bool_decide (i = j)); reflexivity.
  - intros i. rewrite Hst. destruct (bool_decide (i = j)); reflexivity.
Qed.

(** Any number of pipelines of one batch, settling in any order. *)
Lemma afterPipelines_shows objs (outcome : nat -> Promise js_string)
    (order : list Job) : forall img st,
  shows objs img (identifiedObjects st) ->
  (forall job, job ∈ order -> objs !! fst job = Some (snd job)) ->
  shows objs
    (fun i => if bool_decide (i ∈ fst <$> order)
              then match settled_image (outcome i) with
                   | Some f => Some f
                   | None => img i
                   end
              else img i)
    (identifiedObjects (afterPipelines order outcome st)).
Proof.
  induction order as [|[j obj] order IH]; intros img st Hst Hjobs.
  - intros i. rewrite Hst. reflexivity.
  - rewrite afterPipelines_cons. cbn [fst].
    assert (objs !! j = Some obj) as Hj by (apply (Hjobs (j, obj)), list_elem_of_here).
    assert (forall job, job ∈ order -> objs !! fst job = Some (snd job)) as Hrest
      by (intros job Hin; apply Hjobs, list_elem_of_further, Hin).
    pose proof (settle_shows _ _ _ _ _ (outcome j) Hst Hj) as Hst'.
    specialize (IH _ _ Hst' Hrest).
    intros i. rewrite (IH i). destruct (objs !! i) as [o|]; [|reflexivity].
    cbn [fmap option_fmap option_map]. f_equal. f_equal.
    rewrite fmap_cons. cbn [fst].
    destruct (decide (i = j)) as [->|Hne].
    + rewrite (bool_decide_eq_true_2 (j ∈ j :: (fst <$> order)))
        by apply list_elem_of_here.
      rewrite (bool_decide_eq_true_2 (j = j)) by reflexivity.
      destruct (settled_image (outcome j)); case_bool_decide; reflexivity.
    + rewrite (bool_decide_eq_false_2 (i = j)) by exact Hne.
      assert (bool_decide (i ∈ j :: (fst <$> order)) =
              bool_decide (i ∈ fst <$> order)) as ->; [|reflexivity].
      apply bool_decide_ext. rewrite elem_of_cons. tauto.
Qed.

(** A failing stage fails the pipeline; nothing of it reaches the list. *)
Lemma pipeline_rejected_by_extraction b file obj e :
  extractFrameFromVideo b file (GeminiService.timestamp obj) = Rejected e ->
  pipeline b file obj = Rejected e.
Proof. unfold pipeline. intros ->. reflexivity. Qed.

Lemma pipeline_rejected_by_drawing b file obj rawFrame e :
  extractFrameFromVideo b file (GeminiService.timestamp obj) = Fulfilled rawFrame ->
  drawBoundingBoxOnImage b rawFrame (boundingBox obj) = Rejected e ->
  pipeline b file obj = Rejected e.
Proof. unfold pipeline. intros -> ->. reflexivity. Qed.

(** What the handler leaves behind when detection succeeds. *)
Lemma resume_fulfilled objs raw st :
  identifiedObjects (fst (handleIdentifyClick_resume (Fulfilled (mkResult objs raw)) st))
    = initialObject <$> objs /\
  snd (handleIdentifyClick_resume (Fulfilled (mkResult objs raw)) st) = jobsOf objs /\
  rawJsonOutput (fst (handleIdentifyClick_resume (Fulfilled (mkResult objs raw)) st))
    = Some raw /\
  isLoading (fst (handleIdentifyClick_resume (Fulfilled (mkResult objs raw)) st))
    = false.
Proof. destruct objs; repeat split. Qed.

Lemma jobsOf_lookup objs job :
  job ∈ jobsOf objs -> objs !! fst job = Some (snd job).
Proof.
  unfold jobsOf. intros (i & obj & -> & Hi)%elem_of_lookup_imap_1. exact Hi.
Qed.

(** C8. A batch of pipelines settles in any order, each with any outcome.
    Every slot then shows its own object with its own pipeline's image if
    that pipeline was fulfilled, and no image if it failed or is still
    pending, whatever the other pipelines did; the list keeps its length,
    and the error message, the loading flag and the raw JSON are those the
    successful detection left. *)
Theorem frame_failure_is_isolated (objs : list VideoObject) (raw : js_string)
    (st : State) (order : list Job) (outcome : nat -> Promise js_string) :
  (forall job, job ∈ order ->
     job ∈ snd (handleIdentifyClick_resume (Fulfilled (mkResult objs raw)) st)) ->
  (forall i obj, objs !! i = Some obj ->
     identifiedObjects
       (afterPipelines order outcome
          (fst (handleIdentifyClick_resume (Fulfilled (mkResult objs raw)) st)))
       !! i =
     Some (card obj (if bool_decide (i ∈ fst <$> order)
                     then settled_image (outcome i) else None))) /\
  length (identifiedObjects
            (afterPipelines order outcome
               (fst (handleIdentifyClick_resume (Fulfilled (mkResult objs raw)) st))))
    = length objs /\
  error (afterPipelines order outcome
           (fst (handleIdentifyClick_resume (Fulfilled (mkResult objs raw)) st)))
    = error (fst (handleIdentifyClick_resume (Fulfilled (mkResult objs raw)) st)) /\
  isLoading (afterPipelines order outcome
               (fst (handleIdentifyClick_resume (Fulfilled (mkResult objs raw)) st)))
    = false /\
  rawJsonOutput (afterPipelines order outcome
                   (fst (handleIdentifyClick_resume (Fulfilled (mkResult objs raw)) st)))
    = Some raw.
Proof.
  intros Horder.
  destruct (resume_fulfilled objs raw st) as (Hl & Hj & Hr & Hload).
  set (started := fst (handleIdentifyClick_resume (Fulfilled (mkResult objs raw)) st)) in *.
  rewrite Hj in Horder.
  assert (shows objs
            (fun i => if bool_decide (i ∈ fst <$> order)
                      then match settled_image (outcome i) with
                           | Some f => Some f
                           | None => None
                           end
                      else None)
            (identifiedObjects (afterPipelines order outcome started))) as Hshow.
  { apply afterPipelines_shows.
    - rewrite Hl. apply shows_initial.
    - intros job Hin. apply jobsOf_lookup, Horder, Hin. }
  split; [|split].
  - intros i obj Hobj. rewrite (Hshow i), Hobj. cbn. do 2 f_equal.
    destruct (bool_decide (i ∈ fst <$> order)); [|reflexivity].
    destruct (settled_image (outcome i)); reflexivity.
  - apply (shows_length _ _ _ Hshow).
  - unfold afterPipelines.
    destruct (settle_all_fields
                ((fun job => (job, outcome (fst job))) <$> order) started)
      as (_ & _ & -> & -> & ->).
    rewrite Hr, Hload. repeat split.
Qed.

(** C8, on a batch of two: the chair's video fails to decode, the sofa's
    pipeline succeeds and settles first. *)
Lemma frame_failure_is_isolated_witness :
  (forall i obj, [chair; sofa] !! i = Some obj ->
     identifiedObjects
       (afterPipelines [(1%nat, sofa); (0%nat, chair)]
          (fun i => pipeline (if bool_decide (i = 0%nat) then broken_browser
                              else sample_browser) sample_video
                      (default chair ([chair; sofa] !! i)))
          (fst (handleIdentifyClick_resume
                  (Fulfilled (mkResult [chair; sofa] (lit "[...]"))) idle)))
       !! i =
     Some (card obj
             (if bool_decide (i ∈ fst <$> [(1%nat, sofa); (0%nat, chair)])
              then settled_image
                     (pipeline (if bool_decide (i = 0%nat) then broken_browser
                                else sample_browser) sample_video
                        (default chair ([chair; sofa] !! i)))
              else None))) /\
  length (identifiedObjects
            (afterPipelines [(1%nat, sofa); (0%nat, chair)]
               (fun i => pipeline (if bool_decide (i = 0%nat) then broken_browser
                                   else sample_browser) sample_video
                           (default chair ([chair; sofa] !! i)))
               (fst (handleIdentifyClick_resume
                       (Fulfilled (mkResult [chair; sofa] (lit "[...]"))) idle))))
    = length [chair; sofa] /\
  error (afterPipelines [(1%nat, sofa); (0%nat, chair)]
           (fun i => pipeline (if bool_decide (i = 0%nat) then broken_browser
                               else sample_browser) sample_video
                       (default chair ([chair; sofa] !! i)))
           (fst (handleIdentifyClick_resume
                   (Fulfilled (mkResult [chair; sofa] (lit "[...]"))) idle)))
    = error (fst (handleIdentifyClick_resume
                    (Fulfilled (mkResult [chair; sofa] (lit "[...]"))) idle)) /\
  isLoading (afterPipelines [(1%nat, sofa); (0%nat, chair)]
               (fun i => pipeline (if bool_decide (i = 0%nat) then broken_browser
                                   else sample_browser) sample_video
                           (default chair ([chair; sofa] !! i)))
               (fst (handleIdentifyClick_resume
                       (Fulfilled (mkResult [chair; sofa] (lit "[...]"))) idle)))
    = false /\
  rawJsonOutput (afterPipelines [(1%nat, sofa); (0%nat, chair)]
                   (fun i => pipeline (if bool_decide (i = 0%nat) then broken_browser
                                       else sample_browser) sample_video
                               (default chair ([chair; sofa] !! i)))
                   (fst (handleIdentifyClick_resume
                           (Fulfilled (mkResult [chair; sofa] (lit "[...]"))) idle)))
    = Some (lit "[...]").
Proof.
  apply (frame_failure_is_isolated [chair; sofa] (lit "[...]") idle
           [(1%nat, sofa); (0%nat, chair)]).
  intros job Hin. cbn.
  apply elem_of_cons in Hin as [->|Hin];
    [apply list_elem_of_further, list_elem_of_here|].
  apply elem_of_cons in Hin as [->|Hin]; [apply list_elem_of_here|].
  apply elem_of_nil in Hin. destruct Hin.
Defined.

(** The sample batch in full: the chair's card has no image, the sofa's
    has its annotated frame, and no error is shown. *)
Example isolated_failure_in_full :
  pipeline broken_browser sample_video chair =
    Rejected (new_Error (lit "Video error during frame extraction: DEMUXER_ERROR_COULD_NOT_OPEN")) /\
  imageUrl <$>
    identifiedObjects
      (afterPipelines [(1%nat, sofa); (0%nat, chair)]
         (fun i => pipeline (if bool_decide (i = 0%nat) then broken_browser
                             else sample_browser) sample_video
                     (default chair ([chair; sofa] !! i)))
         (fst (handleIdentifyClick_resume
                 (Fulfilled (mkResult [chair; sofa] (lit "[...]"))) idle)))
  = [None; Some (lit "data:image/jpeg;q=default;base64,AA")].
Proof. split; vm_compute; reflexivity. Qed.

(** ** Two detection runs *)

(** An update whose slot has the same name is applied: the image of that
    slot is replaced and nothing else changes. *)
Lemma withFrame_applied (index : nat) (obj : VideoObject) (f : js_string)
    (prev : list IdentifiedObject) (current : IdentifiedObject) :
  prev !! index = Some current ->
  name current = GeminiService.name obj ->
  withFrame index obj f prev =
  <[index := mkIdentified (name current) (Some f) (price current)
               (timestamp current)]> prev.
Proof.
  intros Hc Hn. unfold withFrame. rewrite Hc.
  rewrite bool_decide_eq_true_2 by exact Hn. reflexivity.
Qed.

Lemma set_identifiedObjects_id st :
  set_identifiedObjects (fun l => l) st = st.
Proof. destruct st; reflexivity. Qed.

(** A first-run pipeline settles while the list shows a second run whose
    object at that index has another name (or has no such index): the
    state does not change. *)
Lemma settle_stale objs1 objs2 img st job o :
  (forall i o1 o2, objs1 !! i = Some o1 -> objs2 !! i = Some o2 ->
                   GeminiService.name o1 <> GeminiService.name o2) ->
  shows objs2 img (identifiedObjects st) ->
  job ∈ jobsOf objs1 ->
  settle job o st = st.
Proof.
  intros Hnames Hst Hjob%jobsOf_lookup. destruct job as [i o1]. cbn in Hjob.
  destruct o as [f| |]; cbn [settle fst snd]; try reflexivity.
  destruct st as [vf q l raw ld err]. unfold set_identifiedObjects. cbn in *.
  f_equal. apply withFrame_dropped. intros cur Hcur.
  rewrite (Hst i) in Hcur. destruct (objs2 !! i) as [o2|] eqn:Ho2; [|discriminate].
  injection Hcur as <-. cbn. intros Heq. apply (Hnames i o1 o2 Hjob Ho2).
  symmetry. exact Heq.
Qed.

(** C3 as stated fails. Both runs find a chair at index 0. The first
    run's pipeline is still pending when the second run's list is shown;
    the second run's pipeline settles, then the first run's: the slot of
    the second run ends up with the first run's image. *)
Lemma stale_frame_overwrites_second_run :
  snd (handleIdentifyClick_resume (Fulfilled (mkResult [chair] (lit "[1]")))
         (fst (handleIdentifyClick_begin idle)))
    = [(0%nat, chair)] /\
  identifiedObjects
    (fst (handleIdentifyClick_resume (Fulfilled (mkResult [chair_again] (lit "[2]")))
            (fst (handleIdentifyClick_begin
                    (fst (handleIdentifyClick_resume
                            (Fulfilled (mkResult [chair] (lit "[1]")))
                            (fst (handleIdentifyClick_begin idle))))))))
    = [card chair_again None] /\
  identifiedObjects
    (settle_all
       [((0%nat, chair_again), Fulfilled (lit "frame of the second run"));
        ((0%nat, chair), Fulfilled (lit "frame of the first run"))]
       (fst (handleIdentifyClick_resume (Fulfilled (mkResult [chair_again] (lit "[2]")))
               (fst (handleIdentifyClick_begin
                       (fst (handleIdentifyClick_resume
                               (Fulfilled (mkResult [chair] (lit "[1]")))
                               (fst (handleIdentifyClick_begin idle)))))))))
    = [card chair_again (Some (lit "frame of the first run"))].
Proof. split; [|split]; vm_compute; reflexivity. Qed.

(** C3 as the code has it. A late image is matched against the current
    list by index and name only. (1) While the list shows a second run
    whose names differ from the first run's at every common index, every
    pipeline of the first run is dropped, in every interleaving with the
    second run's pipelines. (2) In general a late image is dropped when the
    list has no slot at its index or the slot has another name, and it is
    written into the slot (changing its image and nothing else) when the
    name is the same. *)
Theorem stale_updates_are_matched_by_index_and_name
    (objs1 objs2 : list VideoObject) (raw : js_string) (st : State)
    (done : list Completion) :
  (forall i o1 o2, objs1 !! i = Some o1 -> objs2 !! i = Some o2 ->
                   GeminiService.name o1 <> GeminiService.name o2) ->
  (forall c, c ∈ done -> fst (snd c) ∈ jobsOf (batch objs1 objs2 (fst c))) ->
  settle_all (snd <$> done)
    (fst (handleIdentifyClick_resume (Fulfilled (mkResult objs2 raw)) st)) =
  settle_all (snd <$> fresh_only done)
    (fst (handleIdentifyClick_resume (Fulfilled (mkResult objs2 raw)) st)) /\
  (forall index obj f prev,
     (forall current, prev !! index = Some current ->
                      name current <> GeminiService.name obj) ->
     withFrame index obj f prev = prev) /\
  (forall index obj f prev current,
     prev !! index = Some current ->
     name current = GeminiService.name obj ->
     withFrame index obj f prev =
     <[index := mkIdentified (name current) (Some f) (price current)
                  (timestamp current)]> prev).
Proof.
  intros Hnames Hdone.
  split; [|split; [apply withFrame_dropped | apply withFrame_applied]].
  destruct (resume_fulfilled objs2 raw st) as (Hl & _).
  set (started := fst (handleIdentifyClick_resume (Fulfilled (mkResult objs2 raw)) st)) in *.
  assert (shows objs2 (fun _ => None) (identifiedObjects started)) as Hst
    by (rewrite Hl; apply shows_initial).
  clearbody started. clear Hl. revert started Hst.
  generalize (fun _ : nat => @None js_string) as img.
  induction done as [|[r [job o]] done IH]; intros img st' Hst; [reflexivity|].
  assert (forall c, c ∈ done -> fst (snd c) ∈ jobsOf (batch objs1 objs2 (fst c)))
    as Hrest by (intros c Hc; apply Hdone, list_elem_of_further, Hc).
  pose proof (Hdone _ (list_elem_of_here _ _)) as Hjob. cbn [fst snd] in Hjob.
  rewrite fmap_cons. cbn [snd].
  change (settle_all ((job, o) :: (snd <$> done)) st')
    with (settle_all (snd <$> done) (settle job o st')).
  destruct r; cbn [batch] in Hjob.
  - change (fresh_only ((FirstRun, (job, o)) :: done)) with (fresh_only done).
    rewrite (settle_stale objs1 objs2 img st' job o Hnames Hst Hjob).
    apply (IH Hrest img st' Hst).
  - change (fresh_only ((SecondRun, (job, o)) :: done))
      with ((SecondRun, (job, o)) :: fresh_only done).
    rewrite fmap_cons. cbn [snd].
    change (settle_all ((job, o) :: (snd <$> fresh_only done)) st')
      with (settle_all (snd <$> fresh_only done) (settle job o st')).
    destruct job as [j obj]. apply jobsOf_lookup in Hjob. cbn in Hjob.
    eapply (IH Hrest), settle_shows; eassumption.
Qed.

(** C3 as the code has it, on a first run that found a chair and a second
    run that found a sofa. *)
Lemma stale_updates_are_matched_by_index_and_name_witness :
  settle_all
    (snd <$> [(SecondRun, ((0%nat, sofa), Fulfilled (lit "frame of the second run")));
              (FirstRun, ((0%nat, chair), Fulfilled (lit "frame of the first run")))])
    (fst (handleIdentifyClick_resume (Fulfilled (mkResult [sofa] (lit "[2]"))) idle)) =
  settle_all
    (snd <$> fresh_only
               [(SecondRun, ((0%nat, sofa), Fulfilled (lit "frame of the second run")));
                (FirstRun, ((0%nat, chair), Fulfilled (lit "frame of the first run")))])
    (fst (handleIdentifyClick_resume (Fulfilled (mkResult [sofa] (lit "[2]"))) idle)) /\
  (forall index obj f prev,
     (forall current, prev !! index = Some current ->
                      name current <> GeminiService.name obj) ->
     withFrame index obj f prev = prev) /\
  (forall index obj f prev current,
     prev !! index = Some current ->
     name current = GeminiService.name obj ->
     withFrame index obj f prev =
     <[index := mkIdentified (name current) (Some f) (price current)
                  (timestamp current)]> prev).
Proof.
  apply (stale_updates_are_matched_by_index_and_name [chair] [sofa] (lit "[2]") idle).
  - intros [|i] o1 o2 H1 H2; [|discriminate].
    injection H1 as <-. injection H2 as <-. discriminate.
  - intros c Hc.
    apply elem_of_cons in Hc as [->|Hc]; [apply list_elem_of_here|].
    apply elem_of_cons in Hc as [->|Hc]; [apply list_elem_of_here|].
    apply elem_of_nil in Hc. destruct Hc.
Defined.

End ListProperties.

(* ===================================================================== *)
(** * Part VIII. Binary64: facts about the specification level           *)
(* ===================================================================== *)

Module Binary64Facts.

Import Binary64.

Lemma SFcompare_refl_finite s m e :
  SFcompare (S754_finite s m e) (S754_finite s m e) = Some Eq.
Proof.
  cbn. destruct s; rewrite Z.compare_refl, Pos.compare_cont_refl; reflexivity.
Qed.

Lemma is_nan_spec x : is_nan x = SFis_nan (Prim2SF x).
Proof.
  unfold is_nan. rewrite FloatAxioms.eqb_spec. unfold SFeqb.
  destruct (Prim2SF x) as [s|s| |s m e]; try (destruct s; reflexivity);
    [reflexivity|].
  rewrite SFcompare_refl_finite. reflexivity.
Qed.

Lemma is_pos_zero_spec x : Math.is_pos_zero x = SFis_pos_zero (Prim2SF x).
Proof.
  unfold Math.is_pos_zero.
  destruct (PrimFloat.Leibniz.eqb x zero) eqn:H.
  - apply FloatAxioms.Leibniz.eqb_spec in H. subst x. reflexivity.
  - destruct (Prim2SF x) as [[|]| | |] eqn:Hx; try reflexivity.
    assert (x = zero) as Hz by (apply Prim2SF_inj; rewrite Hx; reflexivity).
    apply FloatAxioms.Leibniz.eqb_spec in Hz. congruence.
Qed.

Lemma is_neg_zero_spec x : Math.is_neg_zero x = SFis_neg_zero (Prim2SF x).
Proof.
  unfold Math.is_neg_zero.
  destruct (PrimFloat.Leibniz.eqb x neg_zero) eqn:H.
  - apply FloatAxioms.Leibniz.eqb_spec in H. subst x. reflexivity.
  - destruct (Prim2SF x) as [[|]| | |] eqn:Hx; try reflexivity.
    assert (x = neg_zero) as Hz by (apply Prim2SF_inj; rewrite Hx; reflexivity).
    apply FloatAxioms.Leibniz.eqb_spec in Hz. congruence.
Qed.

Lemma is_finite_spec x : is_finite x = SFis_finite (Prim2SF x).
Proof.
  unfold is_finite, is_infinity. rewrite is_nan_spec, FloatAxioms.eqb_spec, FloatAxioms.abs_spec.
  destruct (Prim2SF x) as [s|s| |s m e]; reflexivity.
Qed.

Lemma max_from_spec args : forall highest,
  Prim2SF (Math.max_from highest args) =
  SFmax_from (Prim2SF highest) (Prim2SF <$> args).
Proof.
  induction args as [|number rest IH]; intros highest; [reflexivity|].
  rewrite fmap_cons. cbn [Math.max_from SFmax_from].
  rewrite is_nan_spec, is_pos_zero_spec, is_neg_zero_spec.
  destruct (SFis_nan (Prim2SF number)); [reflexivity|].
  rewrite IH. f_equal.
  destruct (SFis_pos_zero (Prim2SF number) && SFis_neg_zero (Prim2SF highest));
    rewrite FloatAxioms.ltb_spec;
    try change (Prim2SF zero) with (S754_zero false);
    match goal with |- context [SFltb ?a ?b] => destruct (SFltb a b) end;
    reflexivity.
Qed.

Lemma min_from_spec args : forall lowest,
  Prim2SF (Math.min_from lowest args) =
  SFmin_from (Prim2SF lowest) (Prim2SF <$> args).
Proof.
  induction args as [|number rest IH]; intros lowest; [reflexivity|].
  rewrite fmap_cons. cbn [Math.min_from SFmin_from].
  rewrite is_nan_spec, is_pos_zero_spec, is_neg_zero_spec.
  destruct (SFis_nan (Prim2SF number)); [reflexivity|].
  rewrite IH. f_equal.
  destruct (SFis_neg_zero (Prim2SF number) && SFis_pos_zero (Prim2SF lowest));
    rewrite FloatAxioms.ltb_spec;
    try change (Prim2SF neg_zero) with (S754_zero true);
    match goal with |- context [SFltb ?a ?b] => destruct (SFltb a b) end;
    reflexivity.
Qed.

Lemma max_spec args : Prim2SF (Math.max args) = SFmax (Prim2SF <$> args).
Proof. apply max_from_spec. Qed.

Lemma min_spec args : Prim2SF (Math.min args) = SFmin (Prim2SF <$> args).
Proof. apply min_from_spec. Qed.

(** ** Clamping a seek time *)

(** Case analysis on how two finite numbers compare: exponents first,
    then mantissas, each comparison looked at once and in one direction. *)
Ltac sf_step :=
  first
  [ progress rewrite ?Z.compare_refl, ?Pos.compare_cont_refl
  | match goal with
    | H : Z.compare ?b ?a = _ |- context [Z.compare ?a ?b] =>
        rewrite (Z.compare_antisym b a), H
    | H : Pos.compare_cont Eq ?b ?a = _
      |- context [Pos.compare_cont Eq ?a ?b] =>
        change (Pos.compare_cont Eq a b) with (Pos.compare_cont (CompOpp Eq) a b);
        rewrite <- (Pos.compare_cont_antisym b a Eq), H
    | |- context [Z.compare ?a ?b] => destruct (Z.compare a b) eqn:?
    | |- context [Pos.compare_cont Eq ?a ?b] =>
        destruct (Pos.compare_cont Eq a b) eqn:?
    end ];
  cbn; try discriminate; try reflexivity; try (split; reflexivity).

Ltac sf_compare := repeat sf_step.

Ltac sf_cases t d :=
  unfold SFclamp, SFmin, SFmax, SFleb, SFltb, SFeqb;
  destruct t as [[|]|[|]| |[|] ?m ?e], d as [[|]|[|]| |[|] ?m ?e]; cbn;
  try discriminate; try reflexivity; try (split; reflexivity).

Lemma SFclamp_above t d :
  SFleb (S754_zero false) d = true -> SFltb d t = true -> SFclamp t d = d.
Proof. sf_cases t d. all: intros _; sf_compare. Qed.

Lemma SFclamp_below t d :
  SFleb (S754_zero false) d = true -> SFltb t (S754_zero false) = true ->
  SFeqb (SFclamp t d) (S754_zero false) = true.
Proof. sf_cases t d. Qed.

Lemma SFclamp_inside t d :
  SFleb (S754_zero false) t = true -> SFleb t d = true ->
  SFeqb (SFclamp t d) t = true.
Proof. sf_cases t d. all: intros _; sf_compare. Qed.

Lemma SFclamp_in_range t d :
  SFleb (S754_zero false) d = true -> SFis_nan t = false ->
  SFleb (S754_zero false) (SFclamp t d) = true /\ SFleb (SFclamp t d) d = true.
Proof. sf_cases t d. all: intros _ _; sf_compare. Qed.

Lemma SFclamp_finite t d :
  SFleb (S754_zero false) d = true ->
  SFltb t (S754_zero false) = true \/ SFltb d t = true \/ SFis_finite t = true ->
  SFis_finite (SFclamp t d) = true.
Proof.
  sf_cases t d.
  all: intros _ [H|[H|H]]; try discriminate; revert H; sf_compare.
Qed.

Lemma seekTarget_spec t d :
  Prim2SF (App.seekTarget t d) = SFclamp (Prim2SF t) (Prim2SF d).
Proof.
  unfold App.seekTarget, SFclamp. rewrite min_spec, !fmap_cons, max_spec.
  reflexivity.
Qed.

(** ** Rounding to nearest, ties to even, as integer arithmetic *)

Lemma pow2_pos n : 0 < 2 ^ n \/ (n < 0 /\ 2 ^ n = 0).
Proof.
  destruct (Z.lt_ge_cases n 0) as [H|H].
  - right. split; [exact H|]. apply Z.pow_neg_r, H.
  - left. apply Z.pow_pos_nonneg; lia.
Qed.

Lemma rne_bounds m n : 0 <= n -> m / 2 ^ n <= rne m n <= m / 2 ^ n + 1.
Proof.
  intros Hn. unfold rne.
  destruct (2 * (m mod 2 ^ n) ?= 2 ^ n); [destruct (Z.even _)| |]; lia.
Qed.

Lemma rne_exact k n : 0 <= n -> rne (k * 2 ^ n) n = k.
Proof.
  intros Hn. unfold rne. assert (0 < 2 ^ n) by (apply Z.pow_pos_nonneg; lia).
  rewrite Z.mod_mul, Z.div_mul by lia. change (2 * 0) with 0.
  destruct (Z.compare_spec 0 (2 ^ n)); lia.
Qed.

Lemma rne_mono m1 m2 n : 0 <= n -> m1 <= m2 -> rne m1 n <= rne m2 n.
Proof.
  intros Hn Hm. unfold rne.
  assert (0 < 2 ^ n) as HP by (apply Z.pow_pos_nonneg; lia).
  pose proof (Z.div_mod m1 (2 ^ n) ltac:(lia)) as E1.
  pose proof (Z.div_mod m2 (2 ^ n) ltac:(lia)) as E2.
  pose proof (Z.mod_pos_bound m1 (2 ^ n) HP) as B1.
  pose proof (Z.mod_pos_bound m2 (2 ^ n) HP) as B2.
  set (P := 2 ^ n) in *. set (q1 := m1 / P) in *. set (q2 := m2 / P) in *.
  set (r1 := m1 mod P) in *. set (r2 := m2 mod P) in *.
  assert (q1 <= q2) by (apply Z.div_le_mono; lia).
  destruct (Z.eq_dec q1 q2) as [Heq|Hne].
  - rewrite <- Heq in *. assert (r1 <= r2) by lia.
    destruct (Z.compare_spec (2 * r1) P), (Z.compare_spec (2 * r2) P);
      destruct (Z.even q1); lia.
  - assert (q1 + 1 <= q2) by lia.
    destruct (Z.compare_spec (2 * r1) P), (Z.compare_spec (2 * r2) P);
      destruct (Z.even q1), (Z.even q2); lia.
Qed.

Lemma rne_shift m n k : 0 <= n -> 0 <= k -> rne (m * 2 ^ k) (n + k) = rne m n.
Proof.
  intros Hn Hk. unfold rne.
  assert (0 < 2 ^ n) by (apply Z.pow_pos_nonneg; lia).
  assert (0 < 2 ^ k) by (apply Z.pow_pos_nonneg; lia).
  rewrite Z.pow_add_r by lia.
  rewrite Z.div_mul_cancel_r by lia.
  rewrite Z.mul_mod_distr_r by lia.
  replace (2 * (m mod 2 ^ n * 2 ^ k)) with (2 * (m mod 2 ^ n) * 2 ^ k) by ring.
  set (a := 2 * (m mod 2 ^ n)). set (P := 2 ^ n) in *. set (Q := 2 ^ k) in *.
  destruct (Z.compare_spec a P), (Z.compare_spec (a * Q) (P * Q));
    try reflexivity; nia.
Qed.

Lemma rne_small m n : 0 <= m -> 2 * m < 2 ^ n -> rne m n = 0.
Proof.
  intros Hm Hlt. unfold rne.
  rewrite Z.mod_small, Z.div_small by lia.
  destruct (Z.compare_spec (2 * m) (2 ^ n)); lia.
Qed.

(** ** Digits *)

Lemma digits_pos m : 1 <= digits m.
Proof. unfold digits. lia. Qed.

Lemma digits_bounds m : 2 ^ (digits m - 1) <= Zpos m < 2 ^ digits m.
Proof.
  unfold digits. induction m as [p IH|p IH|]; cbn [digits2_pos].
  - rewrite Pos2Z.inj_succ. change (Zpos p~1) with (2 * Zpos p + 1).
    replace (Z.succ (Zpos (digits2_pos p)) - 1)
      with (Z.succ (Zpos (digits2_pos p) - 1)) by lia.
    rewrite !Z.pow_succ_r by lia.
    revert IH. generalize (digits2_pos p). intros d IH. lia.
  - rewrite Pos2Z.inj_succ. change (Zpos p~0) with (2 * Zpos p).
    replace (Z.succ (Zpos (digits2_pos p)) - 1)
      with (Z.succ (Zpos (digits2_pos p) - 1)) by lia.
    rewrite !Z.pow_succ_r by lia.
    revert IH. generalize (digits2_pos p). intros d IH. lia.
  - cbn. lia.
Qed.

(** The number of digits is determined by the power of two below. *)
Lemma digits_unique m d : 2 ^ (d - 1) <= Zpos m < 2 ^ d -> digits m = d.
Proof.
  intros [Hlo Hhi]. pose proof (digits_bounds m) as [Hlo' Hhi'].
  pose proof (digits_pos m).
  assert (1 <= d).
  { destruct (Z.lt_ge_cases d 1); [|assumption].
    destruct (Z.eq_dec d 0) as [->|]; [cbn in Hhi; lia|].
    rewrite Z.pow_neg_r in Hhi by lia. lia. }
  destruct (Z.lt_trichotomy (digits m) d) as [Hlt|[Heq|Hgt]]; [|exact Heq|].
  - assert (2 ^ digits m <= 2 ^ (d - 1)) by (apply Z.pow_le_mono_r; lia). lia.
  - assert (2 ^ d <= 2 ^ (digits m - 1)) by (apply Z.pow_le_mono_r; lia). lia.
Qed.

Lemma digits_mono m1 m2 : (m1 <= m2)%positive -> digits m1 <= digits m2.
Proof.
  intros H. pose proof (digits_bounds m1) as [L1 H1].
  pose proof (digits_bounds m2) as [L2 H2].
  destruct (Z.le_gt_cases (digits m1) (digits m2)); [assumption|].
  assert (2 ^ digits m2 <= 2 ^ (digits m1 - 1)) by (apply Z.pow_le_mono_r; lia).
  lia.
Qed.

(** Digits of a product by a power of two, and of a product. *)
Lemma digits_mul_pow2 m k p :
  0 <= k -> Zpos p = Zpos m * 2 ^ k -> digits p = digits m + k.
Proof.
  intros Hk Hp. apply digits_unique. rewrite Hp.
  pose proof (digits_bounds m) as [L H]. pose proof (digits_pos m).
  replace (digits m + k - 1) with (digits m - 1 + k) by lia.
  rewrite !Z.pow_add_r by lia.
  assert (0 < 2 ^ k) by (apply Z.pow_pos_nonneg; lia). nia.
Qed.

Lemma digits_mul m1 m2 :
  digits m1 + digits m2 - 1 <= digits (m1 * m2) <= digits m1 + digits m2.
Proof.
  pose proof (digits_bounds m1) as [L1 H1]. pose proof (digits_bounds m2) as [L2 H2].
  pose proof (digits_bounds (m1 * m2)) as [L H].
  pose proof (digits_pos m1). pose proof (digits_pos m2).
  pose proof (digits_pos (m1 * m2)).
  rewrite Pos2Z.inj_mul in *.
  assert (2 ^ (digits m1 - 1) * 2 ^ (digits m2 - 1) <= Zpos m1 * Zpos m2) by nia.
  assert (Zpos m1 * Zpos m2 < 2 ^ digits m1 * 2 ^ digits m2) by nia.
  rewrite <- Z.pow_add_r in * by lia.
  split.
  - destruct (Z.le_gt_cases (digits m1 + digits m2 - 1) (digits (m1 * m2)));
      [assumption|].
    assert (2 ^ digits (m1 * m2) <= 2 ^ (digits m1 - 1 + (digits m2 - 1)))
      by (apply Z.pow_le_mono_r; lia). lia.
  - destruct (Z.le_gt_cases (digits (m1 * m2)) (digits m1 + digits m2));
      [assumption|].
    assert (2 ^ (digits m1 + digits m2) <= 2 ^ (digits (m1 * m2) - 1))
      by (apply Z.pow_le_mono_r; lia). lia.
Qed.

(** ** Shifting right with a round bit and a sticky bit *)

Lemma iter_pos_nat {A} (f : A -> A) p : forall x,
  SpecFloat.iter_pos f p x = Nat.iter (Pos.to_nat p) f x.
Proof.
  induction p as [p IH|p IH|]; intros x; cbn [SpecFloat.iter_pos].
  - rewrite !IH, Pos2Nat.inj_xI.
    replace (S (2 * Pos.to_nat p)) with (Pos.to_nat p + S (Pos.to_nat p))%nat
      by lia.
    rewrite Nat.iter_add, Nat.iter_succ_r. reflexivity.
  - rewrite !IH, Pos2Nat.inj_xO.
    replace (2 * Pos.to_nat p)%nat with (Pos.to_nat p + Pos.to_nat p)%nat
      by lia.
    rewrite Nat.iter_add. reflexivity.
  - reflexivity.
Qed.

Lemma shr_1_spec m r s :
  0 <= m ->
  shr_1 (Build_shr_record m r s) = Build_shr_record (m / 2) (Z.odd m) (r || s).
Proof.
  intros Hm. rewrite <- Z.div2_div.
  destruct m as [|[p|p|]|p]; try reflexivity. lia.
Qed.

(** [k] shifts of [m]: the quotient, the last bit shifted out, and whether
    any bit before it was set. *)
Lemma shr_iter m k :
  0 <= m ->
  Nat.iter (S k) shr_1 (Build_shr_record m false false) =
  Build_shr_record (m / 2 ^ Z.of_nat (S k))
    (Z.odd (m / 2 ^ Z.of_nat k))
    (negb (m mod 2 ^ Z.of_nat k =? 0)).
Proof.
  intros Hm. induction k as [|k IH].
  - cbn [Nat.iter]. rewrite shr_1_spec by exact Hm.
    change (2 ^ Z.of_nat 1) with 2. change (2 ^ Z.of_nat 0) with 1.
    rewrite Z.div_1_r, Z.mod_1_r. reflexivity.
  - change (Nat.iter (S (S k)) shr_1 ?x) with (shr_1 (Nat.iter (S k) shr_1 x)).
    rewrite IH.
    assert (0 < 2 ^ Z.of_nat k) by (apply Z.pow_pos_nonneg; lia).
    assert (0 < 2 ^ Z.of_nat (S k)) by (apply Z.pow_pos_nonneg; lia).
    rewrite shr_1_spec by (apply Z.div_pos; lia).
    rewrite Z.div_div by lia.
    replace (2 ^ Z.of_nat (S k) * 2) with (2 ^ Z.of_nat (S (S k)))
      by (rewrite (Nat2Z.inj_succ (S k)), Z.pow_succ_r; lia).
    f_equal.
    (* sticky: a bit below position [S k] is set *)
    assert (2 ^ Z.of_nat (S k) = 2 ^ Z.of_nat k * 2) as E
      by (rewrite Nat2Z.inj_succ, Z.pow_succ_r; lia).
    rewrite E, Z.rem_mul_r by lia.
    rewrite Zodd_mod.
    pose proof (Z.mod_pos_bound m (2 ^ Z.of_nat k) ltac:(lia)).
    pose proof (Z.mod_pos_bound (m / 2 ^ Z.of_nat k) 2 ltac:(lia)).
    set (lo := m mod 2 ^ Z.of_nat k) in *.
    set (bit := (m / 2 ^ Z.of_nat k) mod 2) in *.
    set (P := 2 ^ Z.of_nat k) in *.
    destruct (Z.eqb_spec bit 1), (Z.eqb_spec lo 0), (Z.eqb_spec (lo + P * bit) 0);
      cbn; try reflexivity; nia.
Qed.

(** Rounding what [shr] leaves is rounding to nearest even. *)
Lemma round_shr m p :
  0 <= m ->
  let mrs := SpecFloat.iter_pos shr_1 p (Build_shr_record m false false) in
  round_nearest_even (shr_m mrs) (loc_of_shr_record mrs) = rne m (Zpos p).
Proof.
  intros Hm. cbv zeta. rewrite iter_pos_nat.
  destruct (Pos2Nat.is_succ p) as [k Hk]. rewrite Hk, shr_iter by exact Hm.
  assert (Zpos p = Z.of_nat (S k)) as -> by lia.
  unfold rne. cbn [shr_m loc_of_shr_record].
  assert (0 < 2 ^ Z.of_nat k) by (apply Z.pow_pos_nonneg; lia).
  assert (2 ^ Z.of_nat (S k) = 2 ^ Z.of_nat k * 2) as E
    by (rewrite Nat2Z.inj_succ, Z.pow_succ_r; lia).
  rewrite E at 2 3. rewrite Z.rem_mul_r by lia. rewrite Zodd_mod.
  pose proof (Z.mod_pos_bound m (2 ^ Z.of_nat k) ltac:(lia)).
  pose proof (Z.mod_pos_bound (m / 2 ^ Z.of_nat k) 2 ltac:(lia)).
  set (lo := m mod 2 ^ Z.of_nat k) in *.
  set (bit := (m / 2 ^ Z.of_nat k) mod 2) in *.
  set (P := 2 ^ Z.of_nat k) in *.
  set (q := m / 2 ^ Z.of_nat (S k)).
  destruct (Z.eqb_spec bit 1), (Z.eqb_spec lo 0),
    (Z.compare_spec (2 * (lo + P * bit)) (P * 2));
    cbn; try reflexivity; nia.
Qed.

(** ** [binary_round_aux] on an exact input *)

Lemma texp_eq m e : texp m e = Z.max (digits m + e - 53) (-1074).
Proof. reflexivity. Qed.

Lemma shr_fexp_exact m e :
  e <= texp m e ->
  shr_fexp prec emax (Zpos m) e loc_Exact =
  (if texp m e - e =? 0 then Build_shr_record (Zpos m) false false
   else SpecFloat.iter_pos shr_1 (Z.to_pos (texp m e - e))
          (Build_shr_record (Zpos m) false false),
   texp m e).
Proof.
  intros H. unfold shr_fexp, shr. cbn [Zdigits2 shr_record_of_loc].
  fold (digits m). fold (texp m e).
  destruct (texp m e - e) as [|p|p] eqn:Hn; cbn [Z.eqb].
  - f_equal. lia.
  - f_equal. lia.
  - lia.
Qed.

Lemma rne_texp_bounds m e :
  e <= texp m e ->
  0 <= rne (Zpos m) (texp m e - e) <= 2 ^ 53.
Proof.
  intros H. set (n := texp m e - e). assert (0 <= n) by lia.
  pose proof (rne_bounds (Zpos m) n ltac:(lia)) as [Hlo Hhi].
  assert (0 < 2 ^ n) by (apply Z.pow_pos_nonneg; lia).
  assert (0 <= Zpos m / 2 ^ n) by (apply Z.div_pos; lia).
  split; [lia|].
  assert (Zpos m / 2 ^ n < 2 ^ 53); [|lia].
  apply Z.div_lt_upper_bound; [lia|].
  pose proof (digits_bounds m) as [_ Hm]. pose proof (digits_pos m).
  assert (2 ^ digits m <= 2 ^ n * 2 ^ 53); [|lia].
  rewrite <- Z.pow_add_r by lia. apply Z.pow_le_mono_r; [lia|].
  unfold n. rewrite texp_eq. lia.
Qed.

Lemma binary_round_aux_spec s m e :
  e <= texp m e ->
  binary_round_aux prec emax s (Zpos m) e loc_Exact =
  round_result s (rne (Zpos m) (texp m e - e)) (texp m e).
Proof.
  intros H. unfold binary_round_aux. rewrite shr_fexp_exact by exact H.
  pose proof (rne_texp_bounds m e H) as Hq.
  set (t := texp m e) in *. set (n := t - e) in *.
  assert (round_nearest_even
            (shr_m (if n =? 0 then Build_shr_record (Zpos m) false false
                    else SpecFloat.iter_pos shr_1 (Z.to_pos n)
                           (Build_shr_record (Zpos m) false false)))
            (loc_of_shr_record
               (if n =? 0 then Build_shr_record (Zpos m) false false
                else SpecFloat.iter_pos shr_1 (Z.to_pos n)
                       (Build_shr_record (Zpos m) false false)))
          = rne (Zpos m) n) as ->.
  { destruct (Z.eqb_spec n 0) as [->|Hn].
    - cbn [shr_m loc_of_shr_record round_nearest_even]. unfold rne.
      change (2 ^ 0) with 1. rewrite Z.div_1_r, Z.mod_1_r. reflexivity.
    - pose proof (round_shr (Zpos m) (Z.to_pos n) ltac:(lia)) as E.
      cbv zeta in E. rewrite E. f_equal. lia. }
  set (q := rne (Zpos m) n) in *.
  assert (-1074 <= t) by (unfold t; rewrite texp_eq; lia).
  unfold round_result.
  destruct (Z.eqb_spec q 0) as [->|Hq0].
  - (* rounded to zero *)
    unfold shr_fexp, shr. cbn [Zdigits2 shr_record_of_loc].
    assert (fexp prec emax (0 + t) - t <= 0) as Hle
      by (change (fexp prec emax (0 + t)) with (Z.max (0 + t - 53) (-1074)); lia).
    destruct (fexp prec emax (0 + t) - t); [reflexivity|lia|reflexivity].
  - destruct q as [|qp|qp]; [lia| |lia].
    destruct (Z.ltb_spec (Zpos qp) (2 ^ 53)) as [Hlt|Hge].
    + (* the mantissa fits *)
      assert (digits qp <= 53).
      { pose proof (digits_bounds qp) as [Hlo _].
        destruct (Z.le_gt_cases (digits qp) 53); [assumption|].
        assert (2 ^ 53 <= 2 ^ (digits qp - 1)) by (apply Z.pow_le_mono_r; lia).
        lia. }
      unfold shr_fexp, shr. cbn [Zdigits2 shr_record_of_loc]. fold (digits qp).
      assert (fexp prec emax (digits qp + t) - t <= 0) as Hle
        by (change (fexp prec emax (digits qp + t))
              with (Z.max (digits qp + t - 53) (-1074)); lia).
      destruct (fexp prec emax (digits qp + t) - t) eqn:Hn2; [|lia|];
        cbn [shr_m Z.to_pos]; reflexivity.
    + (* the mantissa is 2^53: one more shift *)
      assert (Zpos qp = 2 ^ 53) as Hq53 by lia.
      assert (digits qp = 54) as Hd
        by (apply digits_unique; rewrite Hq53; change (54 - 1) with 53;
            split; [lia|apply Z.pow_lt_mono_r; lia]).
      unfold shr_fexp, shr. cbn [Zdigits2 shr_record_of_loc]. fold (digits qp).
      assert (fexp prec emax (digits qp + t) - t = 1) as ->
        by (rewrite Hd; change (fexp prec emax (54 + t))
              with (Z.max (54 + t - 53) (-1074)); lia).
      cbn [SpecFloat.iter_pos]. rewrite shr_1_spec by lia. cbn [shr_m].
      rewrite Hq53. reflexivity.
Qed.

(** ** Values *)

Lemma valid_finite s m e :
  valid_binary (S754_finite s m e) = true <-> texp m e = e /\ e <= 971.
Proof.
  cbn [SpecFloat.valid_binary]. unfold bounded, canonical_mantissa.
  fold (digits m). fold (texp m e). change (emax - prec) with 971.
  rewrite andb_true_iff, Z.eqb_eq, Z.leb_le. reflexivity.
Qed.

Lemma valid_finite_bounds s m e :
  valid_binary (S754_finite s m e) = true ->
  -1074 <= e <= 971 /\ digits m <= 53 /\ (-1074 < e -> digits m = 53).
Proof.
  intros [Ht He]%valid_finite. rewrite texp_eq in Ht. lia.
Qed.

Lemma valid_finite_val s m e :
  valid_binary (S754_finite s m e) = true ->
  0 < SFval (S754_finite s m e) < 2 ^ 2098.
Proof.
  intros (He & Hd & _)%valid_finite_bounds. cbn [SFval].
  assert (0 < 2 ^ (e + 1074)) by (apply Z.pow_pos_nonneg; lia).
  split; [lia|].
  pose proof (digits_bounds m) as [_ Hm].
  assert (2 ^ digits m <= 2 ^ 53) by (apply Z.pow_le_mono_r; lia).
  assert (2 ^ (e + 1074) <= 2 ^ 2045) by (apply Z.pow_le_mono_r; lia).
  change (2 ^ 2098) with (2 ^ 53 * 2 ^ 2045). nia.
Qed.

(** On valid numbers that are not negative, [SFcompare] compares values. *)
Lemma SFcompare_val x y :
  valid_binary x = true -> valid_binary y = true ->
  SFnonneg x = true -> SFnonneg y = true ->
  SFcompare x y = Some (SFval x ?= SFval y).
Proof.
  intros Vx Vy Nx Ny.
  destruct x as [sx|[|]| |[|] mx ex]; try discriminate;
    destruct y as [sy|[|]| |[|] my ey]; try discriminate;
    try reflexivity.
  - pose proof (valid_finite_val _ _ _ Vy). cbn [SFcompare].
    symmetry. f_equal. apply Z.compare_lt_iff. cbn [SFval] in *. lia.
  - pose proof (valid_finite_val _ _ _ Vy). cbn [SFcompare].
    symmetry. f_equal. apply Z.compare_gt_iff. cbn [SFval] in *. lia.
  - pose proof (valid_finite_val _ _ _ Vx). cbn [SFcompare].
    symmetry. f_equal. apply Z.compare_gt_iff. cbn [SFval] in *. lia.
  - pose proof (valid_finite_val _ _ _ Vx). cbn [SFcompare].
    symmetry. f_equal. apply Z.compare_lt_iff. cbn [SFval] in *. lia.
  - pose proof (valid_finite_bounds _ _ _ Vx) as (Hex & Hdx & Hnx).
    pose proof (valid_finite_bounds _ _ _ Vy) as (Hey & Hdy & Hny).
    pose proof (digits_bounds mx) as [Lx Hx].
    pose proof (digits_bounds my) as [Ly Hy].
    cbn [SFcompare SFval]. f_equal. symmetry.
    destruct (Z.compare_spec ex ey) as [->|Hlt|Hgt].
    + assert (0 < 2 ^ (ey + 1074)) by (apply Z.pow_pos_nonneg; lia).
      change (Pos.compare_cont Eq mx my) with (Zpos mx ?= Zpos my).
      destruct (Z.compare_spec (Zpos mx) (Zpos my)) as [E|L|G].
      * rewrite E. apply Z.compare_refl.
      * apply Z.compare_lt_iff. nia.
      * apply Z.compare_gt_iff. nia.
    + apply Z.compare_lt_iff. rewrite (Hny ltac:(lia)) in Ly.
      assert (2 ^ digits mx <= 2 ^ 53) by (apply Z.pow_le_mono_r; lia).
      assert (2 * 2 ^ (ex + 1074) <= 2 ^ (ey + 1074)).
      { rewrite <- Z.pow_succ_r by lia. apply Z.pow_le_mono_r; lia. }
      assert (0 < 2 ^ (ex + 1074)) by (apply Z.pow_pos_nonneg; lia).
      change (2 ^ 53) with (2 * 2 ^ 52) in *. change (53 - 1) with 52 in Ly. nia.
    + apply Z.compare_gt_iff. rewrite (Hnx ltac:(lia)) in Lx.
      assert (2 ^ digits my <= 2 ^ 53) by (apply Z.pow_le_mono_r; lia).
      assert (2 * 2 ^ (ey + 1074) <= 2 ^ (ex + 1074)).
      { rewrite <- Z.pow_succ_r by lia. apply Z.pow_le_mono_r; lia. }
      assert (0 < 2 ^ (ey + 1074)) by (apply Z.pow_pos_nonneg; lia).
      change (2 ^ 53) with (2 * 2 ^ 52) in *. change (53 - 1) with 52 in Lx. nia.
Qed.

(** ** The result of rounding: valid, signed, and monotone in value *)

Lemma rne_texp_lower m e :
  e <= texp m e -> -1074 < texp m e ->
  2 ^ 52 <= rne (Zpos m) (texp m e - e).
Proof.
  intros H Ht. rewrite texp_eq in *.
  assert (Z.max (digits m + e - 53) (-1074) - e = digits m - 53) as -> by lia.
  pose proof (digits_bounds m) as [Hlo _].
  rewrite <- (rne_exact (2 ^ 52) (digits m - 53)) by lia.
  apply rne_mono; [lia|].
  rewrite <- Z.pow_add_r by lia.
  replace (52 + (digits m - 53)) with (digits m - 1) by lia. exact Hlo.
Qed.

Lemma round_result_valid s q t :
  0 <= q <= 2 ^ 53 -> -1074 <= t -> (-1074 < t -> 2 ^ 52 <= q) ->
  valid_binary (round_result s q t) = true.
Proof.
  intros Hq Ht Hlow. unfold round_result.
  destruct (Z.eqb_spec q 0); [reflexivity|].
  destruct (Z.ltb_spec q (2 ^ 53)).
  - destruct (Z.leb_spec t 971); [|reflexivity].
    apply valid_finite. split; [|assumption]. rewrite texp_eq.
    destruct q as [|qp|qp]; try lia. cbn [Z.to_pos].
    pose proof (digits_bounds qp) as [Lq Hq'].
    assert (digits qp <= 53).
    { destruct (Z.le_gt_cases (digits qp) 53); [assumption|].
      assert (2 ^ 53 <= 2 ^ (digits qp - 1)) by (apply Z.pow_le_mono_r; lia).
      lia. }
    destruct (Z.eq_dec t (-1074)) as [->|]; [lia|].
    assert (digits qp = 53); [|lia].
    apply digits_unique. change (53 - 1) with 52. lia.
  - destruct (Z.leb_spec (t + 1) 971); [|reflexivity].
    apply valid_finite. split; [|assumption]. rewrite texp_eq.
    change (digits (Z.to_pos (2 ^ 52))) with 53. lia.
Qed.

Lemma round_result_sign s q t :
  match round_result s q t with
  | S754_zero s' | S754_infinity s' | S754_finite s' _ _ => s' = s
  | S754_nan => False
  end.
Proof.
  unfold round_result.
  destruct (q =? 0); [reflexivity|].
  destruct (q <? 2 ^ 53); [destruct (t <=? 971)|destruct (t + 1 <=? 971)];
    reflexivity.
Qed.

Lemma round_result_val s q t :
  0 <= q <= 2 ^ 53 -> -1074 <= t -> (-1074 < t -> 2 ^ 52 <= q) ->
  SFval (round_result s q t) = Z.min (q * 2 ^ (t + 1074)) (2 ^ 2098).
Proof.
  intros Hq Ht Hlow. unfold round_result.
  assert (0 < 2 ^ (t + 1074)) by (apply Z.pow_pos_nonneg; lia).
  destruct (Z.eqb_spec q 0) as [->|Hq0]; [cbn [SFval]; lia|].
  destruct (Z.ltb_spec q (2 ^ 53)).
  - destruct (Z.leb_spec t 971); cbn [SFval].
    + rewrite Z2Pos.id by lia.
      assert (2 ^ (t + 1074) <= 2 ^ 2045) by (apply Z.pow_le_mono_r; lia).
      change (2 ^ 2098) with (2 ^ 53 * 2 ^ 2045). nia.
    + assert (2 ^ 2046 <= 2 ^ (t + 1074)) by (apply Z.pow_le_mono_r; lia).
      specialize (Hlow ltac:(lia)).
      change (2 ^ 2098) with (2 ^ 52 * 2 ^ 2046) in *. nia.
  - assert (q = 2 ^ 53) as -> by lia.
    destruct (Z.leb_spec (t + 1) 971); cbn [SFval].
    + rewrite Z2Pos.id by lia.
      replace (t + 1 + 1074) with (Z.succ (t + 1074)) by lia.
      rewrite Z.pow_succ_r by lia.
      assert (2 ^ (t + 1074) <= 2 ^ 2044) by (apply Z.pow_le_mono_r; lia).
      change (2 ^ 2098) with (2 ^ 53 * (2 * 2 ^ 2044)).
      change (2 ^ 53) with (2 * 2 ^ 52). nia.
    + assert (2 ^ 2045 <= 2 ^ (t + 1074)) by (apply Z.pow_le_mono_r; lia).
      change (2 ^ 2098) with (2 ^ 53 * 2 ^ 2045) in *. nia.
Qed.

Lemma scaled_digits m1 e1 m2 e2 :
  -2148 <= e1 -> -2148 <= e2 ->
  scaled m1 e1 <= scaled m2 e2 -> digits m1 + e1 <= digits m2 + e2.
Proof.
  unfold scaled. intros H1 H2 Hle.
  pose proof (digits_bounds m1) as [L1 _]. pose proof (digits_bounds m2) as [_ U2].
  pose proof (digits_pos m1). pose proof (digits_pos m2).
  assert (0 < 2 ^ (e1 + 2148)) by (apply Z.pow_pos_nonneg; lia).
  assert (0 < 2 ^ (e2 + 2148)) by (apply Z.pow_pos_nonneg; lia).
  assert (2 ^ (digits m1 - 1 + (e1 + 2148)) < 2 ^ (digits m2 + (e2 + 2148))).
  { rewrite (Z.pow_add_r 2 (digits m1 - 1)), (Z.pow_add_r 2 (digits m2)) by lia.
    apply Z.le_lt_trans with (Zpos m1 * 2 ^ (e1 + 2148));
      [apply Z.mul_le_mono_nonneg_r; lia|].
    apply Z.le_lt_trans with (Zpos m2 * 2 ^ (e2 + 2148)); [exact Hle|].
    apply Z.mul_lt_mono_pos_r; lia. }
  apply Z.pow_lt_mono_r_iff in H5; lia.
Qed.

Lemma gval_mono m1 e1 m2 e2 :
  -2148 <= e1 -> -2148 <= e2 ->
  e1 <= texp m1 e1 -> e2 <= texp m2 e2 ->
  scaled m1 e1 <= scaled m2 e2 ->
  gval m1 e1 <= gval m2 e2.
Proof.
  intros H1 H2 T1 T2 Hle.
  pose proof (scaled_digits _ _ _ _ H1 H2 Hle) as Hd.
  pose proof (rne_texp_bounds m1 e1 T1) as B1.
  pose proof (rne_texp_bounds m2 e2 T2) as B2.
  unfold gval.
  assert (forall m e, -2148 <= e -> e <= texp m e ->
            rne (Zpos m) (texp m e - e) = rne (scaled m e) (texp m e + 2148))
    as Hshift.
  { intros m e He Ht. unfold scaled.
    replace (texp m e + 2148) with (texp m e - e + (e + 2148)) by lia.
    rewrite rne_shift by lia. reflexivity. }
  rewrite (Hshift m1 e1 H1 T1) in *. rewrite (Hshift m2 e2 H2 T2) in *.
  assert (texp m1 e1 <= texp m2 e2) as Ht by (rewrite !texp_eq; lia).
  destruct (Z.eq_dec (texp m1 e1) (texp m2 e2)) as [Heq|Hne].
  - rewrite Heq in *.
    assert (0 <= 2 ^ (texp m2 e2 + 1074)) by (apply Z.pow_nonneg; lia).
    apply Z.mul_le_mono_nonneg_r; [assumption|].
    apply rne_mono; [rewrite texp_eq; lia|exact Hle].
  - (* a power of two lies between the two values *)
    assert (-1074 < texp m2 e2) as Hbig
      by (pose proof (texp_eq m1 e1); pose proof (texp_eq m2 e2); lia).
    pose proof (rne_texp_lower m2 e2 T2 Hbig) as Hlow.
    rewrite (Hshift m2 e2 H2 T2) in Hlow.
    set (t1 := texp m1 e1) in *. set (t2 := texp m2 e2) in *.
    set (q1 := rne (scaled m1 e1) (t1 + 2148)) in *.
    set (q2 := rne (scaled m2 e2) (t2 + 2148)) in *.
    assert (-1074 <= t1) by (unfold t1; rewrite texp_eq; lia).
    assert (q1 * 2 ^ (t1 + 1074) <= 2 ^ 53 * 2 ^ (t1 + 1074)).
    { apply Z.mul_le_mono_nonneg_r; [apply Z.pow_nonneg|]; lia. }
    assert (2 ^ 52 * 2 ^ (t2 + 1074) <= q2 * 2 ^ (t2 + 1074)).
    { apply Z.mul_le_mono_nonneg_r; [apply Z.pow_nonneg|]; lia. }
    assert (2 ^ 53 * 2 ^ (t1 + 1074) <= 2 ^ 52 * 2 ^ (t2 + 1074)); [|lia].
    rewrite <- !Z.pow_add_r by lia. apply Z.pow_le_mono_r; lia.
Qed.

(** A value that binary64 represents rounds to itself. *)
Lemma gval_exact m e k p :
  0 <= k -> texp m e = e -> Zpos p = Zpos m * 2 ^ k ->
  texp p (e - k) = e /\ gval p (e - k) = Zpos m * 2 ^ (e + 1074).
Proof.
  intros Hk Ht Hp.
  assert (texp p (e - k) = e) as Ht'.
  { rewrite texp_eq in *. rewrite (digits_mul_pow2 m k p Hk Hp).
    replace (digits m + k + (e - k)) with (digits m + e) by lia. exact Ht. }
  split; [exact Ht'|]. unfold gval. rewrite Ht', Hp.
  replace (e - (e - k)) with k by lia. rewrite rne_exact by lia. reflexivity.
Qed.

(** ** Products *)

Lemma SFval_bounds x : valid_binary x = true -> 0 <= SFval x <= 2 ^ 2098.
Proof.
  destruct x as [s|s| |s m e]; intros V; cbn [SFval]; try lia.
  pose proof (valid_finite_val s m e V) as H. cbn [SFval] in H. lia.
Qed.

(** The exponent of an exact product of valid numbers is not above the
    exponent binary64 gives to its value: rounding only shifts right. *)
Lemma mul_exponent s1 m1 e1 s2 m2 e2 :
  valid_binary (S754_finite s1 m1 e1) = true ->
  valid_binary (S754_finite s2 m2 e2) = true ->
  e1 + e2 <= texp (m1 * m2) (e1 + e2) /\ -2148 <= e1 + e2.
Proof.
  intros (He1 & Hd1 & Hn1)%valid_finite_bounds (He2 & Hd2 & Hn2)%valid_finite_bounds.
  pose proof (digits_mul m1 m2) as [Hlo _].
  pose proof (digits_pos m1). pose proof (digits_pos m2).
  rewrite texp_eq. lia.
Qed.

Lemma SFmul_finite s1 m1 e1 s2 m2 e2 :
  valid_binary (S754_finite s1 m1 e1) = true ->
  valid_binary (S754_finite s2 m2 e2) = true ->
  SF64mul (S754_finite s1 m1 e1) (S754_finite s2 m2 e2) =
  round_result (xorb s1 s2)
    (rne (Zpos (m1 * m2)) (texp (m1 * m2) (e1 + e2) - (e1 + e2)))
    (texp (m1 * m2) (e1 + e2)).
Proof.
  intros V1 V2. destruct (mul_exponent _ _ _ _ _ _ V1 V2) as [H _].
  unfold SF64mul, SFmul. apply binary_round_aux_spec, H.
Qed.

Lemma rounded_valid s m e :
  e <= texp m e ->
  valid_binary (round_result s (rne (Zpos m) (texp m e - e)) (texp m e)) = true.
Proof.
  intros H. apply round_result_valid.
  - apply rne_texp_bounds, H.
  - rewrite texp_eq. lia.
  - apply rne_texp_lower, H.
Qed.

Lemma rounded_val s m e :
  e <= texp m e ->
  SFval (round_result s (rne (Zpos m) (texp m e - e)) (texp m e)) =
  Z.min (gval m e) (2 ^ 2098).
Proof.
  intros H. unfold gval. apply round_result_val.
  - apply rne_texp_bounds, H.
  - rewrite texp_eq. lia.
  - apply rne_texp_lower, H.
Qed.

(** A product of valid numbers is valid, and it is NaN or has the sign
    of the exact product. *)
Lemma SFmul_valid x y :
  valid_binary x = true -> valid_binary y = true ->
  valid_binary (SF64mul x y) = true /\
  (SF64mul x y = S754_nan \/ SFsign (SF64mul x y) = xorb (SFsign x) (SFsign y)).
Proof.
  intros Vx Vy.
  destruct x as [sx|sx| |sx mx ex], y as [sy|sy| |sy my ey];
    try (split; [reflexivity|]; (left; reflexivity) || (right; reflexivity)).
  rewrite SFmul_finite by assumption.
  destruct (mul_exponent _ _ _ _ _ _ Vx Vy) as [H _].
  split; [apply rounded_valid, H|]. right.
  pose proof (round_result_sign (xorb sx sy)
                (rne (Zpos (mx * my)) (texp (mx * my) (ex + ey) - (ex + ey)))
                (texp (mx * my) (ex + ey))) as Hs.
  cbn [SFsign]. destruct (round_result _ _ _); cbn [SFsign]; tauto.
Qed.

(** Multiplying by a number that is not negative keeps the order of
    positive numbers. *)
Lemma SFmul_mono a b w :
  valid_binary a = true -> valid_binary b = true -> valid_binary w = true ->
  SFnonneg w = true -> SFnonneg a = true -> SFnonneg b = true ->
  SFval b <= SFval a ->
  SF64mul b w = S754_nan \/ SF64mul a w = S754_nan \/
  SFval (SF64mul b w) <= SFval (SF64mul a w).
Proof.
  intros Va Vb Vw Nw Na Nb Hle.
  destruct w as [sw|[|]| |[|] mw ew]; try discriminate.
  - (* times zero *)
    destruct a as [sa|[|]| |[|] ma ea]; try discriminate;
      destruct b as [sb|[|]| |[|] mb eb]; try discriminate;
      cbn; auto with zarith.
  - (* times infinity *)
    destruct a as [sa|[|]| |[|] ma ea]; try discriminate;
      destruct b as [sb|[|]| |[|] mb eb]; try discriminate;
      cbn; auto with zarith.
  - (* times a positive finite number *)
    destruct b as [sb|[|]| |[|] mb eb]; try discriminate.
    + right. right. change (SFval (SF64mul (S754_zero sb) _)) with 0.
      apply SFval_bounds, SFmul_valid; assumption.
    + pose proof (SFval_bounds a Va). change (SFval (S754_infinity false)) with (2 ^ 2098) in Hle.
      destruct a as [sa|[|]| |[|] ma ea]; try discriminate.
      * cbn [SFval] in Hle. lia.
      * right. right. cbn. lia.
      * pose proof (valid_finite_val _ _ _ Va). lia.
    + destruct a as [sa|[|]| |[|] ma ea]; try discriminate.
      * pose proof (valid_finite_val _ _ _ Vb). cbn [SFval] in *. lia.
      * right. right. change (SF64mul (S754_infinity false) _) with (S754_infinity false).
        apply SFval_bounds, SFmul_valid; assumption.
      * right. right. rewrite !SFmul_finite by assumption.
        destruct (mul_exponent _ _ _ _ _ _ Va Vw) as [Ha Ha'].
        destruct (mul_exponent _ _ _ _ _ _ Vb Vw) as [Hb Hb'].
        rewrite !rounded_val by assumption.
        apply Z.min_le_compat_r, gval_mono; try assumption.
        unfold scaled. cbn [SFval] in Hle.
        pose proof (valid_finite_bounds _ _ _ Va) as (? & _).
        pose proof (valid_finite_bounds _ _ _ Vb) as (? & _).
        pose proof (valid_finite_bounds _ _ _ Vw) as (? & _).
        replace (eb + ew + 2148) with ((eb + 1074) + (ew + 1074)) by lia.
        replace (ea + ew + 2148) with ((ea + 1074) + (ew + 1074)) by lia.
        rewrite (Z.pow_add_r 2 (eb + 1074) (ew + 1074)),
          (Z.pow_add_r 2 (ea + 1074) (ew + 1074)) by lia.
        rewrite !Pos2Z.inj_mul.
        assert (0 < 2 ^ (ew + 1074)) by (apply Z.pow_pos_nonneg; lia).
        replace (Zpos mb * Zpos mw * (2 ^ (eb + 1074) * 2 ^ (ew + 1074)))
          with (Zpos mb * 2 ^ (eb + 1074) * (Zpos mw * 2 ^ (ew + 1074))) by ring.
        replace (Zpos ma * Zpos mw * (2 ^ (ea + 1074) * 2 ^ (ew + 1074)))
          with (Zpos ma * 2 ^ (ea + 1074) * (Zpos mw * 2 ^ (ew + 1074))) by ring.
        apply Z.mul_le_mono_nonneg_r; [lia|exact Hle].
Qed.

(** ** Integers as numbers *)

Lemma pos_iter_xO m d : Zpos (Pos.iter xO m d) = Zpos m * 2 ^ Zpos d.
Proof.
  induction d as [|d IH] using Pos.peano_ind.
  - change (Zpos (Pos.iter xO m 1)) with (Zpos m~0). change (2 ^ 1) with 2. lia.
  - rewrite Pos.iter_succ, Pos2Z.inj_succ, Z.pow_succ_r by lia.
    change (Zpos (Pos.iter xO m d)~0) with (2 * Zpos (Pos.iter xO m d)).
    rewrite IH. ring.
Qed.

Lemma shl_align_spec m e e' :
  e' <= e ->
  snd (shl_align m e e') = e' /\
  Zpos (fst (shl_align m e e')) = Zpos m * 2 ^ (e - e').
Proof.
  intros H. unfold shl_align. destruct (e' - e) as [|p|p] eqn:Hd; cbn [fst snd].
  - assert (e = e') as -> by lia. rewrite Z.sub_diag. split; [reflexivity|lia].
  - lia.
  - rewrite pos_iter_xO. split; [reflexivity|]. do 2 f_equal. lia.
Qed.

Lemma binary_round_spec s m e :
  exists m' e',
    e' <= texp m' e' /\
    binary_round prec emax s m e =
    round_result s (rne (Zpos m') (texp m' e' - e')) (texp m' e').
Proof.
  unfold binary_round. fold (digits m). fold (texp m e).
  destruct (Z.le_gt_cases (texp m e) e) as [Hle|Hgt].
  - destruct (shl_align_spec m e (texp m e) Hle) as [He' Hm'].
    destruct (shl_align m e (texp m e)) as [m' e'] eqn:Hs. cbn [fst snd] in *.
    subst e'. exists m', (texp m e).
    assert (texp m' (texp m e) = texp m e) as Ht.
    { rewrite (texp_eq m' _).
      rewrite (digits_mul_pow2 m (e - texp m e) m') by (lia || assumption).
      replace (digits m + (e - texp m e) + texp m e) with (digits m + e) by lia.
      reflexivity. }
    split; [lia|]. apply binary_round_aux_spec. lia.
  - unfold shl_align. destruct (texp m e - e) eqn:Hd; try lia.
    exists m, e. split; [lia|]. apply binary_round_aux_spec. lia.
Qed.

(** The number of an unsigned integer is valid and not negative. *)
Lemma binary_normalize_N n :
  valid_binary (binary_normalize prec emax (Z.of_N n) 0 false) = true /\
  SFnonneg (binary_normalize prec emax (Z.of_N n) 0 false) = true.
Proof.
  destruct n as [|p]; [split; reflexivity|].
  cbn [Z.of_N binary_normalize].
  destruct (binary_round_spec false p 0) as (m' & e' & H & ->).
  split; [apply rounded_valid, H|].
  pose proof (round_result_sign false
                (rne (Zpos m') (texp m' e' - e')) (texp m' e')) as Hs.
  destruct (round_result _ _ _); subst; try reflexivity. destruct Hs.
Qed.

(** ** Differences *)

(** Rounding with the negative sign gives nothing positive. *)
Lemma binary_round_negative m e :
  SFltb (S754_zero false) (binary_round prec emax true m e) = false.
Proof.
  destruct (binary_round_spec true m e) as (m' & e' & _ & ->).
  pose proof (round_result_sign true
                (rne (Zpos m') (texp m' e' - e')) (texp m' e')) as Hs.
  destruct (round_result _ _ _); subst; reflexivity.
Qed.

(** [x2 - x1] is not positive when [x1] is not negative and [x2] is either
    not positive or not above [x1]. *)
Lemma SFsub_not_positive x2 x1 :
  valid_binary x2 = true -> valid_binary x1 = true ->
  SFnonneg x1 = true ->
  SFnonpos x2 = true \/ (SFnonneg x2 = true /\ SFval x2 <= SFval x1) ->
  SFltb (S754_zero false) (SF64sub x2 x1) = false.
Proof.
  intros V2 V1 N1 H.
  destruct x1 as [s1|[|]| |[|] m1 e1]; try discriminate.
  - (* minus zero *)
    destruct x2 as [[|] | [|] | |[|] m2 e2]; try reflexivity;
      destruct s1; try reflexivity.
    all: destruct H as [H|[_ H]]; try discriminate.
    all: try (pose proof (valid_finite_val _ _ _ V2); cbn [SFval] in *; lia).
    all: cbn [SFval] in H; assert (0 < 2 ^ 2098) by reflexivity; lia.
  - (* minus infinity *)
    destruct x2 as [[|] | [|] | |[|] m2 e2]; reflexivity.
  - (* minus a positive finite number *)
    destruct x2 as [[|] | [|] | |s2 m2 e2]; try reflexivity.
    + destruct H as [H|[_ H]]; [discriminate|].
      pose proof (valid_finite_val _ _ _ V1). cbn [SFval] in *. lia.
    + unfold SF64sub, SFsub.
      destruct (shl_align_spec m2 e2 (Z.min e2 e1) ltac:(lia)) as [_ E2].
      destruct (shl_align_spec m1 e1 (Z.min e2 e1) ltac:(lia)) as [_ E1].
      rewrite E1, E2. cbn [cond_Zopp].
      pose proof (valid_finite_bounds _ _ _ V1) as (B1 & _).
      pose proof (valid_finite_bounds _ _ _ V2) as (B2 & _).
      assert (0 < 2 ^ (e2 - Z.min e2 e1)) by (apply Z.pow_pos_nonneg; lia).
      assert (0 < 2 ^ (e1 - Z.min e2 e1)) by (apply Z.pow_pos_nonneg; lia).
      assert (cond_Zopp s2 (Zpos m2 * 2 ^ (e2 - Z.min e2 e1))
              - Zpos m1 * 2 ^ (e1 - Z.min e2 e1) <= 0) as Hd.
      { destruct s2; cbn [cond_Zopp]; [lia|].
        destruct H as [H|[_ H]]; [discriminate|]. cbn [SFval] in H.
        assert (0 < 2 ^ (Z.min e2 e1 + 1074)) by (apply Z.pow_pos_nonneg; lia).
        assert (Zpos m2 * 2 ^ (e2 - Z.min e2 e1) * 2 ^ (Z.min e2 e1 + 1074)
                <= Zpos m1 * 2 ^ (e1 - Z.min e2 e1) * 2 ^ (Z.min e2 e1 + 1074)).
        { rewrite <- !Z.mul_assoc, <- !Z.pow_add_r by lia.
          replace (e2 - Z.min e2 e1 + (Z.min e2 e1 + 1074)) with (e2 + 1074) by lia.
          replace (e1 - Z.min e2 e1 + (Z.min e2 e1 + 1074)) with (e1 + 1074) by lia.
          exact H. }
        nia. }
      destruct (cond_Zopp s2 (Zpos m2 * 2 ^ (e2 - Z.min e2 e1))
                - Zpos m1 * 2 ^ (e1 - Z.min e2 e1)) as [|d|d];
        [reflexivity|lia|].
      apply binary_round_negative.
Qed.

(** ** The clamped corners *)

Lemma SFleb_val x y :
  valid_binary x = true -> valid_binary y = true ->
  SFnonneg x = true -> SFnonneg y = true ->
  SFleb x y = true -> SFval x <= SFval y.
Proof.
  intros Vx Vy Nx Ny. unfold SFleb. rewrite SFcompare_val by assumption.
  destruct (Z.compare_spec (SFval x) (SFval y)); (lia || discriminate).
Qed.

Lemma SFltb_val x y :
  valid_binary x = true -> valid_binary y = true ->
  SFnonneg x = true -> SFnonneg y = true ->
  SFltb x y = (SFval x <? SFval y).
Proof.
  intros Vx Vy Nx Ny. unfold SFltb. rewrite SFcompare_val by assumption.
  destruct (Z.compare_spec (SFval x) (SFval y)), (Z.ltb_spec (SFval x) (SFval y));
    (reflexivity || lia).
Qed.

(** [Math.max(0, p)] is NaN or not negative; it has the value of [p] when
    [p] is not negative. *)
Lemma SFmax0_facts p :
  valid_binary p = true ->
  SFmax [S754_zero false; p] = S754_nan \/
  (valid_binary (SFmax [S754_zero false; p]) = true /\
   SFnonneg (SFmax [S754_zero false; p]) = true /\
   (SFnonneg p = true -> SFval (SFmax [S754_zero false; p]) = SFval p)).
Proof.
  intros V. destruct p as [[|]|[|]| |[|] m e];
    (left; reflexivity) || (right; cbn; repeat split; try assumption; discriminate)
    || idtac.
  all: right; cbn; repeat split; assumption || reflexivity || discriminate.
Qed.

(** [Math.min(w, q)] for a [w] that is not negative: NaN, or not positive,
    or not negative and at most [w] and at most [q] if [q] is not
    negative; and not positive whenever [q] is not positive. *)
Lemma SFmin_facts w q :
  valid_binary w = true -> SFnonneg w = true -> valid_binary q = true ->
  SFmin [w; q] = S754_nan \/
  (valid_binary (SFmin [w; q]) = true /\
   (SFnonpos q = true -> SFnonpos (SFmin [w; q]) = true) /\
   (SFnonpos (SFmin [w; q]) = true \/
    (SFnonneg (SFmin [w; q]) = true /\
     SFval (SFmin [w; q]) <= SFval w /\
     (SFnonneg q = true -> SFval (SFmin [w; q]) <= SFval q)))).
Proof.
  intros Vw Nw Vq.
  assert (SFmin [w; q] =
          if SFis_nan q then S754_nan
          else if SFis_neg_zero q && SFis_pos_zero w then S754_zero true
          else if SFltb q w then q else w) as ->.
  { destruct w as [[|]|[|]| |[|] mw ew]; try discriminate;
      destruct q as [[|]|[|]| |[|] mq eq]; reflexivity. }
  destruct (SFis_nan q) eqn:Hnan; [left; reflexivity|]. right.
  destruct (SFis_neg_zero q && SFis_pos_zero w) eqn:Hz.
  { repeat split; try reflexivity. left. reflexivity. }
  destruct (SFnonpos q) eqn:Hq.
  - (* [q] is not positive *)
    assert (SFnonpos (if SFltb q w then q else w) = true) as Hres.
    { destruct w as [[|]|[|]| |[|] mw ew]; try discriminate;
        destruct q as [[|]|[|]| |[|] mq eq]; try discriminate; reflexivity. }
    split; [destruct (SFltb q w); assumption|]. split; [intros _; exact Hres|].
    left. exact Hres.
  - (* [q] is positive *)
    assert (SFnonneg q = true) as Nq
      by (destruct q as [[|]|[|]| |[|] mq eq]; try discriminate; reflexivity).
    rewrite SFltb_val by assumption.
    destruct (Z.ltb_spec (SFval q) (SFval w)).
    + split; [assumption|]. split; [discriminate|]. right.
      repeat split; try assumption; lia.
    + split; [assumption|]. split; [discriminate|]. right.
      repeat split; try assumption; lia.
Qed.

Lemma SFmul_nonneg a w :
  valid_binary a = true -> valid_binary w = true ->
  SFnonneg a = true -> SFnonneg w = true ->
  SF64mul a w = S754_nan \/ SFnonneg (SF64mul a w) = true.
Proof.
  intros Va Vw Na Nw. destruct (SFmul_valid a w Va Vw) as [_ [H|H]]; [left; exact H|].
  destruct (SF64mul a w) as [s|s| |s m e] eqn:E;
    [right; reflexivity | right | left; reflexivity | right].
  all: cbn [SFsign] in H; subst s.
  all: destruct a as [[|]|[|]| |[|] ? ?]; try discriminate;
      destruct w as [[|]|[|]| |[|] ? ?]; try discriminate; try reflexivity;
      cbn in E; discriminate.
Qed.

Lemma SFmul_nonpos b w :
  valid_binary b = true -> valid_binary w = true ->
  SFnonpos b = true -> SFnonneg w = true ->
  SF64mul b w = S754_nan \/ SFnonpos (SF64mul b w) = true.
Proof.
  intros Vb Vw Nb Nw. destruct (SFmul_valid b w Vb Vw) as [_ [H|H]]; [left; exact H|].
  destruct (SF64mul b w) as [s|s| |s m e] eqn:E;
    [right; reflexivity | right | left; reflexivity | right].
  all: cbn [SFsign] in H; subst s.
  all: destruct b as [[|]|[|]| |[|] ? ?]; try discriminate;
      destruct w as [[|]|[|]| |[|] ? ?]; try discriminate; try reflexivity;
      cbn in E; discriminate.
Qed.

(** Multiplying by one changes no value. *)
Lemma SFmul_one w :
  valid_binary w = true -> SFnonneg w = true ->
  SFval (SF64mul SFone w) = SFval w.
Proof.
  intros Vw Nw. destruct w as [s|[|]| |[|] m e]; try discriminate; try reflexivity.
  unfold SFone. rewrite SFmul_finite by (reflexivity || assumption).
  destruct (mul_exponent false 4503599627370496 (-52) false m e
              ltac:(reflexivity) Vw) as [H _].
  rewrite rounded_val by exact H.
  apply valid_finite in Vw as Hv. destruct Hv as [Ht He].
  destruct (gval_exact m e 52 (4503599627370496 * m) ltac:(lia) Ht) as [_ Hg].
  { rewrite Pos2Z.inj_mul. change (Zpos 4503599627370496) with (2 ^ 52). ring. }
  replace (-52 + e) with (e - 52) by lia. rewrite Hg.
  pose proof (valid_finite_val _ _ _ Vw) as Hb. cbn [SFval] in *. lia.
Qed.

Lemma SFmin_nan w : SFnonneg w = true -> SFmin [w; S754_nan] = S754_nan.
Proof. destruct w as [[|]|[|]| |[|] ? ?]; try discriminate; reflexivity. Qed.

(** The width (or height) of the clamped box is not positive, or is NaN,
    when the box is inverted or degenerate, when it ends at or before 0,
    and when it starts at or after 1. *)
Lemma SFwidth_not_positive a b w :
  valid_binary a = true -> valid_binary b = true -> valid_binary w = true ->
  SFnonneg w = true ->
  SFleb b a = true \/ SFleb b (S754_zero false) = true \/ SFleb SFone a = true ->
  SFltb (S754_zero false)
    (SF64sub (SFmin [w; SF64mul b w]) (SFmax [S754_zero false; SF64mul a w]))
  = false.
Proof.
  intros Va Vb Vw Nw H.
  destruct (SFmul_valid a w Va Vw) as [Vp _].
  destruct (SFmul_valid b w Vb Vw) as [Vq _].
  destruct (SFmax0_facts _ Vp) as [->|(V1 & N1 & E1)].
  { destruct (SFmin [w; SF64mul b w]); reflexivity. }
  destruct (SFmin_facts w _ Vw Nw Vq) as [->|(V2 & Hneg & Hcases)];
    [reflexivity|].
  apply SFsub_not_positive; try assumption.
  destruct Hcases as [Hnp|(N2 & Hw & Hq)]; [left; exact Hnp|].
  assert (SFnonpos b = true ->
          SFnonpos (SFmin [w; SF64mul b w]) = true) as Hbneg.
  { intros Nb. destruct (SFmul_nonpos b w Vb Vw Nb Nw) as [E|E].
    - rewrite E, SFmin_nan in N2 by assumption. discriminate.
    - apply Hneg, E. }
  destruct H as [H|[H|H]].
  - (* [b <= a] *)
    destruct (SFnonpos b) eqn:Nb; [left; apply Hbneg; reflexivity|].
    assert (SFnonneg b = true /\ SFnonneg a = true) as [Nb' Na].
    { destruct b as [[|]|[|]| |[|] ? ?]; try discriminate;
        destruct a as [[|]|[|]| |[|] ? ?]; try discriminate; split; reflexivity. }
    pose proof (SFleb_val b a Vb Va Nb' Na H) as Hba.
    destruct (SFmul_mono a b w Va Vb Vw Nw Na Nb' Hba) as [E|[E|Hmono]].
    + rewrite E, SFmin_nan in N2 by assumption. discriminate.
    + rewrite E in N1. discriminate.
    + destruct (SFmul_nonneg a w Va Vw Na Nw) as [E|Np];
        [rewrite E in N1; discriminate|].
      destruct (SFmul_nonneg b w Vb Vw Nb' Nw) as [E|Nq];
        [rewrite E, SFmin_nan in N2 by assumption; discriminate|].
      right. split; [exact N2|]. rewrite (E1 Np). specialize (Hq Nq). lia.
  - (* [b <= 0] *)
    left. apply Hbneg.
    destruct b as [[|]|[|]| |[|] ? ?]; try discriminate; reflexivity.
  - (* [1 <= a] *)
    assert (SFnonneg a = true) as Na
      by (destruct a as [[|]|[|]| |[|] ? ?]; try discriminate; reflexivity).
    pose proof (SFleb_val SFone a ltac:(reflexivity) Va ltac:(reflexivity) Na H)
      as H1a.
    destruct (SFmul_mono a SFone w Va ltac:(reflexivity) Vw Nw Na
                ltac:(reflexivity) H1a) as [E|[E|Hmono]].
    + destruct w as [[|]|[|]| |[|] ? ?]; try discriminate.
      unfold SFone in E. rewrite SFmul_finite in E by (reflexivity || assumption).
      pose proof (round_result_sign (xorb false false)
        (rne (Zpos (4503599627370496 * m))
           (texp (4503599627370496 * m) (-52 + e) - (-52 + e)))
        (texp (4503599627370496 * m) (-52 + e))) as Hs.
      rewrite E in Hs. destruct Hs.
    + rewrite E in N1. discriminate.
    + rewrite SFmul_one in Hmono by assumption.
      destruct (SFmul_nonneg a w Va Vw Na Nw) as [E|Np];
        [rewrite E in N1; discriminate|].
      right. split; [exact N2|]. rewrite (E1 Np). lia.
Qed.

(** ** Back to the primitive numbers *)

Lemma of_N_spec n :
  Prim2SF (Math.of_N n) = binary_normalize prec emax (Z.of_N n) 0 false.
Proof. apply Prim2SF_SF2Prim, binary_normalize_N. Qed.

Lemma rect_width_spec W H box :
  Prim2SF (App.rect_width (App.clampBox W H box)) =
  SF64sub
    (SFmin [Prim2SF W; SF64mul (Prim2SF (GeminiService.x_max box)) (Prim2SF W)])
    (SFmax [S754_zero false;
            SF64mul (Prim2SF (GeminiService.x_min box)) (Prim2SF W)]).
Proof.
  unfold App.rect_width, App.clampBox. cbn [App.x1 App.x2].
  rewrite FloatAxioms.sub_spec, min_spec, max_spec, !fmap_cons,
    !FloatAxioms.mul_spec.
  reflexivity.
Qed.

Lemma rect_height_spec W H box :
  Prim2SF (App.rect_height (App.clampBox W H box)) =
  SF64sub
    (SFmin [Prim2SF H; SF64mul (Prim2SF (GeminiService.y_max box)) (Prim2SF H)])
    (SFmax [S754_zero false;
            SF64mul (Prim2SF (GeminiService.y_min box)) (Prim2SF H)]).
Proof.
  unfold App.rect_height, App.clampBox. cbn [App.y1 App.y2].
  rewrite FloatAxioms.sub_spec, min_spec, max_spec, !fmap_cons,
    !FloatAxioms.mul_spec.
  reflexivity.
Qed.

(** The clamped width of a box on an image [w] pixels wide is not
    positive when the box is inverted or degenerate in x, ends at or before
    0, or starts at or after 1; likewise for the height. *)
Lemma width_not_positive (w : N) (H : float) box :
  (GeminiService.x_max box <=? GeminiService.x_min box)%float = true \/
  (GeminiService.x_max box <=? 0)%float = true \/
  (1 <=? GeminiService.x_min box)%float = true ->
  (0 <? App.rect_width (App.clampBox (Math.of_N w) H box))%float = false.
Proof.
  rewrite !FloatAxioms.leb_spec, FloatAxioms.ltb_spec, rect_width_spec, of_N_spec.
  intros Hc. destruct (binary_normalize_N w) as [Vw Nw].
  apply SFwidth_not_positive; try apply Prim2SF_valid; assumption.
Qed.

Lemma height_not_positive (W : float) (h : N) box :
  (GeminiService.y_max box <=? GeminiService.y_min box)%float = true \/
  (GeminiService.y_max box <=? 0)%float = true \/
  (1 <=? GeminiService.y_min box)%float = true ->
  (0 <? App.rect_height (App.clampBox W (Math.of_N h) box))%float = false.
Proof.
  rewrite !FloatAxioms.leb_spec, FloatAxioms.ltb_spec, rect_height_spec, of_N_spec.
  intros Hc. destruct (binary_normalize_N h) as [Vh Nh].
  apply SFwidth_not_positive; try apply Prim2SF_valid; assumption.
Qed.

End Binary64Facts.

(* ===================================================================== *)
(** * Part IX. Properties of the frame extractor and the annotator        *)
(* ===================================================================== *)

Module FrameProperties.

Import GeminiService App Samples Vocabulary Binary64 Binary64Facts.

(** C4. For a video that decodes (a 2D context is there, the metadata
    load with a duration that is not negative, every seek into the clip
    succeeds): a timestamp below 0 seeks to 0, one beyond the duration
    seeks to the duration, one inside the clip seeks to itself, and every
    timestamp that is a number seeks into [0, duration]; for every
    timestamp outside the clip (and every finite one) the extraction is
    fulfilled, with the frame at that target. *)
Theorem extractFrame_clamps (b : Browser) (file : File) (t d : float)
    (w h : N) :
  getContext2d b = true ->
  loadVideo b file = LoadedMetadata d w h ->
  (0 <=? d)%float = true ->
  (forall target, (0 <=? target)%float = true -> (target <=? d)%float = true ->
                  seek b file target = Seeked) ->
  ((t <? 0)%float = true -> (seekTarget t d =? 0)%float = true) /\
  ((d <? t)%float = true -> seekTarget t d = d) /\
  ((0 <=? t)%float = true -> (t <=? d)%float = true ->
   (seekTarget t d =? t)%float = true) /\
  (is_nan t = false ->
   (0 <=? seekTarget t d)%float = true /\ (seekTarget t d <=? d)%float = true) /\
  ((t <? 0)%float = true \/ (d <? t)%float = true \/ is_finite t = true ->
   extractFrameFromVideo b file t =
   Fulfilled
     (toDataURL b
        (mkCanvas w h [DrawImage (VideoFrame file (seekTarget t d))])
        (lit "image/jpeg") (Some 0.9%float))).
Proof.
  intros Hctx Hload Hd Hseek.
  rewrite FloatAxioms.leb_spec in Hd.
  change (Prim2SF 0) with (S754_zero false) in Hd.
  assert (is_nan t = false ->
          (0 <=? seekTarget t d)%float = true /\
          (seekTarget t d <=? d)%float = true) as Hrange.
  { rewrite is_nan_spec, !FloatAxioms.leb_spec, seekTarget_spec.
    apply SFclamp_in_range, Hd. }
  split; [|split; [|split; [|split; [exact Hrange|]]]].
  - rewrite FloatAxioms.ltb_spec, FloatAxioms.eqb_spec, seekTarget_spec.
    apply SFclamp_below, Hd.
  - rewrite FloatAxioms.ltb_spec. intros Hlt. apply Prim2SF_inj.
    rewrite seekTarget_spec. apply SFclamp_above; assumption.
  - rewrite !FloatAxioms.leb_spec, FloatAxioms.eqb_spec, seekTarget_spec.
    apply SFclamp_inside.
  - intros Hout. unfold extractFrameFromVideo. rewrite Hctx, Hload. cbn [negb].
    rewrite !FloatAxioms.ltb_spec, is_finite_spec in Hout.
    assert (is_finite (seekTarget t d) = true) as ->.
    { rewrite is_finite_spec, seekTarget_spec.
      apply SFclamp_finite; assumption. }
    rewrite Hseek; [reflexivity| |]; apply Hrange; rewrite is_nan_spec;
      destruct (Prim2SF t) as [s|s| |s m e]; try reflexivity;
      destruct Hout as [Ho|[Ho|Ho]]; try discriminate Ho;
      destruct (Prim2SF d) as [s'|s'| |s' m' e']; discriminate Ho.
Qed.

(** C4, on the sample video (12.5 s) and the timestamp 100 s. *)
Lemma extractFrame_clamps_witness :
  ((100 <? 0)%float = true -> (seekTarget 100 12.5 =? 0)%float = true) /\
  ((12.5 <? 100)%float = true -> seekTarget 100 12.5 = 12.5%float) /\
  ((0 <=? 100)%float = true -> (100 <=? 12.5)%float = true ->
   (seekTarget 100 12.5 =? 100)%float = true) /\
  (is_nan 100 = false ->
   (0 <=? seekTarget 100 12.5)%float = true /\
   (seekTarget 100 12.5 <=? 12.5)%float = true) /\
  ((100 <? 0)%float = true \/ (12.5 <? 100)%float = true \/
   is_finite 100 = true ->
   extractFrameFromVideo sample_browser sample_video 100 =
   Fulfilled
     (toDataURL sample_browser
        (mkCanvas 400 400
           [DrawImage (VideoFrame sample_video (seekTarget 100 12.5))])
        (lit "image/jpeg") (Some 0.9%float))).
Proof.
  apply (extractFrame_clamps sample_browser sample_video 100 12.5 400 400);
    [reflexivity | reflexivity | reflexivity | intros; reflexivity].
Defined.

(** The seek of that example in full. *)
Example seek_beyond_the_clip :
  seekTarget 100 12.5 = 12.5%float /\
  seekTarget (-3) 12.5 = 0%float /\
  seekTarget infinity 12.5 = 12.5%float /\
  seekTarget 7.25 12.5 = 7.25%float /\
  extractFrameFromVideo sample_browser sample_video 100 =
    Fulfilled (lit "data:image/jpeg;q=set;base64,A").
Proof. repeat split. Qed.

(** A timestamp that is not a number is not clamped: the target is NaN,
    the assignment to [currentTime] throws, the promise stays pending. *)
Example extractFrame_nan :
  is_nan (seekTarget nan 12.5) = true /\
  extractFrameFromVideo sample_browser sample_video nan = Pending.
Proof. split; reflexivity. Qed.

(** ** The annotator *)

(** With the image loaded and a 2D context at hand, the promise is
    fulfilled with the encoding of the image and the overlay. *)
Lemma drawBoundingBoxOnImage_fulfilled b url box w h :
  loadImage b url = Some (w, h) ->
  getContext2d b = true ->
  drawBoundingBoxOnImage b url box =
  Fulfilled
    (toDataURL b
       (mkCanvas w h
          (DrawImage (ImageOf url) :: overlay (Math.of_N w) (Math.of_N h) box))
       (lit "image/jpeg") None).
Proof.
  intros Hl Hc. unfold drawBoundingBoxOnImage. rewrite Hl, Hc. reflexivity.
Qed.

Lemma overlay_empty W H box :
  (0 <? rect_width (clampBox W H box))%float = false \/
  (0 <? rect_height (clampBox W H box))%float = false ->
  overlay W H box = [].
Proof.
  intros [Hw|Hh]; unfold overlay.
  - rewrite Hw. reflexivity.
  - rewrite Hh, andb_false_r. reflexivity.
Qed.

(** C2 as the code has it. For a box with [x_min >= x_max] or
    [y_min >= y_max], on an image of any size: no rectangle is drawn and the
    promise is fulfilled, not rejected, with a fresh JPEG encoding (at the
    default quality) of a canvas on which only the decoded input image was
    drawn. *)
Theorem annotate_skips_degenerate_box (b : Browser) (url : js_string)
    (box : BoundingBox) (w h : N) :
  loadImage b url = Some (w, h) ->
  getContext2d b = true ->
  (x_max box <=? x_min box)%float = true \/
  (y_max box <=? y_min box)%float = true ->
  overlay (Math.of_N w) (Math.of_N h) box = [] /\
  drawBoundingBoxOnImage b url box =
  Fulfilled
    (toDataURL b (mkCanvas w h [DrawImage (ImageOf url)])
       (lit "image/jpeg") None).
Proof.
  intros Hl Hc Hbox.
  assert (overlay (Math.of_N w) (Math.of_N h) box = []) as Ho.
  { apply overlay_empty. destruct Hbox as [Hx|Hy].
    - left. apply width_not_positive. left. exact Hx.
    - right. apply height_not_positive. left. exact Hy. }
  split; [exact Ho|].
  rewrite (drawBoundingBoxOnImage_fulfilled _ _ _ _ _ Hl Hc), Ho. reflexivity.
Qed.

(** C2, on an inverted box ([x_min = 0.6], [x_max = 0.3]). *)
Lemma annotate_skips_degenerate_box_witness :
  overlay (Math.of_N 400) (Math.of_N 400) (mkBox 0.6 0.4 0.3 0.6) = [] /\
  drawBoundingBoxOnImage sample_browser sample_frame (mkBox 0.6 0.4 0.3 0.6) =
  Fulfilled
    (toDataURL sample_browser (mkCanvas 400 400 [DrawImage (ImageOf sample_frame)])
       (lit "image/jpeg") None).
Proof.
  apply (annotate_skips_degenerate_box sample_browser sample_frame
           (mkBox 0.6 0.4 0.3 0.6) 400 400);
    [reflexivity | reflexivity | left; reflexivity].
Defined.

(** C2 as stated fails: what is returned is not the input image. In the
    sample browser the extracted frame is encoded at quality 0.9; for the
    inverted box the annotator returns a new encoding of it at the default
    quality, which is another data URL. *)
Lemma annotate_returns_a_new_encoding :
  extractFrameFromVideo sample_browser sample_video 2.5 = Fulfilled sample_frame /\
  (x_max (mkBox 0.6 0.4 0.3 0.6) <=? x_min (mkBox 0.6 0.4 0.3 0.6))%float = true /\
  drawBoundingBoxOnImage sample_browser sample_frame (mkBox 0.6 0.4 0.3 0.6) =
    Fulfilled (lit "data:image/jpeg;q=default;base64,A") /\
  lit "data:image/jpeg;q=default;base64,A" <> sample_frame.
Proof.
  split; [reflexivity|]. split; [reflexivity|]. split; [reflexivity|].
  discriminate.
Qed.

(** C7. When the rectangle is drawn, it is stroked from
    [(max(0, x_min*width), max(0, y_min*height))] with the size up to
    [(min(width, x_max*width), min(height, y_max*height))]; for the box
    (0.25, 0.4, 0.45, 0.6) on a 400 by 400 image the corners are (100, 160)
    and (180, 240), the stroked size 80 by 80. *)
Theorem annotate_pixel_bounds (b : Browser) (url : js_string)
    (box : BoundingBox) (w h : N) :
  loadImage b url = Some (w, h) ->
  getContext2d b = true ->
  (0 <? rect_width (clampBox (Math.of_N w) (Math.of_N h) box))%float = true ->
  (0 <? rect_height (clampBox (Math.of_N w) (Math.of_N h) box))%float = true ->
  drawBoundingBoxOnImage b url box =
  Fulfilled
    (toDataURL b
       (mkCanvas w h
          [DrawImage (ImageOf url);
           StrokeRect (boxStyle (Math.of_N w) (Math.of_N h))
             (Math.max [0; x_min box * Math.of_N w]%float)
             (Math.max [0; y_min box * Math.of_N h]%float)
             (Math.min [Math.of_N w; x_max box * Math.of_N w]%float
              - Math.max [0; x_min box * Math.of_N w]%float)%float
             (Math.min [Math.of_N h; y_max box * Math.of_N h]%float
              - Math.max [0; y_min box * Math.of_N h]%float)%float])
       (lit "image/jpeg") None) /\
  clampBox (Math.of_N 400) (Math.of_N 400) (mkBox 0.25 0.4 0.45 0.6) =
    mkRect 100 160 180 240 /\
  overlay (Math.of_N 400) (Math.of_N 400) (mkBox 0.25 0.4 0.45 0.6) =
    [StrokeRect (mkStyle (lit "yellow") 2 (lit "rgba(0, 0, 0, 0.8)") 4)
       100 160 80 80].
Proof.
  intros Hl Hc Hw Hh. split; [|split; reflexivity].
  rewrite (drawBoundingBoxOnImage_fulfilled _ _ _ _ _ Hl Hc).
  unfold overlay. rewrite Hw, Hh. reflexivity.
Qed.

(** C7, on the sample browser and that box. *)
Lemma annotate_pixel_bounds_witness :
  drawBoundingBoxOnImage sample_browser sample_frame (mkBox 0.25 0.4 0.45 0.6) =
  Fulfilled
    (toDataURL sample_browser
       (mkCanvas 400 400
          [DrawImage (ImageOf sample_frame);
           StrokeRect (boxStyle (Math.of_N 400) (Math.of_N 400))
             (Math.max [0; x_min (mkBox 0.25 0.4 0.45 0.6) * Math.of_N 400]%float)
             (Math.max [0; y_min (mkBox 0.25 0.4 0.45 0.6) * Math.of_N 400]%float)
             (Math.min [Math.of_N 400;
                        x_max (mkBox 0.25 0.4 0.45 0.6) * Math.of_N 400]%float
              - Math.max [0; x_min (mkBox 0.25 0.4 0.45 0.6) * Math.of_N 400]%float)%float
             (Math.min [Math.of_N 400;
                        y_max (mkBox 0.25 0.4 0.45 0.6) * Math.of_N 400]%float
              - Math.max [0; y_min (mkBox 0.25 0.4 0.45 0.6) * Math.of_N 400]%float)%float])
       (lit "image/jpeg") None) /\
  clampBox (Math.of_N 400) (Math.of_N 400) (mkBox 0.25 0.4 0.45 0.6) =
    mkRect 100 160 180 240 /\
  overlay (Math.of_N 400) (Math.of_N 400) (mkBox 0.25 0.4 0.45 0.6) =
    [StrokeRect (mkStyle (lit "yellow") 2 (lit "rgba(0, 0, 0, 0.8)") 4)
       100 160 80 80].
Proof.
  apply (annotate_pixel_bounds sample_browser sample_frame
           (mkBox 0.25 0.4 0.45 0.6) 400 400); reflexivity.
Defined.

(** C10. With the image loaded and a 2D context at hand, every box
    (whatever its four numbers, NaN and infinities included) fulfils the
    promise with an encoding of the canvas; whether the promise is
    rejected and with what never depends on the box, and it is never left
    pending. Whenever the clamped width or height is not positive nothing
    is drawn over the image, and that is so for every box that ends at or
    before 0 or starts at or after 1 in x or in y, correctly ordered or
    not. *)
Theorem annotate_total_in_box (b : Browser) (url : js_string)
    (box : BoundingBox) (w h : N) :
  loadImage b url = Some (w, h) ->
  getContext2d b = true ->
  drawBoundingBoxOnImage b url box =
    Fulfilled
      (toDataURL b
         (mkCanvas w h
            (DrawImage (ImageOf url) :: overlay (Math.of_N w) (Math.of_N h) box))
         (lit "image/jpeg") None) /\
  ((0 <? rect_width (clampBox (Math.of_N w) (Math.of_N h) box))%float = false \/
   (0 <? rect_height (clampBox (Math.of_N w) (Math.of_N h) box))%float = false ->
   drawBoundingBoxOnImage b url box =
     Fulfilled
       (toDataURL b (mkCanvas w h [DrawImage (ImageOf url)])
          (lit "image/jpeg") None)) /\
  ((x_max box <=? 0)%float = true \/ (1 <=? x_min box)%float = true \/
   (y_max box <=? 0)%float = true \/ (1 <=? y_min box)%float = true ->
   drawBoundingBoxOnImage b url box =
     Fulfilled
       (toDataURL b (mkCanvas w h [DrawImage (ImageOf url)])
          (lit "image/jpeg") None)) /\
  (forall (b' : Browser) (url' : js_string) (box1 box2 : BoundingBox) (e : Error),
     drawBoundingBoxOnImage b' url' box1 = Rejected e ->
     drawBoundingBoxOnImage b' url' box2 = Rejected e) /\
  (forall (b' : Browser) (url' : js_string) (box1 : BoundingBox),
     drawBoundingBoxOnImage b' url' box1 <> Pending).
Proof.
  intros Hl Hc.
  pose proof (drawBoundingBoxOnImage_fulfilled b url box w h Hl Hc) as Hf.
  split; [exact Hf|]. split; [|split; [|split]].
  - intros Hsize. rewrite Hf, (overlay_empty _ _ _ Hsize). reflexivity.
  - intros Hout. rewrite Hf, overlay_empty; [reflexivity|].
    destruct Hout as [Hx|[Hx|[Hy|Hy]]].
    + left. apply width_not_positive. right. left. exact Hx.
    + left. apply width_not_positive. right. right. exact Hx.
    + right. apply height_not_positive. right. left. exact Hy.
    + right. apply height_not_positive. right. right. exact Hy.
  - intros b' url' box1 box2 e. unfold drawBoundingBoxOnImage.
    destruct (loadImage b' url') as [[w' h']|]; [|exact (fun H => H)].
    destruct (getContext2d b'); [discriminate|exact (fun H => H)].
  - intros b' url' box1. unfold drawBoundingBoxOnImage.
    destruct (loadImage b' url') as [[w' h']|]; [|discriminate].
    destruct (getContext2d b'); discriminate.
Qed.

(** C10, on a correctly ordered box to the right of the image
    ([x_min = 1.5], [x_max = 2]). *)
Lemma annotate_total_in_box_witness :
  drawBoundingBoxOnImage sample_browser sample_frame (mkBox 1.5 0.2 2 0.8) =
    Fulfilled
      (toDataURL sample_browser
         (mkCanvas 400 400
            (DrawImage (ImageOf sample_frame)
             :: overlay (Math.of_N 400) (Math.of_N 400) (mkBox 1.5 0.2 2 0.8)))
         (lit "image/jpeg") None) /\
  ((0 <? rect_width (clampBox (Math.of_N 400) (Math.of_N 400)
                       (mkBox 1.5 0.2 2 0.8)))%float = false \/
   (0 <? rect_height (clampBox (Math.of_N 400) (Math.of_N 400)
                        (mkBox 1.5 0.2 2 0.8)))%float = false ->
   drawBoundingBoxOnImage sample_browser sample_frame (mkBox 1.5 0.2 2 0.8) =
     Fulfilled
       (toDataURL sample_browser
          (mkCanvas 400 400 [DrawImage (ImageOf sample_frame)])
          (lit "image/jpeg") None)) /\
  ((x_max (mkBox 1.5 0.2 2 0.8) <=? 0)%float = true \/
   (1 <=? x_min (mkBox 1.5 0.2 2 0.8))%float = true \/
   (y_max (mkBox 1.5 0.2 2 0.8) <=? 0)%float = true \/
   (1 <=? y_min (mkBox 1.5 0.2 2 0.8))%float = true ->
   drawBoundingBoxOnImage sample_browser sample_frame (mkBox 1.5 0.2 2 0.8) =
     Fulfilled
       (toDataURL sample_browser
          (mkCanvas 400 400 [DrawImage (ImageOf sample_frame)])
          (lit "image/jpeg") None)) /\
  (forall (b' : Browser) (url' : js_string) (box1 box2 : BoundingBox) (e : Error),
     drawBoundingBoxOnImage b' url' box1 = Rejected e ->
     drawBoundingBoxOnImage b' url' box2 = Rejected e) /\
  (forall (b' : Browser) (url' : js_string) (box1 : BoundingBox),
     drawBoundingBoxOnImage b' url' box1 <> Pending).
Proof.
  apply (annotate_total_in_box sample_browser sample_frame
           (mkBox 1.5 0.2 2 0.8) 400 400); reflexivity.
Defined.

(** The box of that example in full: ordered, outside, nothing drawn. *)
Example box_outside_the_image :
  (x_min (mkBox 1.5 0.2 2 0.8) <? x_max (mkBox 1.5 0.2 2 0.8))%float = true /\
  clampBox (Math.of_N 400) (Math.of_N 400) (mkBox 1.5 0.2 2 0.8) =
    mkRect 600 80 400 320 /\
  overlay (Math.of_N 400) (Math.of_N 400) (mkBox 1.5 0.2 2 0.8) = [].
Proof. repeat split. Qed.

(** A box whose numbers are not numbers: nothing drawn, no rejection. *)
Example box_of_nan :
  drawBoundingBoxOnImage sample_browser sample_frame (mkBox nan nan nan nan) =
  Fulfilled (lit "data:image/jpeg;q=default;base64,A").
Proof. reflexivity. Qed.

End FrameProperties.

(* ===================================================================== *)
(** * Part X. Strings and the query *)
(* ===================================================================== *)

Module StringFacts.

(** ** [trim]: what it removes and what it leaves *)

Lemma trimStart_blank s : trimStart s = [] <-> Forall (fun c => is_white_space c = true) s.
Proof.
  induction s as [|c s IH]; cbn; [split; [constructor|reflexivity]|].
  destruct (is_white_space c) eqn:Hc.
  - rewrite IH. split; [intros H; constructor; assumption|].
    intros H. inversion H; assumption.
  - split; [discriminate|]. intros H. inversion H; congruence.
Qed.

Lemma trimStart_decomp s :
  exists pre, s = pre ++ trimStart s /\ Forall (fun c => is_white_space c = true) pre.
Proof.
  induction s as [|c s (pre & Hs & Hpre)]; [exists []; split; [reflexivity|constructor]|].
  cbn. destruct (is_white_space c) eqn:Hc.
  - exists (c :: pre). split; [cbn; f_equal; exact Hs|constructor; assumption].
  - exists []. split; [reflexivity|constructor].
Qed.

Lemma trimStart_head s c r : trimStart s = c :: r -> is_white_space c = false.
Proof.
  induction s as [|a s IH]; cbn; [discriminate|].
  destruct (is_white_space a) eqn:Ha; [exact IH|]. congruence.
Qed.

Lemma trimStart_fixed c r : is_white_space c = false -> trimStart (c :: r) = c :: r.
Proof. intros H. cbn. rewrite H. reflexivity. Qed.

Lemma trimStart_app_blank pre s :
  Forall (fun c => is_white_space c = true) pre -> trimStart (pre ++ s) = trimStart s.
Proof.
  induction 1 as [|c pre Hc _ IH]; [reflexivity|]. cbn. rewrite Hc. exact IH.
Qed.

(** [trim] cuts a run of white space off each end, and nothing else. *)
Lemma trim_decomp s :
  exists pre post,
    s = pre ++ trim s ++ post /\
    Forall (fun c => is_white_space c = true) pre /\
    Forall (fun c => is_white_space c = true) post.
Proof.
  destruct (trimStart_decomp s) as (pre & Hs & Hpre).
  destruct (trimStart_decomp (rev (trimStart s))) as (q & Hr & Hq).
  exists pre, (rev q). split; [|split; [exact Hpre|]].
  - unfold trim, trimEnd. rewrite <- rev_app_distr, <- Hr, rev_involutive. exact Hs.
  - apply Forall_rev. exact Hq.
Qed.

(** The blank strings are those made of white space only. *)
Lemma trim_blank s : trim s = [] <-> Forall (fun c => is_white_space c = true) s.
Proof.
  split.
  - intros H. destruct (trim_decomp s) as (pre & post & Hs & Hpre & Hpost).
    rewrite H in Hs. rewrite Hs. apply Forall_app. split; assumption.
  - intros H. unfold trim, trimEnd.
    apply trimStart_blank in H. rewrite H. reflexivity.
Qed.

Lemma trim_head s c r : trim s = c :: r -> is_white_space c = false.
Proof.
  unfold trim, trimEnd. intros H.
  destruct (trimStart_decomp (rev (trimStart s))) as (q & Hr & Hq).
  apply (f_equal (@rev N)) in Hr. rewrite rev_involutive, rev_app_distr, H in Hr.
  cbn in Hr. apply trimStart_head in Hr. exact Hr.
Qed.

Lemma last_rev {A} (l : list A) : last (rev l) = head l.
Proof. destruct l as [|a l]; [reflexivity|]. cbn. apply last_snoc. Qed.

Lemma trim_last s c : last (trim s) = Some c -> is_white_space c = false.
Proof.
  unfold trim, trimEnd. rewrite last_rev.
  destruct (trimStart (rev (trimStart s))) as [|a r] eqn:H; [discriminate|].
  cbn. intros [= <-]. apply trimStart_head in H. exact H.
Qed.

Lemma trim_fixed s :
  (forall c, head s = Some c -> is_white_space c = false) ->
  (forall c, last s = Some c -> is_white_space c = false) ->
  trim s = s.
Proof.
  intros Hh Hl. unfold trim, trimEnd.
  assert (trimStart s = s) as ->.
  { destruct s as [|c r]; [reflexivity|]. apply trimStart_fixed, Hh. reflexivity. }
  assert (trimStart (rev s) = rev s) as ->; [|apply rev_involutive].
  destruct (rev s) as [|c r] eqn:Hr; [reflexivity|].
  apply trimStart_fixed, Hl. rewrite <- (rev_involutive s), Hr, last_rev. reflexivity.
Qed.

Lemma trim_idempotent s : trim (trim s) = trim s.
Proof.
  apply trim_fixed.
  - intros c. destruct (trim s) as [|a r] eqn:H; [discriminate|].
    cbn. intros [= <-]. exact (trim_head _ _ _ H).
  - apply trim_last.
Qed.

Lemma trim_elem s c : c ∈ trim s -> c ∈ s.
Proof.
  destruct (trim_decomp s) as (pre & post & Hs & _). intros H.
  rewrite Hs, !elem_of_app. right. left. exact H.
Qed.

Lemma trim_app_blank pre s post :
  Forall (fun c => is_white_space c = true) pre ->
  Forall (fun c => is_white_space c = true) post ->
  trim (pre ++ s ++ post) = trim s.
Proof.
  intros Hpre Hpost. unfold trim, trimEnd.
  rewrite (trimStart_app_blank _ _ Hpre). f_equal.
  destruct (trimStart_blank s) as [_ Hb].
  destruct (trimStart_decomp s) as (q & Hs & Hq).
  destruct (trimStart s) as [|a r] eqn:Ht.
  - (* s is blank *)
    assert (Forall (fun c => is_white_space c = true) s) as Hblank
      by (rewrite Hs, app_nil_r; exact Hq).
    assert (trimStart (s ++ post) = []) as ->.
    { apply trimStart_blank, Forall_app. split; assumption. }
    reflexivity.
  - assert (trimStart (s ++ post) = a :: r ++ post) as ->.
    { rewrite Hs at 1. rewrite <- app_assoc, (trimStart_app_blank _ _ Hq).
      apply trimStart_fixed. exact (trimStart_head _ _ _ Ht). }
    change (a :: r ++ post) with ((a :: r) ++ post).
    rewrite rev_app_distr. apply trimStart_app_blank, Forall_rev, Hpost.
Qed.

(** ** [split] and [join] *)

Lemma split_nonempty sep s : split sep s <> [].
Proof.
  destruct s as [|c s]; cbn; [discriminate|].
  destruct (N.eqb c sep); [discriminate|].
  destruct (split sep s); discriminate.
Qed.

Lemma split_sep_free sep s : sep ∉ s -> split sep s = [s].
Proof.
  induction s as [|c s IH]; [reflexivity|]. intros H.
  rewrite not_elem_of_cons in H. destruct H as [Hc Hs]. cbn.
  destruct (N.eqb_spec c sep) as [->|_]; [congruence|].
  rewrite (IH Hs). reflexivity.
Qed.

Lemma split_app sep a b :
  sep ∉ a -> split sep (a ++ sep :: b) = a :: split sep b.
Proof.
  induction a as [|c a IH]; intros H.
  - cbn. rewrite N.eqb_refl. reflexivity.
  - rewrite not_elem_of_cons in H. destruct H as [Hc Ha]. cbn.
    destruct (N.eqb_spec c sep) as [->|_]; [congruence|].
    rewrite (IH Ha). reflexivity.
Qed.

(** No piece holds the separator, and every piece is made of code units
    of the string. *)
Lemma split_pieces sep s :
  Forall (fun w => (sep ∉ w) /\ (forall c, c ∈ w -> c ∈ s)) (split sep s).
Proof.
  induction s as [|c s IH]; cbn.
  - constructor; [|constructor]. split; [apply not_elem_of_nil|].
    intros c H. exact H.
  - destruct (N.eqb_spec c sep) as [->|Hne].
    + constructor.
      * split; [apply not_elem_of_nil|]. intros c H. apply elem_of_nil in H. destruct H.
      * eapply Forall_impl; [exact IH|]. cbn. intros w [Hw Hin].
        split; [exact Hw|]. intros c Hc. apply list_elem_of_further, Hin, Hc.
    + destruct (split sep s) as [|w ws] eqn:Hsp.
      * constructor; [|constructor]. split.
        -- intros H. apply list_elem_of_singleton in H. congruence.
        -- intros a H. apply list_elem_of_singleton in H. subst a. apply list_elem_of_here.
      * inversion IH as [|? ? [Hw Hin] Hws]; subst. constructor.
        -- split.
           ++ rewrite not_elem_of_cons. split; [congruence|exact Hw].
           ++ intros a Ha. apply elem_of_cons in Ha as [->|Ha];
                [apply list_elem_of_here|apply list_elem_of_further, Hin, Ha].
        -- eapply Forall_impl; [exact Hws|]. cbn. intros w' [Hw' Hin'].
           split; [exact Hw'|]. intros a Ha. apply list_elem_of_further, Hin', Ha.
Qed.

End StringFacts.

Module QueryProperties.

Import GeminiService App Samples Vocabulary StringFacts.

Lemma targetObjectsOf_elem query t :
  t ∈ targetObjectsOf query <->
  t <> [] /\ exists w, w ∈ split 44 query /\ t = trim w.
Proof.
  unfold targetObjectsOf. rewrite list_elem_of_In, filter_In, <- list_elem_of_In.
  rewrite list_elem_of_fmap, negb_true_iff, bool_decide_eq_false.
  split.
  - intros [(w & -> & Hw) Hne]. split; [exact Hne|]. exists w. split; [exact Hw|reflexivity].
  - intros [Hne (w & Hw & ->)]. split; [|exact Hne]. exists w. split; [reflexivity|exact Hw].
Qed.

Lemma filter_all {A} (f : A -> bool) l :
  Forall (fun x => f x = true) l -> List.filter f l = l.
Proof.
  induction 1 as [|x l Hx _ IH]; [reflexivity|]. cbn. rewrite Hx, IH. reflexivity.
Qed.

Lemma split_joined (names : list js_string) :
  Forall clean names -> names <> [] ->
  trim <$> split 44 (join (lit ", ") names) = names.
Proof.
  induction 1 as [|n rest (Hne & Htrim & Hcomma) Hrest IH]; [congruence|]. intros _.
  destruct rest as [|m rest].
  - cbn [join]. rewrite (split_sep_free _ _ Hcomma). cbn. rewrite Htrim. reflexivity.
  - specialize (IH ltac:(discriminate)).
    change (join (lit ", ") (n :: m :: rest))
      with (n ++ 44%N :: 32%N :: join (lit ", ") (m :: rest)).
    rewrite (split_app _ _ _ Hcomma).
    change (split 44 (32%N :: join (lit ", ") (m :: rest)))
      with (match split 44 (join (lit ", ") (m :: rest)) with
            | w :: ws => (32%N :: w) :: ws
            | [] => [[32%N]]
            end).
    destruct (split 44 (join (lit ", ") (m :: rest))) as [|w ws] eqn:Hsp;
      [discriminate IH|].
    rewrite !fmap_cons in *. injection IH as Hw Hws.
    rewrite Htrim, Hws. f_equal. f_equal.
    rewrite <- Hw.
    rewrite <- (app_nil_r w) at 1.
    apply (trim_app_blank [32%N] w []); [repeat constructor|constructor].
Qed.

Lemma targets_of_joined (names : list js_string) :
  Forall clean names -> targetObjectsOf (promptTargets names) = names.
Proof.
  intros H. destruct names as [|n rest]; [reflexivity|].
  unfold targetObjectsOf, promptTargets.
  rewrite (split_joined _ H) by discriminate.
  apply filter_all. eapply Forall_impl; [exact H|]. cbn.
  intros t (Hne & _). rewrite negb_true_iff, bool_decide_eq_false. exact Hne.
Qed.

Lemma targets_clean (query : js_string) : Forall clean (targetObjectsOf query).
Proof.
  apply Forall_forall. intros t (Hne & w & Hw & ->)%targetObjectsOf_elem.
  split; [exact Hne|]. split; [apply trim_idempotent|].
  pose proof (split_pieces 44 query) as Hp. rewrite Forall_forall in Hp.
  destruct (Hp w Hw) as [Hc _]. intros Hin. apply Hc, trim_elem, Hin.
Qed.

(** X1. What [handleIdentifyClick] passes to the detection call: every target
    name is non-empty, holds no comma, and neither starts nor ends with
    white space (so trimming it again changes nothing). *)
Theorem targets_are_clean (query : js_string) :
  Forall (fun t => t <> [] /\ trim t = t /\ (44%N ∉ t) /\
                   (forall c, head t = Some c -> is_white_space c = false) /\
                   (forall c, last t = Some c -> is_white_space c = false))
    (targetObjectsOf query).
Proof.
  eapply Forall_impl; [apply targets_clean|]. cbn.
  intros t (Hne & Htrim & Hcomma). repeat split; try assumption.
  - intros c Hc. destruct t as [|a r]; [discriminate|]. injection Hc as ->.
    exact (trim_head _ _ _ Htrim).
  - intros c Hc. rewrite <- Htrim in Hc. exact (trim_last _ _ Hc).
Qed.

(** X2. The prompt names the targets joined by a comma and a space. Splitting
    that text as the handler splits a query gives the targets back, for
    every list of names that are non-empty, comma-free and trimmed; so
    entering the prompt's list as a query yields the same targets. *)
Theorem targets_round_trip (names : list js_string) :
  Forall (fun t => t <> [] /\ trim t = t /\ (44%N ∉ t)) names ->
  targetObjectsOf (promptTargets names) = names.
Proof. apply targets_of_joined. Qed.

(** X2, on sample data. *)
Lemma targets_round_trip_witness :
  targetObjectsOf (promptTargets [lit "chair"; lit "wooden sofa"]) =
  [lit "chair"; lit "wooden sofa"].
Proof.
  apply (targets_round_trip [lit "chair"; lit "wooden sofa"]).
  repeat (apply Forall_cons_2; [split; [discriminate|split; [reflexivity|]]|]);
    [apply (bool_decide_unpack _); vm_compute; exact I ..|apply Forall_nil_2].
Defined.

(** Normalising a query is idempotent: the targets of a query, listed as
    the prompt lists them and read as a query again, are the same
    targets. *)
Corollary targets_normal_form (query : js_string) :
  targetObjectsOf (promptTargets (targetObjectsOf query)) = targetObjectsOf query.
Proof. apply targets_of_joined, targets_clean. Qed.

(** X3. A query made of commas and white space only, with at least one comma,
    is not blank: it passes the validation, the state is reset for loading
    and the detection call is started with no target at all; the prompt
    then names nothing. *)
Theorem separators_only_query (st : State) (file : File) :
  videoFile st = Some file ->
  Forall (fun c => c = 44%N \/ is_white_space c = true) (query st) ->
  44%N ∈ query st ->
  handleIdentifyClick_begin st =
    (mkState (Some file) (query st) [] None true None, Some (file, [])) /\
  promptTargets [] = [].
Proof.
  intros Hfile Hq Hcomma. split; [|reflexivity].
  unfold handleIdentifyClick_begin. rewrite Hfile.
  rewrite bool_decide_eq_false_2.
  2:{ rewrite trim_blank, Forall_forall. intros H. specialize (H _ Hcomma). discriminate H. }
  assert (targetObjectsOf (query st) = []) as ->; [|reflexivity].
  destruct (targetObjectsOf (query st)) as [|t ts] eqn:Ht; [reflexivity|exfalso].
  assert (t ∈ targetObjectsOf (query st)) as Hin by (rewrite Ht; apply list_elem_of_here).
  apply targetObjectsOf_elem in Hin as (Hne & w & Hw & ->).
  apply Hne, trim_blank, Forall_forall. intros c Hc.
  pose proof (split_pieces 44 (query st)) as Hp. rewrite Forall_forall in Hp.
  destruct (Hp w Hw) as [Hno Hsub].
  rewrite Forall_forall in Hq. destruct (Hq c (Hsub c Hc)) as [->|Hws]; [|exact Hws].
  contradiction.
Qed.

(** X3, on sample data. *)
Lemma separators_only_query_witness :
  handleIdentifyClick_begin
    (mkState (Some sample_video) (lit " , ,") [] None false None) =
    (mkState (Some sample_video) (lit " , ,") [] None true None,
     Some (sample_video, [])) /\
  promptTargets [] = [].
Proof.
  apply (separators_only_query
           (mkState (Some sample_video) (lit " , ,") [] None false None)
           sample_video).
  - reflexivity.
  - repeat constructor; (left; reflexivity) || (right; reflexivity).
  - apply (bool_decide_unpack _). vm_compute. exact I.
Defined.

End QueryProperties.

(* ===================================================================== *)
(** * Part XI. More on the detection client *)
(* ===================================================================== *)

Module ClientFacts.

Import GeminiService Samples Vocabulary StringFacts.

Lemma startsWith_spec p : forall s,
  startsWith s p = true <-> exists post, s = p ++ post.
Proof.
  induction p as [|a p IH]; intros s.
  - split; [intros _; exists s; reflexivity|]. intros _. destruct s; reflexivity.
  - destruct s as [|b s]; cbn.
    + split; [discriminate|]. intros [post H]. discriminate H.
    + rewrite andb_true_iff, N.eqb_eq, IH. split.
      * intros [-> [post ->]]. exists post. reflexivity.
      * intros [post [= -> ->]]. split; [reflexivity|]. exists post. reflexivity.
Qed.

Lemma includes_spec sub : forall s,
  includes s sub = true <-> exists pre post, s = pre ++ sub ++ post.
Proof.
  induction s as [|c s IH].
  - cbn [includes]. rewrite orb_false_r, startsWith_spec. split.
    + intros [post H]. exists [], post. exact H.
    + intros (pre & post & H). destruct pre as [|a pre]; [|discriminate H].
      exists post. exact H.
  - cbn [includes]. rewrite orb_true_iff, startsWith_spec, IH. split.
    + intros [[post H]|(pre & post & H)].
      * exists [], post. exact H.
      * exists (c :: pre), post. rewrite H. reflexivity.
    + intros (pre & post & H). destruct pre as [|a pre].
      * left. exists post. exact H.
      * right. injection H as -> ->. exists pre, post. reflexivity.
Qed.

(** X4. The [catch] block takes a failure for service-unavailable exactly when
    the thrown value has a message that reads [pre ++ marker ++ post] for
    one of the markers [503], [UNAVAILABLE], [overloaded] (matched as
    written, case included); a value without a message is never taken for
    one. *)
Theorem transient_iff_marker (e : Error) :
  isServiceUnavailable e = true <->
  exists m pre marker post,
    message e = Some m /\ m = pre ++ marker ++ post /\
    (marker = lit "503" \/ marker = lit "UNAVAILABLE" \/ marker = lit "overloaded").
Proof.
  unfold isServiceUnavailable. destruct (message e) as [m|].
  - rewrite !orb_true_iff, !includes_spec. split.
    + intros [[(pre & post & H)|(pre & post & H)]|(pre & post & H)].
      * exists m, pre, (lit "503"), post. auto.
      * exists m, pre, (lit "UNAVAILABLE"), post. auto.
      * exists m, pre, (lit "overloaded"), post. auto.
    + intros (m' & pre & marker & post & [= <-] & H & [-> | [-> | ->]]).
      * left. left. exists pre, post. exact H.
      * left. right. exists pre, post. exact H.
      * right. exists pre, post. exact H.
  - split; [discriminate|]. intros (m & _ & _ & _ & H & _). discriminate H.
Qed.

(** X5. [fileToBase64] on a data URL whose header has no comma: the payload
    up to its end, or up to its own first comma if it has one; on a reader
    result without any comma it fulfils with [undefined], which is then
    sent as the data. The text it gives never holds a comma. *)
Theorem fileToBase64_payload (type header payload : js_string) :
  44%N ∉ header ->
  (44%N ∉ payload ->
   fileToBase64 (mkFile type (Some (header ++ 44%N :: payload)))
     = Fulfilled (Some payload)) /\
  (forall p q, payload = p ++ 44%N :: q -> 44%N ∉ p ->
   fileToBase64 (mkFile type (Some (header ++ 44%N :: payload)))
     = Fulfilled (Some p)) /\
  fileToBase64 (mkFile type (Some header)) = Fulfilled None /\
  (forall result data,
     fileToBase64 (mkFile type (Some result)) = Fulfilled (Some data) ->
     44%N ∉ data).
Proof.
  intros Hh. unfold fileToBase64. cbn [file_dataURL].
  split; [|split; [|split]].
  - intros Hp. rewrite (split_app _ _ _ Hh), (split_sep_free _ _ Hp). reflexivity.
  - intros p q -> Hp. rewrite (split_app _ _ _ Hh), (split_app _ _ _ Hp). reflexivity.
  - rewrite (split_sep_free _ _ Hh). reflexivity.
  - intros result data [= H].
    pose proof (split_pieces 44 result) as Hp. rewrite Forall_forall in Hp.
    apply list_elem_of_lookup_2 in H. apply (Hp _ H).
Qed.

(** X5, on sample data. *)
Lemma fileToBase64_payload_witness :
  (44%N ∉ lit "AAAA" ->
   fileToBase64 (mkFile (lit "video/mp4")
                   (Some (lit "data:video/mp4;base64" ++ 44%N :: lit "AAAA")))
     = Fulfilled (Some (lit "AAAA"))) /\
  (forall p q, lit "AAAA" = p ++ 44%N :: q -> 44%N ∉ p ->
   fileToBase64 (mkFile (lit "video/mp4")
                   (Some (lit "data:video/mp4;base64" ++ 44%N :: lit "AAAA")))
     = Fulfilled (Some p)) /\
  fileToBase64 (mkFile (lit "video/mp4") (Some (lit "data:video/mp4;base64")))
    = Fulfilled None /\
  (forall result data,
     fileToBase64 (mkFile (lit "video/mp4") (Some result)) = Fulfilled (Some data) ->
     44%N ∉ data).
Proof.
  apply (fileToBase64_payload (lit "video/mp4") (lit "data:video/mp4;base64")
           (lit "AAAA")).
  apply (bool_decide_unpack _). vm_compute. exact I.
Defined.

Section Facts.

Variable API_KEY : option js_string.
Variable generateContent : Request -> Z -> ApiOutcome.
Variable JSON_parse : js_string -> ParseOutcome.
Variable JSON_stringify : list VideoObject -> js_string.

Local Abbreviation try_block := (attempt generateContent JSON_parse).
Local Abbreviation loop := (retry_loop generateContent JSON_parse).
Local Abbreviation identify :=
  (identifyObjectsInVideo API_KEY generateContent JSON_parse JSON_stringify).

(** X6. A transient failure is made good by a later attempt: when the first
    [n] attempts (one or two, or none) fail as service-unavailable and the
    next one succeeds, the function fulfils with that attempt's result
    after [n + 1] calls and the waits of 1000 ms and then 2000 ms. *)
Theorem retry_recovers (videoFile : File) (targetObjects : list js_string)
    (c : N) (k : js_string) (base64 : option js_string) (n : nat)
    (r : IdentifyResult) :
  API_KEY = Some (c :: k) ->
  fileToBase64 videoFile = Fulfilled base64 ->
  (n <= 2)%nat ->
  (forall j, 0 <= j < Z.of_nat n ->
     transient_failure
       (try_block (mkRequest targetObjects (file_type videoFile) base64) j)
     = true) ->
  try_block (mkRequest targetObjects (file_type videoFile) base64) (Z.of_nat n)
    = inl r ->
  fst (identify videoFile targetObjects) = Fulfilled r /\
  calls (snd (identify videoFile targetObjects)) = S n /\
  waits (snd (identify videoFile targetObjects)) = firstn n [1000; 2000].
Proof.
  intros Hkey Hfile Hn Hbefore Ha.
  set (req := mkRequest targetObjects (file_type videoFile) base64) in *.
  rewrite (ClientProperties.identify_is_loop _ _ _ _ _ _ _ _ _ Hkey Hfile). fold req.
  destruct n as [|[|[|n]]]; [| | |lia].
  - rewrite (ClientProperties.retry_loop_success _ _ _ _ _ _ _ r Ha).
    repeat split.
  - rewrite ClientProperties.retry_loop_transient
      by (try (apply Hbefore; lia); unfold maxRetries; lia).
    rewrite (ClientProperties.retry_loop_success _ _ _ _ _ _ _ r Ha).
    repeat split.
  - rewrite ClientProperties.retry_loop_transient
      by (try (apply Hbefore; lia); unfold maxRetries; lia).
    rewrite ClientProperties.retry_loop_transient
      by (try (apply Hbefore; lia); unfold maxRetries; lia).
    rewrite (ClientProperties.retry_loop_success _ _ _ _ _ _ _ r Ha).
    repeat split.
Qed.

(** X7. What one call of the function can cost, whatever the key, the file,
    the model and the parser do: at most three requests; the waits are
    none, 1000 ms, or 1000 ms and then 2000 ms, one after each request
    but the last; every request carries the caller's targets, the file's
    MIME type and the file's base64 data; the mock data notice is never
    logged. *)
Theorem effort_is_bounded (videoFile : File) (targetObjects : list js_string) :
  (calls (snd (identify videoFile targetObjects)) <= 3)%nat /\
  waits (snd (identify videoFile targetObjects)) =
    firstn (Nat.pred (calls (snd (identify videoFile targetObjects))))
      [1000; 2000] /\
  Forall (fun effect =>
            match effect with
            | GenerateContent request =>
                req_targets request = targetObjects /\
                req_mimeType request = file_type videoFile /\
                fileToBase64 videoFile = Fulfilled (req_data request)
            | ConsoleWarnMock => False
            | SetTimeout _ | ConsoleWarn _ _ | ConsoleError => True
            end)
         (snd (identify videoFile targetObjects)).
Proof.
  unfold identifyObjectsInVideo. change USE_MOCK_DATA with false. cbv iota.
  destruct API_KEY as [[|c k]|]; try (cbn; repeat split; (lia || constructor)).
  destruct (fileToBase64 videoFile) as [base64|e|] eqn:Hfile;
    try (cbn; repeat split; (lia || constructor)).
  change (Z.to_nat maxRetries) with 3%nat. cbn [retry_loop].
  set (req := mkRequest targetObjects (file_type videoFile) base64).
  assert (req_targets req = targetObjects /\
          req_mimeType req = file_type videoFile /\
          Fulfilled base64 = Fulfilled (req_data req)) as Hreq
    by (repeat split).
  clearbody req.
  destruct (try_block req 0) as [r0|[inst0 m0|typeError0]];
    [cbn; repeat split; try lia; repeat constructor; apply Hreq | |
     cbn; repeat split; try lia; repeat constructor; apply Hreq].
  change (0 <? maxRetries - 1) with true.
  destruct (isServiceUnavailable (mkError inst0 m0)); cbn [andb].
  2:{ cbn. repeat split; try lia. repeat constructor; apply Hreq. }
  destruct (try_block req (0 + 1)) as [r1|[inst1 m1|typeError1]];
    [cbn; repeat split; try lia; repeat constructor; apply Hreq | |
     cbn; repeat split; try lia; repeat constructor; apply Hreq].
  change (0 + 1 <? maxRetries - 1) with true.
  destruct (isServiceUnavailable (mkError inst1 m1)); cbn [andb].
  2:{ cbn. repeat split; try lia. repeat constructor; apply Hreq. }
  destruct (try_block req (0 + 1 + 1)) as [r2|[inst2 m2|typeError2]];
    [cbn; repeat split; try lia; repeat constructor; apply Hreq | |
     cbn; repeat split; try lia; repeat constructor; apply Hreq].
  change (0 + 1 + 1 <? maxRetries - 1) with false. rewrite andb_false_r.
  cbn. repeat split; try lia. repeat constructor; apply Hreq.
Qed.






Lemma fulfilled_parses (videoFile : File) (targetObjects : list js_string)
    (r : IdentifyResult) (trace : list Effect) :
  JSON_parse (lit "[]") = Parsed [] ->
  identify videoFile targetObjects = (Fulfilled r, trace) ->
  JSON_parse (rawJson r) = Parsed (objects r) /\ rawJson r <> [].
Proof.
  intros Hempty. unfold identifyObjectsInVideo. change USE_MOCK_DATA with false.
  cbv iota.
  destruct API_KEY as [[|c k]|]; try discriminate.
  destruct (fileToBase64 videoFile) as [base64|e|]; try discriminate.
  intros H. apply ClientProperties.retry_loop_fulfilled in H as (j & Hj & Ha).
  apply ClientProperties.attempt_inl_inv in Ha as (text & Hg & Hcases).
  destruct Hcases as [[Ht ->]|(Ht & Hp & Hr)].
  - split; [exact Hempty|discriminate].
  - rewrite Hr. split; [exact Hp|exact Ht].
Qed.

(** X9. A result of the function can be read back: [rawJson] is never empty
    and, as long as [JSON.parse] reads the text [[]] as the empty array,
    parsing [rawJson] gives exactly [objects]. *)
Theorem rawJson_parses_back (videoFile : File) (targetObjects : list js_string)
    (r : IdentifyResult) (trace : list Effect) :
  JSON_parse (lit "[]") = Parsed [] ->
  identify videoFile targetObjects = (Fulfilled r, trace) ->
  JSON_parse (rawJson r) = Parsed (objects r) /\ rawJson r <> [].
Proof. apply fulfilled_parses. Qed.

End Facts.

(** X6, on sample data. *)
Lemma retry_recovers_witness :
  fst (identifyObjectsInVideo sample_key flaky_model sample_parse
         sample_stringify sample_video [lit "chair"])
    = Fulfilled (mkResult [chair] chair_json) /\
  calls (snd (identifyObjectsInVideo sample_key flaky_model sample_parse
                sample_stringify sample_video [lit "chair"])) = 3%nat /\
  waits (snd (identifyObjectsInVideo sample_key flaky_model sample_parse
                sample_stringify sample_video [lit "chair"]))
    = firstn 2 [1000; 2000].
Proof.
  apply (retry_recovers sample_key flaky_model sample_parse sample_stringify
           sample_video [lit "chair"] 107%N (lit "ey") (Some (lit "AAAA")) 2%nat
           (mkResult [chair] chair_json));
    [reflexivity | reflexivity | lia | | reflexivity].
  intros j Hj. assert (j = 0 \/ j = 1) as [->| ->] by lia; reflexivity.
Defined.


(** X9, on sample data. *)
Lemma rawJson_parses_back_witness :
  sample_parse (rawJson (mkResult [chair] chair_json)) =
    Parsed (objects (mkResult [chair] chair_json)) /\
  rawJson (mkResult [chair] chair_json) <> [].
Proof.
  apply (rawJson_parses_back sample_key
           (responds ([10%N] ++ chair_json ++ [10%N])) sample_parse
           sample_stringify sample_video [lit "chair"]
           (mkResult [chair] chair_json)
           [GenerateContent (mkRequest [lit "chair"] (lit "video/mp4") (Some (lit "AAAA")))]);
    reflexivity.
Defined.

End ClientFacts.

(* ===================================================================== *)
(** * Part XII. More on the handlers and the result list *)
(* ===================================================================== *)

Module HandlerFacts.

Import GeminiService App Samples Vocabulary.

(** ** Images settling on the list *)

Lemma withFrame_fields (index : nat) (obj : VideoObject) (f : js_string)
    (prev : list IdentifiedObject) :
  name <$> withFrame index obj f prev = name <$> prev /\
  price <$> withFrame index obj f prev = price <$> prev /\
  timestamp <$> withFrame index obj f prev = timestamp <$> prev /\
  forall i cur, prev !! i = Some cur -> imageUrl cur <> None ->
    exists cur', withFrame index obj f prev !! i = Some cur' /\
                 imageUrl cur' <> None.
Proof.
  split; [|split; [|split]].
  1-3: apply list_eq; intros k;
       rewrite !list_lookup_fmap, ListProperties.withFrame_lookup;
       destruct (prev !! k) as [cur|]; [|reflexivity];
       destruct (bool_decide (k = index) && _); reflexivity.
  intros i cur Hcur Himg. rewrite ListProperties.withFrame_lookup, Hcur.
  destruct (bool_decide (i = index) && _); eexists; (split; [reflexivity|]);
    [discriminate|exact Himg].
Qed.

Lemma settle_cards job o st :
  name <$> identifiedObjects (settle job o st) = name <$> identifiedObjects st /\
  price <$> identifiedObjects (settle job o st) = price <$> identifiedObjects st /\
  timestamp <$> identifiedObjects (settle job o st)
    = timestamp <$> identifiedObjects st /\
  forall i cur, identifiedObjects st !! i = Some cur -> imageUrl cur <> None ->
    exists cur', identifiedObjects (settle job o st) !! i = Some cur' /\
                 imageUrl cur' <> None.
Proof.
  destruct o as [f|e|]; cbn [settle].
  - destruct st; cbn. apply withFrame_fields.
  - repeat split. intros i cur Hcur Himg. exists cur. split; assumption.
  - repeat split. intros i cur Hcur Himg. exists cur. split; assumption.
Qed.

(** X10. Whatever pipelines settle, of whatever run, in whatever order and
    with whatever outcome: the list keeps its length, and every card keeps
    its name, its price and its timestamp; a card that has an image keeps
    having one; the file, the query, the raw JSON, the loading flag and
    the error message stay as they are. Only images change. *)
Theorem settle_keeps_cards (done : list (Job * Promise js_string)) (st : State) :
  length (identifiedObjects (settle_all done st)) = length (identifiedObjects st) /\
  name <$> identifiedObjects (settle_all done st) = name <$> identifiedObjects st /\
  price <$> identifiedObjects (settle_all done st) = price <$> identifiedObjects st /\
  timestamp <$> identifiedObjects (settle_all done st)
    = timestamp <$> identifiedObjects st /\
  (forall i cur, identifiedObjects st !! i = Some cur -> imageUrl cur <> None ->
     exists cur', identifiedObjects (settle_all done st) !! i = Some cur' /\
                  imageUrl cur' <> None) /\
  videoFile (settle_all done st) = videoFile st /\
  query (settle_all done st) = query st /\
  rawJsonOutput (settle_all done st) = rawJsonOutput st /\
  isLoading (settle_all done st) = isLoading st /\
  error (settle_all done st) = error st.
Proof.
  assert (name <$> identifiedObjects (settle_all done st) = name <$> identifiedObjects st /\
          price <$> identifiedObjects (settle_all done st) = price <$> identifiedObjects st /\
          timestamp <$> identifiedObjects (settle_all done st)
            = timestamp <$> identifiedObjects st /\
          (forall i cur, identifiedObjects st !! i = Some cur -> imageUrl cur <> None ->
             exists cur', identifiedObjects (settle_all done st) !! i = Some cur' /\
                          imageUrl cur' <> None)) as H.
  { revert st. induction done as [|[job o] done IH]; intros st.
    - repeat split. intros i cur Hcur Himg. exists cur. split; assumption.
    - change (settle_all ((job, o) :: done) st)
        with (settle_all done (settle job o st)).
      destruct (IH (settle job o st)) as (-> & -> & -> & Himg).
      destruct (settle_cards job o st) as (-> & -> & -> & Himg0).
      repeat split. intros i cur Hcur Hi.
      destruct (Himg0 i cur Hcur Hi) as (cur' & Hcur' & Hi').
      exact (Himg i cur' Hcur' Hi'). }
  destruct H as (Hn & Hp & Ht & Hi).
  split; [|split; [exact Hn|split; [exact Hp|split; [exact Ht|split; [exact Hi|]]]]].
  - apply (f_equal length) in Hn. rewrite !length_fmap in Hn. exact Hn.
  - apply ListProperties.settle_all_fields.
Qed.

Lemma withFrame_comm (i j : nat) (o1 o2 : VideoObject) (f1 f2 : js_string)
    (prev : list IdentifiedObject) :
  i <> j ->
  withFrame i o1 f1 (withFrame j o2 f2 prev) =
  withFrame j o2 f2 (withFrame i o1 f1 prev).
Proof.
  intros Hij. apply list_eq. intros k.
  rewrite !ListProperties.withFrame_lookup.
  destruct (prev !! k) as [cur|]; [|reflexivity].
  destruct (decide (k = i)) as [->|Hki].
  - rewrite (bool_decide_eq_false_2 (i = j)) by exact Hij.
    rewrite (bool_decide_eq_true_2 (i = i)) by reflexivity. cbn [andb].
    destruct (bool_decide (name cur = GeminiService.name o1)); cbn [andb];
      reflexivity.
  - rewrite (bool_decide_eq_false_2 (k = i)) by exact Hki. cbn [andb].
    destruct (bool_decide (k = j) && _); cbn [andb];
      rewrite ?(bool_decide_eq_false_2 (k = i)) by exact Hki; reflexivity.
Qed.

Lemma settle_comm (j1 j2 : Job) (o1 o2 : Promise js_string) (st : State) :
  fst j1 <> fst j2 ->
  settle j1 o1 (settle j2 o2 st) = settle j2 o2 (settle j1 o1 st).
Proof.
  intros Hne. destruct o1 as [f1|e1|], o2 as [f2|e2|]; cbn [settle]; try reflexivity.
  destruct st. unfold set_identifiedObjects. cbn. f_equal.
  apply withFrame_comm. exact Hne.
Qed.

Lemma settle_all_perm (done done' : list (Job * Promise js_string)) :
  done ≡ₚ done' ->
  NoDup ((fun d => fst (fst d)) <$> done) ->
  forall st, settle_all done st = settle_all done' st.
Proof.
  induction 1 as [|x l l' Hp IH|x y l|l l' l'' Hp1 IH1 Hp2 IH2]; intros Hnd st.
  - reflexivity.
  - change (settle_all (x :: l) st) with (settle_all l (settle (fst x) (snd x) st)).
    change (settle_all (x :: l') st) with (settle_all l' (settle (fst x) (snd x) st)).
    apply IH. rewrite fmap_cons in Hnd. apply NoDup_cons in Hnd as [_ Hnd]. exact Hnd.
  - change (settle_all (y :: x :: l) st)
      with (settle_all l (settle (fst x) (snd x) (settle (fst y) (snd y) st))).
    change (settle_all (x :: y :: l) st)
      with (settle_all l (settle (fst y) (snd y) (settle (fst x) (snd x) st))).
    f_equal. apply settle_comm.
    rewrite !fmap_cons in Hnd. apply NoDup_cons in Hnd as [Hy _].
    intros Heq. apply Hy, elem_of_cons. left. symmetry. exact Heq.
  - rewrite (IH1 Hnd). apply IH2. rewrite <- Hp1. exact Hnd.
Qed.

(** X11. Pipelines that write to different slots commute: as long as no two of
    the settled pipelines have the same index (as within one run), the
    final state does not depend on the order in which they settle. *)
Theorem settle_order_irrelevant (done done' : list (Job * Promise js_string))
    (st : State) :
  done ≡ₚ done' ->
  NoDup ((fun d => fst (fst d)) <$> done) ->
  settle_all done st = settle_all done' st.
Proof. intros Hp Hnd. apply settle_all_perm; assumption. Qed.

(** X11, on sample data. *)
Lemma settle_order_irrelevant_witness :
  settle_all
    [((0%nat, chair), Fulfilled (lit "frame of the chair"));
     ((1%nat, sofa), Fulfilled (lit "frame of the sofa"))]
    (fst (handleIdentifyClick_resume
            (Fulfilled (mkResult [chair; sofa] (lit "[...]"))) idle)) =
  settle_all
    [((1%nat, sofa), Fulfilled (lit "frame of the sofa"));
     ((0%nat, chair), Fulfilled (lit "frame of the chair"))]
    (fst (handleIdentifyClick_resume
            (Fulfilled (mkResult [chair; sofa] (lit "[...]"))) idle)).
Proof.
  apply (settle_order_irrelevant
           [((0%nat, chair), Fulfilled (lit "frame of the chair"));
            ((1%nat, sofa), Fulfilled (lit "frame of the sofa"))]
           [((1%nat, sofa), Fulfilled (lit "frame of the sofa"));
            ((0%nat, chair), Fulfilled (lit "frame of the chair"))]).
  - apply perm_swap.
  - apply (bool_decide_unpack _). vm_compute. exact I.
Defined.

Lemma settle_all_empty (done : list (Job * Promise js_string)) (st : State) :
  identifiedObjects st = [] -> settle_all done st = st.
Proof.
  revert st. induction done as [|[job o] done IH]; intros st Hst; [reflexivity|].
  change (settle_all ((job, o) :: done) st) with (settle_all done (settle job o st)).
  assert (settle job o st = st) as ->; [|apply IH, Hst].
  destruct o as [f|e|]; cbn [settle]; try reflexivity.
  destruct st. cbn in *. subst. reflexivity.
Qed.

(** X12. While a detection call is awaited, and after a file has been chosen,
    the list is empty, and every image that arrives then (from pipelines
    of an earlier run) is dropped: the state does not change. *)
Theorem late_images_are_dropped (done : list (Job * Promise js_string))
    (st : State) (file : File) :
  videoFile st = Some file ->
  trim (query st) <> [] ->
  settle_all done (fst (handleIdentifyClick_begin st))
    = fst (handleIdentifyClick_begin st) /\
  forall createObjectURL newFile videoUrl,
    settle_all done (fst (fst (handleFileChange createObjectURL newFile videoUrl st)))
    = fst (fst (handleFileChange createObjectURL newFile videoUrl st)).
Proof.
  intros Hfile Hq. split.
  - apply settle_all_empty. unfold handleIdentifyClick_begin. rewrite Hfile.
    rewrite bool_decide_eq_false_2 by exact Hq. reflexivity.
  - intros createObjectURL newFile videoUrl. apply settle_all_empty.
    unfold handleFileChange. destruct newFile; reflexivity.
Qed.

(** X12, on sample data. *)
Lemma late_images_are_dropped_witness :
  settle_all [((0%nat, chair), Fulfilled (lit "frame of an earlier run"))]
    (fst (handleIdentifyClick_begin idle))
    = fst (handleIdentifyClick_begin idle) /\
  forall createObjectURL newFile videoUrl,
    settle_all [((0%nat, chair), Fulfilled (lit "frame of an earlier run"))]
      (fst (fst (handleFileChange createObjectURL newFile videoUrl idle)))
    = fst (fst (handleFileChange createObjectURL newFile videoUrl idle)).
Proof.
  apply (late_images_are_dropped
           [((0%nat, chair), Fulfilled (lit "frame of an earlier run"))]
           idle sample_video); [reflexivity|discriminate].
Defined.

(** ** The Identify button and the handler *)

(** X13. Through the enabled button the handler never fails its validation:
    there is a file, the detection call is started with that file and the
    targets of the query, nothing of an earlier run stays on screen, and
    the button is disabled until the handler has finished. The two
    validation messages can only come from a click on a button that is
    rendered disabled. *)
Theorem enabled_button_starts_detection (st : State) :
  identifyDisabled st = false ->
  exists file,
    videoFile st = Some file /\
    handleIdentifyClick_begin st =
      (mkState (Some file) (query st) [] None true None,
       Some (file, targetObjectsOf (query st))) /\
    identifyDisabled (fst (handleIdentifyClick_begin st)) = true.
Proof.
  unfold identifyDisabled, handleIdentifyClick_begin.
  destruct (videoFile st) as [file|]; [|discriminate].
  destruct (isLoading st); [discriminate|].
  destruct (bool_decide (trim (query st) = [])); [discriminate|].
  intros _. exists file. repeat split.
Qed.

(** X13, on sample data. *)
Lemma enabled_button_starts_detection_witness :
  exists file,
    videoFile idle = Some file /\
    handleIdentifyClick_begin idle =
      (mkState (Some file) (query idle) [] None true None,
       Some (file, targetObjectsOf (query idle))) /\
    identifyDisabled (fst (handleIdentifyClick_begin idle)) = true.
Proof. apply (enabled_button_starts_detection idle). reflexivity. Defined.

Section Handler.

Variable API_KEY : option js_string.
Variable generateContent : Request -> Z -> ApiOutcome.
Variable JSON_parse : js_string -> ParseOutcome.
Variable JSON_stringify : list VideoObject -> js_string.

Local Abbreviation identify :=
  (identifyObjectsInVideo API_KEY generateContent JSON_parse JSON_stringify).

(** X14. Without an API key a click sends no request and does not read the
    file: the handler ends with the missing-key message on screen, loading
    off, no results, no raw JSON and no pipeline; the only effect is the
    error logged by the handler. *)
Theorem missing_key_is_reported (st : State) (file : File) :
  API_KEY = None \/ API_KEY = Some [] ->
  videoFile st = Some file ->
  trim (query st) <> [] ->
  handleIdentifyClick identify st =
    ((mkState (Some file) (query st) [] None false
        (Some (lit "API_KEY environment variable is not set.")), []),
     [ConsoleError]).
Proof.
  intros Hkey Hfile Hq. unfold handleIdentifyClick, handleIdentifyClick_begin.
  rewrite Hfile. rewrite bool_decide_eq_false_2 by exact Hq.
  unfold identifyObjectsInVideo. change USE_MOCK_DATA with false. cbv iota.
  destruct Hkey as [-> | ->]; reflexivity.
Qed.

(** X15. A file that the file reader cannot read: no request is sent, and since
    the reader rejects with its error event, which is no [Error], the
    handler shows its own fallback message. *)
Theorem unreadable_file_is_reported (st : State) (file : File) (c : N)
    (k : js_string) :
  API_KEY = Some (c :: k) ->
  videoFile st = Some file ->
  file_dataURL file = None ->
  trim (query st) <> [] ->
  handleIdentifyClick identify st =
    ((mkState (Some file) (query st) [] None false
        (Some (lit "An unknown error occurred during object identification.")),
      []),
     [ConsoleError]).
Proof.
  intros Hkey Hfile Hdata Hq. unfold handleIdentifyClick, handleIdentifyClick_begin.
  rewrite Hfile. rewrite bool_decide_eq_false_2 by exact Hq.
  unfold identifyObjectsInVideo, fileToBase64. change USE_MOCK_DATA with false.
  cbv iota. rewrite Hkey, Hdata. reflexivity.
Qed.

(** X18. The raw JSON panel can always be rendered. As long as [JSON.parse]
    reads the text [[]] as the empty array: a state whose raw JSON is
    missing or parses stays such a state under a click on Identify
    (whatever the call does), under a change of file and under any
    pipelines settling; and in such a state rendering the panel does not
    throw. *)
Theorem raw_json_panel_never_throws (st : State) :
  JSON_parse (lit "[]") = Parsed [] ->
  parsable JSON_parse st ->
  parsable JSON_parse (fst (fst (handleIdentifyClick identify st))) /\
  (forall createObjectURL file videoUrl,
     parsable JSON_parse
       (fst (fst (handleFileChange createObjectURL file videoUrl st)))) /\
  (forall done, parsable JSON_parse (settle_all done st)) /\
  (forall msg, rawJsonPanel JSON_parse JSON_stringify st <> Throws msg).
Proof.
  intros Hempty Hst. split; [|split; [|split]].
  - unfold handleIdentifyClick, handleIdentifyClick_begin.
    destruct (videoFile st) as [file|]; [|exact Hst].
    case_bool_decide as Hq; [exact Hst|].
    destruct (identify file (targetObjectsOf (query st))) as [outcome trace] eqn:Hid.
    destruct outcome as [[objs raw]|e|].
    + destruct (ClientFacts.fulfilled_parses _ _ _ _ _ _ _ _ Hempty Hid) as [Hp _].
      cbn in Hp. destruct objs; intros raw' [= <-] _; eexists; exact Hp.
    + intros raw' H. discriminate H.
    + intros raw' H. discriminate H.
  - intros createObjectURL file videoUrl raw H.
    unfold handleFileChange in H. destruct file; discriminate H.
  - intros done raw H.
    destruct (ListProperties.settle_all_fields done st) as (_ & _ & Hr & _).
    rewrite Hr in H. exact (Hst raw H).
  - intros msg. unfold rawJsonPanel.
    destruct (rawJsonOutput st) as [[|c raw]|] eqn:Hraw; try discriminate.
    destruct (isLoading st); [discriminate|].
    destruct (Hst (c :: raw) Hraw ltac:(discriminate)) as [objs ->]. discriminate.
Qed.

End Handler.

(** X14, on sample data. *)
Lemma missing_key_is_reported_witness :
  handleIdentifyClick
    (identifyObjectsInVideo None overloaded_model sample_parse sample_stringify)
    idle =
    ((mkState (Some sample_video) (query idle) [] None false
        (Some (lit "API_KEY environment variable is not set.")), []),
     [ConsoleError]).
Proof.
  apply (missing_key_is_reported None overloaded_model sample_parse
           sample_stringify idle sample_video);
    [left; reflexivity | reflexivity | discriminate].
Defined.

(** X15, on sample data. *)
Lemma unreadable_file_is_reported_witness :
  handleIdentifyClick
    (identifyObjectsInVideo sample_key overloaded_model sample_parse
       sample_stringify)
    (mkState (Some unreadable_video) (lit "chair") [] None false None) =
    ((mkState (Some unreadable_video) (lit "chair") [] None false
        (Some (lit "An unknown error occurred during object identification.")),
      []),
     [ConsoleError]).
Proof.
  apply (unreadable_file_is_reported sample_key overloaded_model sample_parse
           sample_stringify
           (mkState (Some unreadable_video) (lit "chair") [] None false None)
           unreadable_video 107%N (lit "ey"));
    [reflexivity | reflexivity | reflexivity | discriminate].
Defined.

(** The sample run of that handler in full: one card without image, one
    pipeline, the raw JSON kept, no error. *)
Example click_on_the_sample_video :
  handleIdentifyClick
    (identifyObjectsInVideo sample_key (responds chair_json) sample_parse
       sample_stringify) idle =
  ((mkState (Some sample_video) (lit "chair, sofa") [card chair None]
      (Some chair_json) false None,
    [(0%nat, chair)]),
   [GenerateContent
      (mkRequest [lit "chair"; lit "sofa"] (lit "video/mp4") (Some (lit "AAAA")))]).
Proof. reflexivity. Qed.

(** X18, on sample data. *)
Lemma raw_json_panel_never_throws_witness :
  parsable sample_parse
    (fst (fst (handleIdentifyClick
                 (identifyObjectsInVideo sample_key (responds chair_json)
                    sample_parse sample_stringify) idle))) /\
  (forall createObjectURL file videoUrl,
     parsable sample_parse
       (fst (fst (handleFileChange createObjectURL file videoUrl idle)))) /\
  (forall done, parsable sample_parse (settle_all done idle)) /\
  (forall msg, rawJsonPanel sample_parse sample_stringify idle <> Throws msg).
Proof.
  apply (raw_json_panel_never_throws sample_key (responds chair_json)
           sample_parse sample_stringify idle); [reflexivity|].
  intros raw H. discriminate H.
Defined.

End HandlerFacts.

(* ===================================================================== *)
(** * Part XIII. More on frames and rectangles *)
(* ===================================================================== *)

Module FrameFacts.

Import GeminiService App Samples Vocabulary Binary64 Binary64Facts.

(** ** Clamping, once more *)

Lemma SFclamp_idempotent t d : SFclamp (SFclamp t d) d = SFclamp t d.
Proof. sf_cases t d. all: sf_compare. Qed.

Lemma SFclamp_end d :
  SFleb (S754_zero false) d = true -> SFclamp d d = d.
Proof.
  unfold SFclamp, SFmin, SFmax, SFleb, SFltb.
  destruct d as [[|]|[|]| |[|] m e]; cbn; try discriminate; try reflexivity.
  all: intros _; sf_compare.
Qed.

Lemma SFclamp_start t d :
  SFltb (S754_zero false) d = true -> SFltb t (S754_zero false) = true ->
  SFclamp t d = SFclamp (S754_zero false) d.
Proof. sf_cases t d. Qed.

(** X19. The extracted frame depends on the timestamp only through the seek
    target. So, for a video that has loaded with a duration that is not
    negative: every timestamp after the end gives what the end itself
    gives, every timestamp before 0 gives what 0 gives (in a video of
    positive duration), and clamping a clamped time changes nothing. *)
Theorem frames_outside_the_clip (b : Browser) (file : File) (d : float)
    (w h : N) (t : float) :
  loadVideo b file = LoadedMetadata d w h ->
  (0 <=? d)%float = true ->
  ((d <? t)%float = true ->
   extractFrameFromVideo b file t = extractFrameFromVideo b file d) /\
  ((t <? 0)%float = true -> (0 <? d)%float = true ->
   extractFrameFromVideo b file t = extractFrameFromVideo b file 0) /\
  (forall t', seekTarget t d = seekTarget t' d ->
   extractFrameFromVideo b file t = extractFrameFromVideo b file t') /\
  seekTarget (seekTarget t d) d = seekTarget t d.
Proof.
  intros Hload Hd.
  assert (forall t1 t2, seekTarget t1 d = seekTarget t2 d ->
          extractFrameFromVideo b file t1 = extractFrameFromVideo b file t2) as Hdep.
  { intros t1 t2 Heq. unfold extractFrameFromVideo. rewrite Hload, Heq. reflexivity. }
  rewrite FloatAxioms.leb_spec in Hd. change (Prim2SF 0) with (S754_zero false) in Hd.
  split; [|split; [|split]].
  - rewrite FloatAxioms.ltb_spec. intros Hlt. apply Hdep, Prim2SF_inj.
    rewrite !seekTarget_spec, (SFclamp_above _ _ Hd Hlt), (SFclamp_end _ Hd).
    reflexivity.
  - rewrite !FloatAxioms.ltb_spec. change (Prim2SF 0) with (S754_zero false).
    intros Ht Hpos. apply Hdep, Prim2SF_inj. rewrite !seekTarget_spec.
    change (Prim2SF 0) with (S754_zero false). apply SFclamp_start; assumption.
  - intros t'. apply Hdep.
  - apply Prim2SF_inj. rewrite !seekTarget_spec. apply SFclamp_idempotent.
Qed.

(** X19, on sample data. *)
Lemma frames_outside_the_clip_witness :
  ((12.5 <? 100)%float = true ->
   extractFrameFromVideo sample_browser sample_video 100
   = extractFrameFromVideo sample_browser sample_video 12.5) /\
  ((100 <? 0)%float = true -> (0 <? 12.5)%float = true ->
   extractFrameFromVideo sample_browser sample_video 100
   = extractFrameFromVideo sample_browser sample_video 0) /\
  (forall t', seekTarget 100 12.5 = seekTarget t' 12.5 ->
   extractFrameFromVideo sample_browser sample_video 100
   = extractFrameFromVideo sample_browser sample_video t') /\
  seekTarget (seekTarget 100 12.5) 12.5 = seekTarget 100 12.5.
Proof.
  apply (frames_outside_the_clip sample_browser sample_video 12.5 400 400 100);
    reflexivity.
Defined.

(** ** The rectangle that is drawn *)

Lemma SFsub_nan_r x : SF64sub x S754_nan = S754_nan.
Proof. destruct x as [[|]|[|]| |[|] m e]; reflexivity. Qed.

Lemma SFleb_zero x :
  valid_binary x = true -> SFnonneg x = true -> SFleb (S754_zero false) x = true.
Proof. destruct x as [[|]|[|]| |[|] m e]; intros; try discriminate; reflexivity. Qed.

Lemma SFleb_of_val x y :
  valid_binary x = true -> valid_binary y = true ->
  SFnonneg x = true -> SFnonneg y = true ->
  SFval x <= SFval y -> SFleb x y = true.
Proof.
  intros Vx Vy Nx Ny H. unfold SFleb. rewrite (SFcompare_val x y Vx Vy Nx Ny).
  destruct (Z.compare_spec (SFval x) (SFval y)); try reflexivity. lia.
Qed.

Lemma SFside_inside a b w :
  valid_binary a = true -> valid_binary b = true -> valid_binary w = true ->
  SFnonneg w = true ->
  SFltb (S754_zero false)
    (SF64sub (SFmin [w; SF64mul b w]) (SFmax [S754_zero false; SF64mul a w]))
  = true ->
  SFleb (S754_zero false) (SFmax [S754_zero false; SF64mul a w]) = true /\
  SFltb (SFmax [S754_zero false; SF64mul a w]) (SFmin [w; SF64mul b w]) = true /\
  SFleb (SFmin [w; SF64mul b w]) w = true.
Proof.
  intros Va Vb Vw Nw Hpos.
  destruct (SFmul_valid a w Va Vw) as [Vp _].
  destruct (SFmul_valid b w Vb Vw) as [Vq _].
  set (p := SF64mul a w) in *. set (q := SF64mul b w) in *.
  destruct (SFmax0_facts p Vp) as [Hn|(V1 & N1 & _)].
  { rewrite Hn, SFsub_nan_r in Hpos. discriminate Hpos. }
  destruct (SFmin_facts w q Vw Nw Vq) as [Hn|(V2 & _ & Hs)].
  { rewrite Hn in Hpos.
    destruct (SFmax [S754_zero false; p]) as [[|]|[|]| |[|] m e]; discriminate Hpos. }
  set (x1 := SFmax [S754_zero false; p]) in *. set (x2 := SFmin [w; q]) in *.
  destruct (SFnonpos x2) eqn:Hnp.
  { rewrite (SFsub_not_positive x2 x1 V2 V1 N1) in Hpos by (left; exact Hnp).
    discriminate Hpos. }
  destruct Hs as [Hs|(N2 & Hw & _)]; [discriminate Hs|].
  destruct (Z.le_gt_cases (SFval x2) (SFval x1)) as [Hle|Hgt].
  { rewrite (SFsub_not_positive x2 x1 V2 V1 N1) in Hpos
      by (right; split; assumption).
    discriminate Hpos. }
  split; [apply SFleb_zero; assumption|]. split.
  - rewrite SFltb_val by assumption. apply Z.ltb_lt. exact Hgt.
  - apply SFleb_of_val; assumption.
Qed.

(** X20. Whenever a rectangle is drawn, its corners are inside the image, on
    every image and for every box: [0 <= x1 < x2 <= width] and
    [0 <= y1 < y2 <= height]. *)
Theorem drawn_rectangle_is_inside (w h : N) (box : BoundingBox) :
  overlay (Math.of_N w) (Math.of_N h) box <> [] ->
  (0 <=? x1 (clampBox (Math.of_N w) (Math.of_N h) box))%float = true /\
  (x1 (clampBox (Math.of_N w) (Math.of_N h) box)
   <? x2 (clampBox (Math.of_N w) (Math.of_N h) box))%float = true /\
  (x2 (clampBox (Math.of_N w) (Math.of_N h) box) <=? Math.of_N w)%float = true /\
  (0 <=? y1 (clampBox (Math.of_N w) (Math.of_N h) box))%float = true /\
  (y1 (clampBox (Math.of_N w) (Math.of_N h) box)
   <? y2 (clampBox (Math.of_N w) (Math.of_N h) box))%float = true /\
  (y2 (clampBox (Math.of_N w) (Math.of_N h) box) <=? Math.of_N h)%float = true.
Proof.
  unfold overlay.
  destruct (0 <? rect_width _)%float eqn:Hw; [|intros H; contradiction].
  destruct (0 <? rect_height _)%float eqn:Hh; [|intros H; contradiction].
  intros _.
  rewrite FloatAxioms.ltb_spec, rect_width_spec, of_N_spec in Hw.
  rewrite FloatAxioms.ltb_spec, rect_height_spec, of_N_spec in Hh.
  change (Prim2SF 0) with (S754_zero false) in Hw, Hh.
  destruct (binary_normalize_N w) as [Vw Nw].
  destruct (binary_normalize_N h) as [Vh Nh].
  apply SFside_inside in Hw as (Hx1 & Hx12 & Hx2);
    try apply Prim2SF_valid; try assumption.
  apply SFside_inside in Hh as (Hy1 & Hy12 & Hy2);
    try apply Prim2SF_valid; try assumption.
  unfold clampBox. cbn [x1 x2 y1 y2].
  rewrite !FloatAxioms.leb_spec, !FloatAxioms.ltb_spec, !min_spec, !max_spec,
    !fmap_cons, !FloatAxioms.mul_spec, !of_N_spec.
  change (Prim2SF 0) with (S754_zero false).
  repeat split; assumption.
Qed.

(** X20, on sample data. *)
Lemma drawn_rectangle_is_inside_witness :
  (0 <=? x1 (clampBox (Math.of_N 400) (Math.of_N 300) (mkBox 0.25 0.4 1.45 0.6)))%float = true /\
  (x1 (clampBox (Math.of_N 400) (Math.of_N 300) (mkBox 0.25 0.4 1.45 0.6))
   <? x2 (clampBox (Math.of_N 400) (Math.of_N 300) (mkBox 0.25 0.4 1.45 0.6)))%float = true /\
  (x2 (clampBox (Math.of_N 400) (Math.of_N 300) (mkBox 0.25 0.4 1.45 0.6))
   <=? Math.of_N 400)%float = true /\
  (0 <=? y1 (clampBox (Math.of_N 400) (Math.of_N 300) (mkBox 0.25 0.4 1.45 0.6)))%float = true /\
  (y1 (clampBox (Math.of_N 400) (Math.of_N 300) (mkBox 0.25 0.4 1.45 0.6))
   <? y2 (clampBox (Math.of_N 400) (Math.of_N 300) (mkBox 0.25 0.4 1.45 0.6)))%float = true /\
  (y2 (clampBox (Math.of_N 400) (Math.of_N 300) (mkBox 0.25 0.4 1.45 0.6))
   <=? Math.of_N 300)%float = true.
Proof.
  apply (drawn_rectangle_is_inside 400 300 (mkBox 0.25 0.4 1.45 0.6)).
  discriminate.
Defined.

End FrameFacts.

Module StrokeFacts.

Import GeminiService App Samples Vocabulary Binary64 Binary64Facts.

(** ** Division never makes a NaN of two finite numbers *)

Lemma shr_1_nonneg mrs : 0 <= shr_m mrs -> 0 <= shr_m (shr_1 mrs).
Proof.
  destruct mrs as [m r s]. cbn [shr_m]. intros Hm.
  destruct m as [|[p|p|]|p]; cbn; lia.
Qed.

Lemma iter_shr_nonneg n : forall mrs,
  0 <= shr_m mrs -> 0 <= shr_m (Nat.iter n shr_1 mrs).
Proof.
  induction n as [|n IH]; intros mrs H; [exact H|].
  cbn [Nat.iter]. apply shr_1_nonneg, IH, H.
Qed.

Lemma shr_fexp_nonneg m e l :
  0 <= m -> 0 <= shr_m (fst (shr_fexp prec emax m e l)).
Proof.
  intros Hm. unfold shr_fexp, shr.
  assert (0 <= shr_m (shr_record_of_loc m l)) as H0
    by (destruct l as [|[| |]]; exact Hm).
  destruct (fexp prec emax (Zdigits2 m + e) - e) as [|p|p]; cbn [fst];
    try exact H0.
  rewrite iter_pos_nat. apply iter_shr_nonneg, H0.
Qed.

Lemma round_nearest_even_nonneg m l : 0 <= m -> 0 <= round_nearest_even m l.
Proof.
  intros Hm. destruct l as [|[| |]]; cbn; try lia. destruct (Z.even m); lia.
Qed.

Lemma binary_round_aux_not_nan s m e l :
  0 <= m -> SFis_nan (binary_round_aux prec emax s m e l) = false.
Proof.
  intros Hm. unfold binary_round_aux.
  pose proof (shr_fexp_nonneg m e l Hm) as H1.
  destruct (shr_fexp prec emax m e l) as [mrs' e']. cbn [fst] in H1.
  pose proof (shr_fexp_nonneg _ e' loc_Exact
                (round_nearest_even_nonneg _ (loc_of_shr_record mrs') H1)) as H2.
  destruct (shr_fexp prec emax _ e' loc_Exact) as [mrs'' e'']. cbn [fst] in H2.
  destruct (shr_m mrs'') as [|p|p]; [reflexivity| |lia].
  destruct (e'' <=? emax - prec); reflexivity.
Qed.

Lemma SFdiv_core_nonneg m1 e1 m2 e2 :
  0 <= fst (fst (SFdiv_core_binary prec emax (Zpos m1) e1 (Zpos m2) e2)).
Proof.
  unfold SFdiv_core_binary.
  set (s := e1 - e2 - _).
  set (m' := match s with Z.pos _ => Z.shiftl (Zpos m1) s | 0 => Zpos m1 | Z.neg _ => 0 end).
  assert (0 <= m') as Hm'.
  { subst m'. destruct s; try lia. apply Z.shiftl_nonneg. lia. }
  pose proof (Z.div_pos m' (Zpos m2) Hm' ltac:(lia)) as Hq.
  unfold Z.div in Hq. destruct (Z.div_eucl m' (Zpos m2)) as [q r]. exact Hq.
Qed.

Lemma SFdiv_not_nan x s m e :
  SFis_nan x = false ->
  SFis_nan (SF64div x (S754_finite s m e)) = false.
Proof.
  destruct x as [sx|sx| |sx mx ex]; try discriminate; try reflexivity.
  intros _. unfold SF64div, SFdiv.
  pose proof (SFdiv_core_nonneg mx ex m e) as Hq.
  destruct (SFdiv_core_binary prec emax (Zpos mx) ex (Zpos m) e) as [[mz ez] lz].
  apply binary_round_aux_not_nan. exact Hq.
Qed.

(** ** [Math.round] gives a number for a number *)

Lemma binary_normalize_valid k s :
  valid_binary (binary_normalize prec emax k 0 s) = true /\
  SFis_nan (binary_normalize prec emax k 0 s) = false.
Proof.
  destruct k as [|p|p]; [split; reflexivity| |]; cbn [binary_normalize].
  - destruct (binary_round_spec false p 0) as (m' & e' & H & ->).
    split; [apply rounded_valid, H|].
    pose proof (round_result_sign false
                  (rne (Zpos m') (texp m' e' - e')) (texp m' e')) as Hs.
    destruct (round_result _ _ _); try reflexivity. destruct Hs.
  - destruct (binary_round_spec true p 0) as (m' & e' & H & ->).
    split; [apply rounded_valid, H|].
    pose proof (round_result_sign true
                  (rne (Zpos m') (texp m' e' - e')) (texp m' e')) as Hs.
    destruct (round_result _ _ _); try reflexivity. destruct Hs.
Qed.

Lemma SFround_valid x :
  valid_binary x = true ->
  valid_binary (Math.SFround x) = true /\
  (SFis_nan x = false -> SFis_nan (Math.SFround x) = false).
Proof.
  intros V. destruct x as [s|s| |s m [|e|e]]; try (split; [exact V|intros H; exact H]).
  cbn [Math.SFround]. split; [apply binary_normalize_valid|].
  intros _. apply binary_normalize_valid.
Qed.

Lemma round_spec x : Prim2SF (Math.round x) = Math.SFround (Prim2SF x).
Proof. apply Prim2SF_SF2Prim, SFround_valid, Prim2SF_valid. Qed.

Lemma SFmin_not_nan w h :
  SFis_nan w = false -> SFis_nan h = false -> SFis_nan (SFmin [w; h]) = false.
Proof.
  intros Hw Hh. unfold SFmin. cbn [SFmin_from]. rewrite Hw, Hh.
  repeat match goal with |- context [if ?c then _ else _] => destruct c end;
    assumption || reflexivity.
Qed.

Lemma SFmax_two x :
  SFis_nan x = false ->
  SFleb (Prim2SF 2) (SFmax [Prim2SF 2; x]) = true.
Proof.
  intros Hx. unfold SFmax. cbn [SFmax_from]. change (SFis_nan (Prim2SF 2)) with false.
  cbv iota. rewrite Hx.
  change (SFis_pos_zero (Prim2SF 2) && SFis_neg_zero (S754_infinity true)) with false.
  cbv iota. change (SFltb (S754_infinity true) (Prim2SF 2)) with true. cbv iota.
  assert (SFis_pos_zero x && SFis_neg_zero (Prim2SF 2) = false) as ->
    by apply andb_false_r.
  destruct (SFltb (Prim2SF 2) x) eqn:Hlt.
  - unfold SFleb. unfold SFltb in Hlt.
    destruct (SFcompare (Prim2SF 2) x) as [[| |]|]; try discriminate. reflexivity.
  - reflexivity.
Qed.

(** X22. The stroke is at least 2 pixels wide on every image, whatever its
    size (the rounded quotient is never NaN); the shadow blur is twice the
    line width and the colour is yellow. *)
Theorem line_width_at_least_two (w h : N) :
  (2 <=? lineWidth (boxStyle (Math.of_N w) (Math.of_N h)))%float = true /\
  shadowBlur (boxStyle (Math.of_N w) (Math.of_N h)) =
    (lineWidth (boxStyle (Math.of_N w) (Math.of_N h)) * 2)%float /\
  strokeStyle (boxStyle (Math.of_N w) (Math.of_N h)) = lit "yellow".
Proof.
  split; [|split; reflexivity].
  unfold boxStyle. cbn [lineWidth].
  rewrite FloatAxioms.leb_spec, max_spec, !fmap_cons. cbn [fmap list_fmap].
  apply SFmax_two.
  rewrite round_spec. apply SFround_valid; [apply Prim2SF_valid|].
  rewrite FloatAxioms.div_spec.
  change (Prim2SF 250) with (S754_finite false 8796093022208000 (-45)).
  apply SFdiv_not_nan.
  rewrite min_spec, !fmap_cons, !of_N_spec. cbn [fmap list_fmap].
  apply SFmin_not_nan; apply binary_normalize_valid.
Qed.

End StrokeFacts.

Module OrderFacts.

Import GeminiService App Samples Vocabulary Binary64 Binary64Facts FrameFacts.

(** ** Minimum, maximum and clamping as values *)

Lemma SFmax0_val t :
  valid_binary t = true -> SFnonneg t = true ->
  valid_binary (SFmax [S754_zero false; t]) = true /\
  SFnonneg (SFmax [S754_zero false; t]) = true /\
  SFval (SFmax [S754_zero false; t]) = SFval t.
Proof.
  intros V N. destruct t as [[|]|[|]| |[|] m e]; try discriminate;
    cbn; repeat split; assumption || reflexivity.
Qed.

Lemma SFmin_val w q :
  valid_binary w = true -> SFnonneg w = true ->
  valid_binary q = true -> SFnonneg q = true ->
  valid_binary (SFmin [w; q]) = true /\
  SFnonneg (SFmin [w; q]) = true /\
  SFval (SFmin [w; q]) = Z.min (SFval w) (SFval q).
Proof.
  intros Vw Nw Vq Nq.
  assert (SFmin [w; q] =
          if SFis_neg_zero q && SFis_pos_zero w then S754_zero true
          else if SFltb q w then q else w) as ->.
  { destruct w as [[|]|[|]| |[|] mw ew]; try discriminate;
      destruct q as [[|]|[|]| |[|] mq eq]; try discriminate; reflexivity. }
  destruct (SFis_neg_zero q && SFis_pos_zero w) eqn:Hz.
  { apply andb_true_iff in Hz as [Hq Hw].
    destruct q as [[|]|[|]| |[|] mq eq]; try discriminate.
    destruct w as [[|]|[|]| |[|] mw ew]; try discriminate.
    repeat split. }
  rewrite SFltb_val by assumption.
  destruct (Z.ltb_spec (SFval q) (SFval w));
    (split; [assumption|split; [assumption|lia]]).
Qed.

Lemma SFclamp_val t d :
  valid_binary t = true -> SFnonneg t = true ->
  valid_binary d = true -> SFnonneg d = true ->
  valid_binary (SFclamp t d) = true /\
  SFnonneg (SFclamp t d) = true /\
  SFval (SFclamp t d) = Z.min (SFval t) (SFval d).
Proof.
  intros Vt Nt Vd Nd. unfold SFclamp.
  destruct (SFmax0_val t Vt Nt) as (Vm & Nm & Hm).
  destruct (SFmin_val _ d Vm Nm Vd Nd) as (V & N & H).
  rewrite Hm in H. auto.
Qed.

Lemma SFeqb_of_values x y :
  valid_binary x = true -> valid_binary y = true ->
  SFnonneg x = true -> SFnonneg y = true ->
  SFval x = SFval y -> SFeqb x y = true.
Proof.
  intros Vx Vy Nx Ny H. unfold SFeqb. rewrite (SFcompare_val x y Vx Vy Nx Ny).
  rewrite H, Z.compare_refl. reflexivity.
Qed.

Lemma SFleb_zero_nonneg x : SFleb (S754_zero false) x = true -> SFnonneg x = true.
Proof. destruct x as [[|]|[|]| |[|] m e]; try discriminate; reflexivity. Qed.

Lemma SFleb_keeps_nonneg x y :
  SFnonneg x = true -> SFleb x y = true -> SFnonneg y = true.
Proof.
  destruct x as [[|]|[|]| |[|] mx ex]; try discriminate;
    destruct y as [[|]|[|]| |[|] my ey]; try discriminate; reflexivity.
Qed.

Lemma SFsign_cases x :
  SFis_nan x = false ->
  SFltb x (S754_zero false) = true \/ SFleb (S754_zero false) x = true.
Proof. destruct x as [[|]|[|]| |[|] m e]; try discriminate; auto. Qed.

Lemma SFleb_not_nan x y : SFleb x y = true -> SFis_nan x = false /\ SFis_nan y = false.
Proof.
  destruct x as [[|]|[|]| |[|] mx ex]; try discriminate;
    destruct y as [[|]|[|]| |[|] my ey]; try discriminate; split; reflexivity.
Qed.

Lemma SFzero_leb x y :
  SFeqb x (S754_zero false) = true -> SFleb (S754_zero false) y = true ->
  SFleb x y = true.
Proof.
  destruct x as [[|]|[|]| |[|] mx ex]; try discriminate;
    destruct y as [[|]|[|]| |[|] my ey]; try discriminate; reflexivity.
Qed.

Lemma SFclamp_mono t1 t2 d :
  valid_binary t1 = true -> valid_binary t2 = true -> valid_binary d = true ->
  SFleb (S754_zero false) d = true -> SFleb t1 t2 = true ->
  SFleb (SFclamp t1 d) (SFclamp t2 d) = true.
Proof.
  intros V1 V2 Vd Hd H12.
  destruct (SFleb_not_nan _ _ H12) as [N1 N2].
  destruct (SFsign_cases t1 N1) as [Hneg|Hpos].
  - apply SFzero_leb; [apply SFclamp_below; assumption|].
    apply SFclamp_in_range; assumption.
  - pose proof (SFleb_zero_nonneg _ Hpos) as Nn1.
    pose proof (SFleb_keeps_nonneg _ _ Nn1 H12) as Nn2.
    pose proof (SFleb_zero_nonneg _ Hd) as Nnd.
    destruct (SFclamp_val t1 d V1 Nn1 Vd Nnd) as (Vc1 & Nc1 & Hc1).
    destruct (SFclamp_val t2 d V2 Nn2 Vd Nnd) as (Vc2 & Nc2 & Hc2).
    apply SFleb_of_val; try assumption.
    pose proof (SFleb_val t1 t2 V1 V2 Nn1 Nn2 H12). lia.
Qed.

(** X23. The seek target grows with the timestamp: of two objects the one
    with the later timestamp never gets the earlier frame, whatever the
    (non-negative) duration. *)
Theorem seek_target_is_monotone (t1 t2 d : float) :
  (0 <=? d)%float = true ->
  (t1 <=? t2)%float = true ->
  (seekTarget t1 d <=? seekTarget t2 d)%float = true.
Proof.
  rewrite !FloatAxioms.leb_spec, !seekTarget_spec.
  change (Prim2SF 0) with (S754_zero false).
  apply SFclamp_mono; apply Prim2SF_valid.
Qed.

(** X23, on sample data. *)
Lemma seek_target_is_monotone_witness :
  (seekTarget 2.5 12.5 <=? seekTarget 100 12.5)%float = true.
Proof.
  apply (seek_target_is_monotone 2.5 100 12.5); reflexivity.
Defined.

(** ** A box inside the unit square *)

Lemma SFmul_one_not_nan w :
  valid_binary w = true -> SFnonneg w = true ->
  SFis_nan (SF64mul SFone w) = false.
Proof.
  intros Vw Nw. destruct w as [s|[|]| |[|] m e]; try discriminate; try reflexivity.
  unfold SFone. rewrite SFmul_finite by (reflexivity || assumption).
  match goal with |- SFis_nan (round_result ?s ?q ?t) = false =>
    pose proof (round_result_sign s q t) as Hs;
    destruct (round_result s q t); try reflexivity; destruct Hs
  end.
Qed.

Lemma SFmax_nan_r x : SFmax [x; S754_nan] = S754_nan.
Proof.
  unfold SFmax. cbn. destruct (SFis_nan x); reflexivity.
Qed.

Lemma SFmin_nan_r x : SFmin [x; S754_nan] = S754_nan.
Proof.
  unfold SFmin. cbn. destruct (SFis_nan x); reflexivity.
Qed.

Lemma SFsub_nan_l x : SF64sub S754_nan x = S754_nan.
Proof. reflexivity. Qed.

Lemma SFside_unclamped a b w :
  valid_binary a = true -> valid_binary b = true -> valid_binary w = true ->
  SFnonneg w = true ->
  SFleb (S754_zero false) a = true ->
  SFleb (S754_zero false) b = true -> SFleb b SFone = true ->
  SFltb (S754_zero false)
    (SF64sub (SFmin [w; SF64mul b w]) (SFmax [S754_zero false; SF64mul a w]))
  = true ->
  SFeqb (SFmax [S754_zero false; SF64mul a w]) (SF64mul a w) = true /\
  SFeqb (SFmin [w; SF64mul b w]) (SF64mul b w) = true.
Proof.
  intros Va Vb Vw Nw Ha Hb Hb1 Hpos.
  pose proof (SFleb_zero_nonneg _ Ha) as Na.
  pose proof (SFleb_zero_nonneg _ Hb) as Nb.
  destruct (SFmul_valid a w Va Vw) as [Vp _].
  destruct (SFmul_valid b w Vb Vw) as [Vq _].
  assert (SFis_nan (SF64mul a w) = false) as Hp.
  { destruct (SF64mul a w) eqn:E; try reflexivity.
    rewrite SFmax_nan_r, SFsub_nan_r in Hpos. discriminate Hpos. }
  assert (SFis_nan (SF64mul b w) = false) as Hq.
  { destruct (SF64mul b w) eqn:E; try reflexivity.
    rewrite SFmin_nan_r, SFsub_nan_l in Hpos. discriminate Hpos. }
  assert (SFnonneg (SF64mul a w) = true) as Np.
  { destruct (SFmul_nonneg a w Va Vw Na Nw) as [E|E]; [|exact E].
    rewrite E in Hp. discriminate Hp. }
  assert (SFnonneg (SF64mul b w) = true) as Nq.
  { destruct (SFmul_nonneg b w Vb Vw Nb Nw) as [E|E]; [|exact E].
    rewrite E in Hq. discriminate Hq. }
  split.
  - destruct (SFmax0_val _ Vp Np) as (V1 & N1 & H1).
    apply SFeqb_of_values; assumption.
  - destruct (SFmin_val w _ Vw Nw Vq Nq) as (V2 & N2 & H2).
    apply SFeqb_of_values; try assumption. rewrite H2.
    assert (SFval (SF64mul b w) <= SFval w); [|lia].
    pose proof (SFleb_val b SFone Vb ltac:(reflexivity) Nb ltac:(reflexivity) Hb1)
      as Hle.
    destruct (SFmul_mono SFone b w ltac:(reflexivity) Vb Vw Nw ltac:(reflexivity)
                Nb Hle) as [E|[E|E]].
    + rewrite E in Hq. discriminate Hq.
    + pose proof (SFmul_one_not_nan w Vw Nw) as H1. rewrite E in H1. discriminate H1.
    + rewrite (SFmul_one w Vw Nw) in E. exact E.
Qed.

(** X24. For a box inside the unit square ([0 <= x_min], [0 <= x_max <= 1], and
    the same in [y]) whose rectangle is drawn, clamping changes nothing: the
    corners are the box's coordinates scaled by the image size. *)
Theorem box_inside_is_not_clamped (w h : N) (box : BoundingBox) :
  overlay (Math.of_N w) (Math.of_N h) box <> [] ->
  (0 <=? x_min box)%float = true ->
  (0 <=? x_max box)%float = true -> (x_max box <=? 1)%float = true ->
  (0 <=? y_min box)%float = true ->
  (0 <=? y_max box)%float = true -> (y_max box <=? 1)%float = true ->
  (x1 (clampBox (Math.of_N w) (Math.of_N h) box)
   =? x_min box * Math.of_N w)%float = true /\
  (x2 (clampBox (Math.of_N w) (Math.of_N h) box)
   =? x_max box * Math.of_N w)%float = true /\
  (y1 (clampBox (Math.of_N w) (Math.of_N h) box)
   =? y_min box * Math.of_N h)%float = true /\
  (y2 (clampBox (Math.of_N w) (Math.of_N h) box)
   =? y_max box * Math.of_N h)%float = true.
Proof.
  unfold overlay.
  destruct (0 <? rect_width _)%float eqn:Hw; [|intros H; contradiction].
  destruct (0 <? rect_height _)%float eqn:Hh; [|intros H; contradiction].
  intros _.
  rewrite FloatAxioms.ltb_spec, rect_width_spec, of_N_spec in Hw.
  rewrite FloatAxioms.ltb_spec, rect_height_spec, of_N_spec in Hh.
  rewrite !FloatAxioms.leb_spec.
  change (Prim2SF 0) with (S754_zero false) in *.
  change (Prim2SF 1) with SFone.
  intros Hx0 Hx1 Hx2 Hy0 Hy1 Hy2.
  destruct (binary_normalize_N w) as [Vw Nw].
  destruct (binary_normalize_N h) as [Vh Nh].
  apply SFside_unclamped in Hw as (Ex1 & Ex2);
    try apply Prim2SF_valid; try assumption.
  apply SFside_unclamped in Hh as (Ey1 & Ey2);
    try apply Prim2SF_valid; try assumption.
  unfold clampBox. cbn [x1 x2 y1 y2].
  rewrite !FloatAxioms.eqb_spec, !min_spec, !max_spec,
    !fmap_cons, !FloatAxioms.mul_spec, !of_N_spec.
  change (Prim2SF 0) with (S754_zero false).
  repeat split; assumption.
Qed.

(** X24, on sample data. *)
Lemma box_inside_is_not_clamped_witness :
  (x1 (clampBox (Math.of_N 400) (Math.of_N 300) (mkBox 0.25 0.4 0.45 0.6))
   =? x_min (mkBox 0.25 0.4 0.45 0.6) * Math.of_N 400)%float = true /\
  (x2 (clampBox (Math.of_N 400) (Math.of_N 300) (mkBox 0.25 0.4 0.45 0.6))
   =? x_max (mkBox 0.25 0.4 0.45 0.6) * Math.of_N 400)%float = true /\
  (y1 (clampBox (Math.of_N 400) (Math.of_N 300) (mkBox 0.25 0.4 0.45 0.6))
   =? y_min (mkBox 0.25 0.4 0.45 0.6) * Math.of_N 300)%float = true /\
  (y2 (clampBox (Math.of_N 400) (Math.of_N 300) (mkBox 0.25 0.4 0.45 0.6))
   =? y_max (mkBox 0.25 0.4 0.45 0.6) * Math.of_N 300)%float = true.
Proof.
  apply (box_inside_is_not_clamped 400 300 (mkBox 0.25 0.4 0.45 0.6));
    (discriminate || reflexivity).
Defined.

End OrderFacts.

(* ===================================================================== *)
(** * Part XIV. The upload zone and the preview URL *)
(* ===================================================================== *)

Module UploadFacts.

Import GeminiService App VideoUpload Samples Vocabulary.

(** X25. While the zone is disabled, no run of drag events reports a file,
    whatever is dropped, and none turns the highlight on: the zone is
    highlighted afterwards only if it was highlighted before. *)
Theorem disabled_zone_ignores_drags (evs : list DragEvent) (isDragging : bool) :
  snd (onDragEvents true evs isDragging) = [] /\
  (fst (onDragEvents true evs isDragging) = true -> isDragging = true) /\
  onDragEvents true evs false = (false, []).
Proof.
  assert (forall d, snd (onDragEvents true evs d) = [] /\
                    (fst (onDragEvents true evs d) = true -> d = true)) as H.
  { induction evs as [|ev evs IH]; intros d; [split; [reflexivity|intros H; exact H]|].
    cbn [onDragEvents].
    destruct ev as [| | |files];
      unfold onDragEvent, handleDragEnter, handleDragLeave, handleDragOver,
        handleDrop; cbn [negb].
    - destruct (IH d) as [Hs Hf].
      destruct (onDragEvents true evs d) as [d' calls]. cbn in *. subst. split; auto.
    - destruct (IH false) as [Hs Hf].
      destruct (onDragEvents true evs false) as [d' calls]. cbn in *. subst.
      split; [reflexivity|]. intros H. apply Hf in H. discriminate H.
    - destruct (IH d) as [Hs Hf].
      destruct (onDragEvents true evs d) as [d' calls]. cbn in *. subst. split; auto.
    - destruct (IH false) as [Hs Hf].
      destruct (onDragEvents true evs false) as [d' calls]. cbn in *. subst.
      split; [reflexivity|]. intros H. apply Hf in H. discriminate H. }
  split; [apply H|]. split; [apply H|].
  destruct (H false) as [Hs Hf].
  destruct (onDragEvents true evs false) as [[|] calls]; cbn in *; subst;
    [specialize (Hf eq_refl); discriminate Hf|reflexivity].
Qed.

Lemma created_app co t1 t2 : created co (t1 ++ t2) = created co t1 ++ created co t2.
Proof.
  induction t1 as [|[url|file] t1 IH]; cbn; [reflexivity|exact IH|].
  rewrite IH. reflexivity.
Qed.

Lemma revoked_app t1 t2 : revoked (t1 ++ t2) = revoked t1 ++ revoked t2.
Proof.
  induction t1 as [|[url|file] t1 IH]; cbn; [reflexivity| |exact IH].
  rewrite IH. reflexivity.
Qed.

Lemma handleFileChanges_urls (createObjectURL : File -> js_string)
    (files : list (option File)) :
  (forall file, createObjectURL file <> []) ->
  forall (videoUrl : option js_string) (st : State),
  videoUrl <> Some [] ->
  match videoUrl with Some url => [url] | None => [] end
  ++ created createObjectURL (snd (handleFileChanges createObjectURL files videoUrl st))
  = revoked (snd (handleFileChanges createObjectURL files videoUrl st))
    ++ match snd (fst (handleFileChanges createObjectURL files videoUrl st)) with
       | Some url => [url]
       | None => []
       end.
Proof.
  intros Hco. induction files as [|file rest IH]; intros videoUrl st Hurl.
  - cbn. rewrite app_nil_r. reflexivity.
  - cbn [handleFileChanges].
    destruct (handleFileChange createObjectURL file videoUrl st)
      as [[st' videoUrl'] effects] eqn:Hc.
    assert (videoUrl' <> Some []) as Hurl'.
    { unfold handleFileChange in Hc. destruct file as [f|]; injection Hc as <- <- <-.
      - intros [= H]. exact (Hco f H).
      - discriminate. }
    specialize (IH videoUrl' st' Hurl').
    destruct (handleFileChanges createObjectURL rest videoUrl' st')
      as [final effects'].
    cbn [fst snd] in *. rewrite created_app, revoked_app, <- app_assoc, <- IH.
    rewrite !app_assoc. f_equal.
    unfold handleFileChange in Hc.
    destruct file as [f|]; injection Hc as <- <- <-;
      destruct videoUrl as [[|c url]|];
      try (exfalso; apply Hurl; reflexivity); cbn; reflexivity.
Qed.

Lemma handleFileChanges_held (createObjectURL : File -> js_string)
    (files : list (option File)) :
  files <> [] ->
  forall (videoUrl : option js_string) (st : State),
  snd (fst (handleFileChanges createObjectURL files videoUrl st)) = None <->
  videoFile (fst (fst (handleFileChanges createObjectURL files videoUrl st))) = None.
Proof.
  induction files as [|file rest IH]; intros Hne videoUrl st; [congruence|].
  cbn [handleFileChanges].
  destruct (handleFileChange createObjectURL file videoUrl st)
    as [[st' videoUrl'] effects] eqn:Hc.
  destruct rest as [|file' rest'].
  - cbn. unfold handleFileChange in Hc.
    destruct file as [f|]; injection Hc as <- <- <-; cbn;
      split; intros H; (discriminate H || reflexivity).
  - specialize (IH ltac:(discriminate) videoUrl' st').
    destruct (handleFileChanges createObjectURL (file' :: rest') videoUrl' st')
      as [final effects'].
    exact IH.
Qed.

(** X26. No preview URL is leaked by [handleFileChange]: over any sequence of
    file changes, starting without a preview, the URLs created are exactly
    the URLs revoked, in the same order, followed by the one still held;
    a URL is held at the end exactly when a file is. (The browser never
    hands out an empty URL.) *)
Theorem no_preview_url_leaks (createObjectURL : File -> js_string)
    (files : list (option File)) (st : State) :
  (forall file, createObjectURL file <> []) ->
  created createObjectURL (snd (handleFileChanges createObjectURL files None st))
  = revoked (snd (handleFileChanges createObjectURL files None st))
    ++ match snd (fst (handleFileChanges createObjectURL files None st)) with
       | Some url => [url]
       | None => []
       end /\
  (files <> [] ->
   (snd (fst (handleFileChanges createObjectURL files None st)) = None <->
    videoFile (fst (fst (handleFileChanges createObjectURL files None st))) = None)).
Proof.
  intros Hco. split.
  - apply (handleFileChanges_urls createObjectURL files Hco None st). discriminate.
  - intros Hne. apply handleFileChanges_held, Hne.
Qed.

(** X26, on sample data. *)
Lemma no_preview_url_leaks_witness :
  created sample_createObjectURL
    (snd (handleFileChanges sample_createObjectURL
            [Some sample_video; Some sample_video; None] None idle))
  = revoked (snd (handleFileChanges sample_createObjectURL
                    [Some sample_video; Some sample_video; None] None idle))
    ++ match snd (fst (handleFileChanges sample_createObjectURL
                         [Some sample_video; Some sample_video; None] None idle)) with
       | Some url => [url]
       | None => []
       end /\
  ([Some sample_video; Some sample_video; None] <> [] ->
   (snd (fst (handleFileChanges sample_createObjectURL
                [Some sample_video; Some sample_video; None] None idle)) = None <->
    videoFile (fst (fst (handleFileChanges sample_createObjectURL
                           [Some sample_video; Some sample_video; None] None idle)))
    = None)).
Proof.
  apply (no_preview_url_leaks sample_createObjectURL
           [Some sample_video; Some sample_video; None] idle).
  intros file. discriminate.
Defined.

End UploadFacts.
